(** * Schema-drift mutation, repair and verification: a shallow embedding

    The development follows the Python sources
    - [schema_drift_config.py]      (drift vocabulary, container lookup),
    - [schema_repair_patcher.py]    (excerpt, response parsing, plan application),
    - [02_mutate_patch.py]          (drift mutator),
    - [06_compare_original_vs_repaired.py] (structural verifier).

    Documents are the values [json.load] yields.  Python dictionaries keep
    insertion order, so a dictionary is an association list; numbers are the
    integers of JSON (floating-point literals are outside the embedding). *)

From Stdlib Require Import List String Ascii ZArith NArith Bool Arith Lia.
From Stdlib Require Import Permutation Sorted.
Import ListNotations.
Open Scope string_scope.
Open Scope list_scope.

(** ** Python values *)

#[local] Set Warnings "-register-all".

Inductive json : Type :=
| JNull
| JBool (b : bool)
| JNum (z : Z)
| JStr (s : string)
| JList (l : list json)
| JDict (d : list (string * json)).

(** A dictionary as [json.load] builds it: string keys, insertion order. *)
Definition jdict := list (string * json).

(** [isinstance(v, dict)] and [isinstance(v, list)]. *)
Definition is_dict (v : json) : bool :=
  match v with JDict _ => true | _ => false end.

Definition is_list (v : json) : bool :=
  match v with JList _ => true | _ => false end.

(** Truth value of a Python object, as [not v] and [if v] test it. *)
Definition truthy (v : json) : bool :=
  match v with
  | JNull => false
  | JBool b => b
  | JNum z => negb (z =? 0)%Z
  | JStr s => negb (s =? "")
  | JList l => match l with [] => false | _ => true end
  | JDict d => match d with [] => false | _ => true end
  end.

(** [type(v).__name__]. *)
Definition py_type_name (v : json) : string :=
  match v with
  | JNull => "NoneType"
  | JBool _ => "bool"
  | JNum _ => "int"
  | JStr _ => "str"
  | JList _ => "list"
  | JDict _ => "dict"
  end.

(** Exceptions carry their class and message. *)
Inductive exn : Type :=
| KeyError (msg : string)
| TypeError (msg : string)
| ValueError (msg : string)
| RuntimeError (msg : string)
| AttributeError (msg : string)
| IndexError (msg : string).

Inductive result (A : Type) : Type :=
| Ok (a : A)
| Raise (e : exn).
Arguments Ok {A} a.
Arguments Raise {A} e.

Definition bind {A B : Type} (r : result A) (k : A -> result B) : result B :=
  match r with
  | Ok a => k a
  | Raise e => Raise e
  end.

Notation "'let*' x ':=' r 'in' k" := (bind r (fun x => k))
  (at level 10, x name, r at level 100, k at level 200).
Notation "'let*' ' p ':=' r 'in' k" :=
  (bind r (fun x => match x with p => k end))
  (at level 10, p pattern, r at level 100, k at level 200).

(** ** Insertion-ordered dictionaries *)

Section Assoc.
Context {K V : Type}.
Variable eqb : K -> K -> bool.

(** [d.get(k)], as an option. *)
Fixpoint assoc_find (d : list (K * V)) (k : K) : option V :=
  match d with
  | [] => None
  | (k', v) :: d' => if eqb k k' then Some v else assoc_find d' k
  end.

(** [k in d]. *)
Definition assoc_mem (d : list (K * V)) (k : K) : bool :=
  match assoc_find d k with Some _ => true | None => false end.

(** [del d[k]]: the entry of [k] goes, the others keep their order. *)
Definition assoc_remove (d : list (K * V)) (k : K) : list (K * V) :=
  filter (fun kv => negb (eqb k (fst kv))) d.

(** [d[k] = v]: an existing key keeps its position, a new one goes last. *)
Fixpoint assoc_set (d : list (K * V)) (k : K) (v : V) : list (K * V) :=
  match d with
  | [] => [(k, v)]
  | (k', v') :: d' =>
      if eqb k k' then (k', v) :: d' else (k', v') :: assoc_set d' k v
  end.

(** [list(d.keys())]. *)
Definition assoc_keys (d : list (K * V)) : list K := map fst d.
End Assoc.

Definition dict_find (d : jdict) (k : string) : option json :=
  assoc_find String.eqb d k.

Definition dict_mem (d : jdict) (k : string) : bool :=
  assoc_mem String.eqb d k.

Definition dict_pop (d : jdict) (k : string) : jdict :=
  assoc_remove String.eqb d k.

Definition dict_set (d : jdict) (k : string) (v : json) : jdict :=
  assoc_set String.eqb d k v.

Definition dict_keys (d : jdict) : list string := assoc_keys d.

(** [d.get(k, default)] and [d.get(k)], whose default is [None]. *)
Definition dict_get_default (d : jdict) (k : string) (default : json) : json :=
  match dict_find d k with Some v => v | None => default end.

Definition dict_get (d : jdict) (k : string) : json :=
  dict_get_default d k JNull.

(** ** schema_drift_config.py *)

Definition CANON_KEY : string := "functions".

Definition RENAME_VARIANTS : list string :=
  [ "function"; "Functions"; "funcs"; "fn_map"; "function_map";
    "functions_map"; "functions_dict" ].

Definition WRAPPER_VARIANTS : list string :=
  [ "wrapper"; "new_wrapper"; "new_schema"; "new_layout"; "wrapped";
    "temp_wrapper" ].

Definition EXTRA_STRUCT_KEYS : list string :=
  [ "extra_struct_1"; "extra_struct_2"; "temp_block"; "temp_struct" ].

(** [for k in variants: if k in patch: return k], then [None]. *)
Fixpoint first_present (variants : list string) (patch : jdict) : option string :=
  match variants with
  | [] => None
  | k :: rest => if dict_mem patch k then Some k else first_present rest patch
  end.

Definition find_functions_key (patch : jdict) : option string :=
  if dict_mem patch CANON_KEY then Some CANON_KEY
  else first_present RENAME_VARIANTS patch.

Fixpoint first_dict_valued (variants : list string) (container : jdict)
  : option string :=
  match variants with
  | [] => None
  | k :: rest =>
      if is_dict (dict_get container k) then Some k
      else first_dict_valued rest container
  end.

Definition find_wrapper_key (functions_container : json) : option string :=
  match functions_container with
  | JDict container => first_dict_valued WRAPPER_VARIANTS container
  | _ => None
  end.

(** ** schema_repair_patcher.py: applying a repair plan *)

(** The patch handed to [apply_plan_to_patch] is mutated in place, and
    [patch[dst] = patch.pop(src)] stores whatever hashable object the plan
    names as [dst].  The top-level patch is therefore a dictionary over
    hashable Python keys; [True] and [1] are the same key, as are [False]
    and [0]. *)
Inductive pykey : Type :=
| KNone
| KInt (z : Z)
| KStr (s : string).

Definition pykey_eqb (a b : pykey) : bool :=
  match a, b with
  | KNone, KNone => true
  | KInt x, KInt y => (x =? y)%Z
  | KStr s, KStr t => (s =? t)
  | _, _ => false
  end.

Definition pydict := list (pykey * json).

(** Hashing a value, as a dictionary operation does with its key. *)
Definition hash_key (v : json) : result pykey :=
  match v with
  | JNull => Ok KNone
  | JBool b => Ok (KInt (if b then 1 else 0))
  | JNum z => Ok (KInt z)
  | JStr s => Ok (KStr s)
  | JList _ => Raise (TypeError "unhashable type: 'list'")
  | JDict _ => Raise (TypeError "unhashable type: 'dict'")
  end.

Definition patch_find (p : pydict) (k : pykey) : option json :=
  assoc_find pykey_eqb p k.

Definition patch_mem (p : pydict) (k : pykey) : bool :=
  assoc_mem pykey_eqb p k.

Definition patch_pop (p : pydict) (k : pykey) : pydict :=
  assoc_remove pykey_eqb p k.

Definition patch_set (p : pydict) (k : pykey) (v : json) : pydict :=
  assoc_set pykey_eqb p k v.

(** [patch.get(k)]. *)
Definition patch_get (p : pydict) (k : pykey) : json :=
  match patch_find p k with Some v => v | None => JNull end.

(** A patch as [json.load] returns it. *)
Definition patch_of_json (d : jdict) : pydict :=
  map (fun kv => (KStr (fst kv), snd kv)) d.

(** [k in container] and [container[k]] for a loaded dictionary: only a
    string can be one of its keys. *)
Definition container_find (container : jdict) (k : pykey) : option json :=
  match k with
  | KStr s => dict_find container s
  | _ => None
  end.

(** One line of the action log.  The source formats each as text
    ("[i] rename_key 'a' -> 'b'. Applied"); the entries keep the index, the
    outcome and the values the text interpolates. *)
Inductive log_entry : Type :=
| LogNotADict (i : nat)
| LogRenameMissing (i : nat)
| LogRenameApplied (i : nat) (src dst : json)
| LogRenameNoChange (i : nat) (src dst : json)
| LogUnwrapInvalid (i : nat)
| LogUnwrapApplied (i : nat) (wrapper_key : json)
| LogUnwrapNoChange (i : nat) (wrapper_key : json)
| LogUnknownOp (i : nat) (op : json).

(** [priority.get(op, 99)] with [priority = {"rename_key": 0, "unwrap": 1}]:
    the lookup hashes [op]. *)
Definition priority_get (op : json) : result nat :=
  let* k := hash_key op in
  Ok (match k with
      | KStr s => if s =? "rename_key" then 0
                  else if s =? "unwrap" then 1 else 99
      | _ => 99
      end).

(** The sort key [lambda a: priority.get(a.get("op") if isinstance(a, dict)
    else None, 99)]. *)
Definition sort_key (a : json) : result nat :=
  match a with
  | JDict d => priority_get (dict_get d "op")
  | _ => priority_get JNull
  end.

(** [sorted(actions, key=...)]: the key of every element is computed first,
    in order; the sort is stable. *)
Fixpoint keyed (actions : list json) : result (list (nat * json)) :=
  match actions with
  | [] => Ok []
  | a :: rest =>
      let* k := sort_key a in
      let* ks := keyed rest in
      Ok ((k, a) :: ks)
  end.

Fixpoint insert_by_key (x : nat * json) (l : list (nat * json))
  : list (nat * json) :=
  match l with
  | [] => [x]
  | y :: l' =>
      if (fst x <=? fst y)%nat then x :: y :: l' else y :: insert_by_key x l'
  end.

Fixpoint stable_sort (l : list (nat * json)) : list (nat * json) :=
  match l with
  | [] => []
  | x :: l' => insert_by_key x (stable_sort l')
  end.

Definition sorted_actions (actions : list json) : result (list json) :=
  let* ks := keyed actions in
  Ok (map snd (stable_sort ks)).

(** [path != [CANON_KEY]], negated. *)
Definition is_canon_path (path : json) : bool :=
  match path with
  | JList [JStr s] => s =? CANON_KEY
  | _ => false
  end.

(** The [rename_key] branch, once [src] and [dst] are known to be truthy:
    [if src in patch and dst not in patch: patch[dst] = patch.pop(src)]. *)
Definition rename_key (i : nat) (patch : pydict) (src dst : json)
  : pydict * result log_entry :=
  match hash_key src with
  | Raise e => (patch, Raise e)
  | Ok ks =>
      match patch_find patch ks with
      | None => (patch, Ok (LogRenameNoChange i src dst))
      | Some v =>
          match hash_key dst with
          | Raise e => (patch, Raise e)
          | Ok kd =>
              if patch_mem patch kd
              then (patch, Ok (LogRenameNoChange i src dst))
              else (patch_set (patch_pop patch ks) kd v,
                    Ok (LogRenameApplied i src dst))
          end
      end
  end.

(** The [unwrap] branch, once the path and the wrapper key passed the
    check: the container test short-circuits, so the wrapper key is hashed
    only when [patch.get(CANON_KEY)] is a dictionary. *)
Definition unwrap (i : nat) (patch : pydict) (wrapper_key : json)
  : pydict * result log_entry :=
  match patch_get patch (KStr CANON_KEY) with
  | JDict container =>
      match hash_key wrapper_key with
      | Raise e => (patch, Raise e)
      | Ok kw =>
          match container_find container kw with
          | Some (JDict inner) =>
              (patch_set patch (KStr CANON_KEY) (JDict inner),
               Ok (LogUnwrapApplied i wrapper_key))
          | _ => (patch, Ok (LogUnwrapNoChange i wrapper_key))
          end
      end
  | _ => (patch, Ok (LogUnwrapNoChange i wrapper_key))
  end.

(** [op == "rename_key"]: a string equals only a string. *)
Definition py_eq_str (v : json) (s : string) : bool :=
  match v with
  | JStr t => t =? s
  | _ => false
  end.

(** The body of the loop [for i, a in enumerate(actions)]. *)
Definition apply_action (i : nat) (patch : pydict) (a : json)
  : pydict * result log_entry :=
  match a with
  | JDict d =>
      let op := dict_get d "op" in
      if py_eq_str op "rename_key" then
        let src := dict_get d "from" in
        let dst := dict_get d "to" in
        if negb (truthy src) || negb (truthy dst)
        then (patch, Ok (LogRenameMissing i))
        else rename_key i patch src dst
      else if py_eq_str op "unwrap" then
        let path := dict_get_default d "path" (JList []) in
        let wrapper_key := dict_get d "wrapper_key" in
        if negb (is_canon_path path) || negb (truthy wrapper_key)
        then (patch, Ok (LogUnwrapInvalid i))
        else unwrap i patch wrapper_key
      else (patch, Ok (LogUnknownOp i op))
  | _ => (patch, Ok (LogNotADict i))
  end.

(** The loop: the patch is updated in place, so an exception leaves the
    changes made so far. *)
Fixpoint run_actions (i : nat) (patch : pydict) (logs : list log_entry)
  (actions : list json) : pydict * result (list log_entry) :=
  match actions with
  | [] => (patch, Ok logs)
  | a :: rest =>
      match apply_action i patch a with
      | (patch', Ok entry) => run_actions (S i) patch' (logs ++ [entry]) rest
      | (patch', Raise e) => (patch', Raise e)
      end
  end.

(** [SchemaRepairPatcher.apply_plan_to_patch]: the final state of the patch
    and the returned log, or the exception raised. *)
Definition apply_plan_to_patch (patch : pydict) (plan : json)
  : pydict * result (list log_entry) :=
  match plan with
  | JDict p =>
      match dict_get_default p "actions" (JList []) with
      | JList actions =>
          match sorted_actions actions with
          | Ok sorted => run_actions 0 patch [] sorted
          | Raise e => (patch, Raise e)
          end
      | _ => (patch, Raise (ValueError "Plan 'actions' must be a list."))
      end
  | _ =>
      (patch,
       Raise (AttributeError
                ("'" ++ py_type_name plan ++ "' object has no attribute 'get'")%string))
  end.

(** ** schema_repair_patcher.py: the excerpt *)

(** The excerpt is a dictionary whose last three keys are set only when the
    functions container is a dictionary: an absent key is [None] here. *)
Record excerpt : Type := {
  top_level_patch_keys_sample : list string;
  has_canonical_functions : bool;
  possible_renamed_functions_keys_present : list string;
  extra_struct_keys_present : list string;
  functions_container_key : option string;
  functions_container_type : string;
  functions_container_keys_sample : option (list string);
  wrapper_key_detected_by_list : option (option string);
  single_key_wrapper_heuristic : option (string * list string)
}.

(** [patch.get(functions_key) if functions_key else None]. *)
Definition functions_container_of (patch : jdict) : json :=
  match find_functions_key patch with
  | Some k => if negb (k =? "") then dict_get patch k else JNull
  | None => JNull
  end.

(** [str(type(v))]. *)
Definition type_repr (v : json) : string :=
  ("<class '" ++ py_type_name v ++ "'>")%string.

Definition extract_excerpt (patch : jdict) : excerpt :=
  let functions_container := functions_container_of patch in
  {| top_level_patch_keys_sample := firstn 40 (dict_keys patch);
     has_canonical_functions := dict_mem patch CANON_KEY;
     possible_renamed_functions_keys_present :=
       filter (dict_mem patch) RENAME_VARIANTS;
     extra_struct_keys_present := filter (dict_mem patch) EXTRA_STRUCT_KEYS;
     functions_container_key := find_functions_key patch;
     functions_container_type := type_repr functions_container;
     functions_container_keys_sample :=
       match functions_container with
       | JDict container => Some (firstn 25 (dict_keys container))
       | _ => None
       end;
     wrapper_key_detected_by_list :=
       match functions_container with
       | JDict _ => Some (find_wrapper_key functions_container)
       | _ => None
       end;
     single_key_wrapper_heuristic :=
       match functions_container with
       | JDict container =>
           match dict_keys container with
           | [k0] =>
               match dict_get container k0 with
               | JDict inner => Some (k0, firstn 25 (dict_keys inner))
               | _ => None
               end
           | _ => None
           end
       | _ => None
       end |}.

(** ** schema_repair_patcher.py: reading the oracle's response *)

(** The response is Python text: a sequence of code points. *)
Definition text := list N.

Definition text_eqb (a b : text) : bool :=
  if list_eq_dec N.eq_dec a b then true else false.

(** [c.isspace()]. *)
Definition is_space (c : N) : bool :=
  ((9 <=? c) && (c <=? 13) || (28 <=? c) && (c <=? 32)
   || (c =? 133) || (c =? 160) || (c =? 5760)
   || (8192 <=? c) && (c <=? 8202)
   || (c =? 8232) || (c =? 8233) || (c =? 8239) || (c =? 8287)
   || (c =? 12288))%N.

Fixpoint lstrip (t : text) : text :=
  match t with
  | [] => []
  | c :: rest => if is_space c then lstrip rest else t
  end.

Definition rstrip (t : text) : text := rev (lstrip (rev t)).

Definition strip (t : text) : text := rstrip (lstrip t).

(** The line boundaries of [str.splitlines], "\r\n" apart. *)
Definition is_line_boundary (c : N) : bool :=
  ((10 <=? c) && (c <=? 13) || (28 <=? c) && (c <=? 30)
   || (c =? 133) || (c =? 8232) || (c =? 8233))%N.

(** [t.splitlines()]: [cur] is the line being read; the boundaries are
    dropped, "\r\n" is one boundary, and no empty last line is added. *)
Fixpoint splitlines_from (cur : text) (t : text) : list text :=
  match t with
  | [] => match cur with [] => [] | _ => [cur] end
  | c :: rest =>
      if (c =? 13)%N then
        match rest with
        | c' :: rest' =>
            if (c' =? 10)%N then cur :: splitlines_from [] rest'
            else cur :: splitlines_from [] rest
        | [] => cur :: splitlines_from [] rest
        end
      else if is_line_boundary c then cur :: splitlines_from [] rest
      else splitlines_from (cur ++ [c]) rest
  end.

Definition splitlines (t : text) : list text := splitlines_from [] t.

(** ["\n".join(lines)]. *)
Fixpoint join_lines (lines : list text) : text :=
  match lines with
  | [] => []
  | [l] => l
  | l :: rest => l ++ 10%N :: join_lines rest
  end.

(** [t.startswith(prefix)]. *)
Fixpoint startswith (t prefix : text) : bool :=
  match prefix, t with
  | [], _ => true
  | p :: prefix', c :: t' => (c =? p)%N && startswith t' prefix'
  | _ :: _, [] => false
  end.

(** [t.find(c)] and [t.rfind(c)] for a single character; [None] is -1. *)
Fixpoint find_char (c : N) (t : text) : option nat :=
  match t with
  | [] => None
  | x :: rest =>
      if (x =? c)%N then Some 0
      else match find_char c rest with
           | Some i => Some (S i)
           | None => None
           end
  end.

Fixpoint rfind_char (c : N) (t : text) : option nat :=
  match t with
  | [] => None
  | x :: rest =>
      match rfind_char c rest with
      | Some i => Some (S i)
      | None => if (x =? c)%N then Some 0 else None
      end
  end.

(** [t[start : stop]] for indices within the text. *)
Definition slice (t : text) (start stop : nat) : text :=
  firstn (stop - start) (skipn start t).

(** [lines[1:-1]]. *)
Definition drop_first_last (lines : list text) : list text :=
  removelast (tl lines).

(** What [json.loads] makes of a text: the value, or the exception it
    raises, of which the code reads nothing but [str(e)]. *)
Inductive loaded : Type :=
| Loaded (v : json)
| LoadError (msg : string).

Definition fence : text := [96; 96; 96]%N.
Definition open_brace : N := 123%N.
Definition close_brace : N := 125%N.

Section OracleResponse.
(** [json.loads], which belongs to the Python library. *)
Variable json_loads : text -> loaded.

(** The fence removal at the head of [_extract_json_object]. *)
Definition strip_fences (t : text) : text :=
  let stripped := strip t in
  if startswith stripped fence then
    let lines := splitlines stripped in
    if (3 <=? List.length lines)%nat
    then strip (join_lines (drop_first_last lines))
    else stripped
  else stripped.

(** [stripped[start : end + 1]] for the first "{" and the last "}", when
    both exist and [start < end]. *)
Definition brace_candidate (stripped : text) : option text :=
  match find_char open_brace stripped, rfind_char close_brace stripped with
  | Some start, Some stop =>
      if (stop <=? start)%nat then None
      else Some (slice stripped start (stop + 1))
  | _, _ => None
  end.

Definition _extract_json_object (t : text) : result text :=
  let stripped := strip_fences t in
  match json_loads stripped with
  | Loaded _ => Ok stripped
  | LoadError _ =>
      match brace_candidate stripped with
      | None => Raise (ValueError "No JSON object found in LLM output.")
      | Some candidate =>
          match json_loads candidate with
          | Loaded _ => Ok candidate
          | LoadError e =>
              Raise (ValueError ("Extracted JSON is invalid: " ++ e)%string)
          end
      end
  end.

(** The tail of [infer_plan_from_patch], from the response of the model
    on: [response_text] is [response.text], which may be [None].  The
    error of the second [json.loads] is a [json.JSONDecodeError], which is
    a [ValueError]. *)
Definition plan_of_response (response_text : option text) : result json :=
  let raw_text :=
    strip (match response_text with Some t => t | None => [] end) in
  let* json_text := _extract_json_object raw_text in
  match json_loads json_text with
  | LoadError e => Raise (ValueError e)
  | Loaded plan =>
      match plan with
      | JDict p =>
          match dict_find p "actions" with
          | Some (JList _) => Ok plan
          | _ =>
              Raise (ValueError
                "LLM returned invalid plan shape (expected dict with 'actions': list).")
          end
      | _ =>
          Raise (ValueError
            "LLM returned invalid plan shape (expected dict with 'actions': list).")
      end
  end.
End OracleResponse.

(** ** 02_mutate_patch.py: the drift mutator *)

(** The generator of Python's [random] module: [random.seed(n)] sets its
    state from [n], and every choice goes through [_randbelow(n)], which
    returns an index below [n] and advances the state. *)
Class PRNG : Type := {
  rng_state : Type;
  rng_seed : Z -> rng_state;
  rng_below : rng_state -> nat -> nat * rng_state;
  rng_below_lt : forall g n, (0 < n)%nat -> (fst (rng_below g n) < n)%nat
}.

Module MutatePatch.

Inductive mode : Type :=
| ModeWrapper | ModeRename | ModeExtra | ModeBoth | ModeAll | ModeRandom.

Definition mode_name (m : mode) : string :=
  match m with
  | ModeWrapper => "wrapper"
  | ModeRename => "rename"
  | ModeExtra => "extra"
  | ModeBoth => "both"
  | ModeAll => "all"
  | ModeRandom => "random"
  end.

(** The choices of [--order]. *)
Inductive order : Type :=
| OrderRenameThenWrap | OrderWrapThenRename | OrderRandom.

Definition order_name (o : order) : string :=
  match o with
  | OrderRenameThenWrap => "rename_then_wrap"
  | OrderWrapThenRename => "wrap_then_rename"
  | OrderRandom => "random"
  end.

(** The parsed command line. *)
Record args : Type := {
  arg_mode : mode;
  arg_seed : option Z;
  arg_trial_id : option Z;
  arg_order : order
}.

(** The drifts selected and their parameters, which are also what the
    mutation log records. *)
Record mutation_log : Type := {
  ml_trial_id : option Z;
  ml_seed : option Z;
  ml_mode : string;
  ml_use_rename : bool;
  ml_rename_to : option string;
  ml_use_wrap : bool;
  ml_wrapper_key : option string;
  ml_use_extra_struct : bool;
  ml_extra_struct_key : option string;
  ml_order : string
}.

Definition opt_num (n : option Z) : json :=
  match n with Some z => JNum z | None => JNull end.

(** The key [json.dump] writes for a wrapper key: [None] is written as
    "null".  The wrapper key is [None] only when no wrap is applied. *)
Definition key_text (k : option string) : string :=
  match k with Some s => s | None => "null" end.

(** [if rename_to and CANON_KEY in patch and rename_to not in patch:
       patch[rename_to] = patch.pop(CANON_KEY)]. *)
Definition rename_container (rename_to : option string) (patch : jdict)
  : jdict :=
  match rename_to with
  | Some r =>
      if negb (r =? "") && dict_mem patch CANON_KEY
         && negb (dict_mem patch r)
      then dict_set (dict_pop patch CANON_KEY) r (dict_get patch CANON_KEY)
      else patch
  | None => patch
  end.

(** [patch[k] = {wrapper_key: patch[k]}]. *)
Definition wrap_container (wrapper_key : option string) (k : string)
  (patch : jdict) : jdict :=
  dict_set patch k (JDict [(key_text wrapper_key, dict_get patch k)]).

Definition current_functions_key (p : jdict) : result string :=
  match find_functions_key p with
  | Some k => Ok k
  | None =>
      Raise (KeyError
        "Could not locate functions dict under canonical or known renamed keys.")
  end.

Definition add_extra_struct (a : args) (extra_key : option string)
  (container : jdict) : jdict :=
  match extra_key with
  | None => container
  | Some k =>
      if k =? "" then container
      else if dict_mem container k then container
      else dict_set container k
             (JDict [ ("note", JStr "extra_struct noise field (ignorable)");
                      ("trial_id", opt_num (arg_trial_id a));
                      ("seed", opt_num (arg_seed a)) ])
  end.

(** The wrap at the current functions key, shared by the
    [rename_then_wrap] and the wrap-only branches. *)
Definition wrap_current (wrapper_key : option string) (patch : jdict)
  : jdict * result unit :=
  match current_functions_key patch with
  | Raise e => (patch, Raise e)
  | Ok functions_key =>
      if negb (is_dict (dict_get patch functions_key))
      then (patch,
            Raise (TypeError ("Expected patch['" ++ functions_key
                              ++ "'] to be a dict before wrapping.")%string))
      else (wrap_container wrapper_key functions_key patch, Ok tt)
  end.

Section WithGenerator.
Context {G : PRNG}.

(** [random.choice(seq)]. *)
Definition choice {A : Type} (g : rng_state) (seq : list A)
  : result (A * rng_state) :=
  match seq with
  | [] => Raise (IndexError "Cannot choose from an empty sequence")
  | _ =>
      let (i, g') := rng_below g (List.length seq) in
      match nth_error seq i with
      | Some x => Ok (x, g')
      | None => Raise (IndexError "list index out of range")
      end
  end.

(** Which drift families are applied. *)
Definition choose_drifts (m : mode) (g : rng_state)
  : result (bool * bool * bool * rng_state) :=
  match m with
  | ModeRandom =>
      let* '(use_rename, g1) := choice g [true; false] in
      let* '(use_wrap, g2) := choice g1 [true; false] in
      let* '(use_extra, g3) := choice g2 [true; false] in
      if negb (use_rename || use_wrap || use_extra)
      then Ok (use_rename, true, use_extra, g3)
      else Ok (use_rename, use_wrap, use_extra, g3)
  | ModeWrapper => Ok (false, true, false, g)
  | ModeRename => Ok (true, false, false, g)
  | ModeExtra => Ok (false, false, true, g)
  | ModeBoth => Ok (true, true, false, g)
  | ModeAll => Ok (true, true, true, g)
  end.

(** [random.choice(seq) if flag else None]. *)
Definition choice_if (flag : bool) (g : rng_state) (seq : list string)
  : result (option string * rng_state) :=
  if flag then
    let* '(x, g') := choice g seq in Ok (Some x, g')
  else Ok (None, g).

(** The parameters of each drift and the order of rename and wrap. *)
Definition select_parameters (a : args) (patch : jdict) (g : rng_state)
  : result mutation_log :=
  let* '(use_rename, use_wrap, use_extra, g1) :=
    choose_drifts (arg_mode a) g in
  let candidates :=
    filter (fun k => negb (dict_mem patch k)) RENAME_VARIANTS in
  let* '(rename_to, g2) :=
    if use_rename then
      match candidates with
      | [] => Raise (RuntimeError "No available rename targets")
      | _ => choice_if true g1 candidates
      end
    else Ok (None, g1) in
  let* '(wrapper_key, g3) := choice_if use_wrap g2 WRAPPER_VARIANTS in
  let* '(extra_key, g4) := choice_if use_extra g3 EXTRA_STRUCT_KEYS in
  let* op_order :=
    if use_rename && use_wrap then
      match arg_order a with
      | OrderRandom =>
          let* '(o, _) :=
            choice g4 ["rename_then_wrap"; "wrap_then_rename"] in
          Ok o
      | o => Ok (order_name o)
      end
    else Ok "n/a" in
  Ok {| ml_trial_id := arg_trial_id a;
        ml_seed := arg_seed a;
        ml_mode := mode_name (arg_mode a);
        ml_use_rename := use_rename;
        ml_rename_to := rename_to;
        ml_use_wrap := use_wrap;
        ml_wrapper_key := wrapper_key;
        ml_use_extra_struct := use_extra;
        ml_extra_struct_key := extra_key;
        ml_order := op_order |}.
End WithGenerator.

(** The drifts applied to the patch, in place. *)
Definition apply_drifts (a : args) (l : mutation_log) (patch : jdict)
  : jdict * result unit :=
  let noise := add_extra_struct a (ml_extra_struct_key l) in
  if ml_use_rename l && ml_use_wrap l then
    if ml_order l =? "rename_then_wrap" then
      match wrap_current (ml_wrapper_key l)
              (rename_container (ml_rename_to l) patch) with
      | (patch', Ok _) => (noise patch', Ok tt)
      | (patch', Raise e) => (patch', Raise e)
      end
    else if ml_order l =? "wrap_then_rename" then
      (noise (rename_container (ml_rename_to l)
                (wrap_container (ml_wrapper_key l) CANON_KEY patch)),
       Ok tt)
    else (patch,
          Raise (ValueError ("Unexpected op_order: " ++ ml_order l)%string))
  else if ml_use_rename l then
    (noise (rename_container (ml_rename_to l) patch), Ok tt)
  else if ml_use_wrap l then
    match wrap_current (ml_wrapper_key l) patch with
    | (patch', Ok _) => (noise patch', Ok tt)
    | (patch', Raise e) => (patch', Raise e)
    end
  else if ml_use_extra_struct l then (noise patch, Ok tt)
  else (patch, Raise (RuntimeError "No mutation applied."))
  .

(** [main], from the parsed arguments and the loaded patch to the patch
    and the log it writes.  [ambient] is the state the process-wide
    generator of the [random] module starts in; [random.seed] replaces it
    when a seed is given. *)
Definition main {G : PRNG} (ambient : rng_state) (a : args) (patch : jdict)
  : jdict * result mutation_log :=
  let g :=
    match arg_seed a with
    | Some s => rng_seed s
    | None => ambient
    end in
  if negb (dict_mem patch CANON_KEY) then
    (patch,
     Raise (KeyError
       "Expected top-level key 'functions' not found in patch_reference.json."))
  else
    match select_parameters a patch g with
    | Raise e => (patch, Raise e)
    | Ok l =>
        if negb (is_dict (dict_get patch CANON_KEY)) then
          (patch, Raise (TypeError "Expected patch['functions'] to be a dict."))
        else
          match apply_drifts a l patch with
          | (patch', Ok _) => (patch', Ok l)
          | (patch', Raise e) => (patch', Raise e)
          end
    end.

End MutatePatch.

(** ** 06_compare_original_vs_repaired.py: the structural verifier *)

Module Compare.

(** [sorted] on strings: the order of the code points, which the order
    of the bytes of their UTF-8 encoding follows. *)
Fixpoint insert_sorted (s : string) (l : list string) : list string :=
  match l with
  | [] => [s]
  | x :: l' => if String.leb s x then s :: x :: l' else x :: insert_sorted s l'
  end.

Fixpoint sorted (l : list string) : list string :=
  match l with
  | [] => []
  | s :: l' => insert_sorted s (sorted l')
  end.

Definition keys_eqb (a b : list string) : bool :=
  if list_eq_dec string_dec a b then true else false.

(** [k in keys] for a list of strings. *)
Definition str_in (k : string) (keys : list string) : bool :=
  existsb (String.eqb k) keys.

Section WithHash.
(** The hex digest of SHA-256, from [hashlib]. *)
Variable sha256_hexdigest : string -> string.

Definition newline : string := String (ascii_of_nat 10) EmptyString.

(** Every string is fed to the hash followed by a newline. *)
Definition sha256_of_strings (strings : list string) : string :=
  sha256_hexdigest
    (fold_left (fun acc s => (acc ++ s ++ newline)%string) strings
       EmptyString).

Definition summarize_functions (patch : jdict)
  : nat * list string * string :=
  match dict_get_default patch CANON_KEY (JDict []) with
  | JDict fns =>
      let keys := sorted (dict_keys fns) in
      (List.length keys, keys, sha256_of_strings keys)
  | _ => (0%nat, [], "NOT_A_DICT")
  end.

(** What [main] prints: the two summaries, the verdict of each check,
    and on a failure the bounded samples of the differing keys. *)
Record report : Type := {
  original_count : nat;
  repaired_count : nat;
  original_hash : string;
  repaired_hash : string;
  functions_keyset_pass : bool;
  functions_missing_in_repaired : list string;
  functions_extra_in_repaired : list string;
  top_level_pass : bool;
  top_level_missing_in_repaired : list string;
  top_level_extra_in_repaired : list string
}.

(** [sorted(list(set(a) - set(b)))[:25]]. *)
Definition diff_sample (a b : list string) : list string :=
  firstn 25
    (sorted (nodup string_dec (filter (fun k => negb (str_in k b)) a))).

(** [sorted([k for k in patch.keys() if k not in EXTRA_STRUCT_KEYS])]. *)
Definition top_level_keys (patch : jdict) : list string :=
  sorted (filter (fun k => negb (str_in k EXTRA_STRUCT_KEYS))
            (dict_keys patch)).

Definition main (orig repaired : jdict) : report :=
  let '(o_n, o_keys, o_hash) := summarize_functions orig in
  let '(r_n, r_keys, r_hash) := summarize_functions repaired in
  let o_top := top_level_keys orig in
  let r_top := top_level_keys repaired in
  {| original_count := o_n;
     repaired_count := r_n;
     original_hash := o_hash;
     repaired_hash := r_hash;
     functions_keyset_pass := keys_eqb o_keys r_keys;
     functions_missing_in_repaired :=
       if keys_eqb o_keys r_keys then [] else diff_sample o_keys r_keys;
     functions_extra_in_repaired :=
       if keys_eqb o_keys r_keys then [] else diff_sample r_keys o_keys;
     top_level_pass := keys_eqb o_top r_top;
     top_level_missing_in_repaired :=
       if keys_eqb o_top r_top then [] else diff_sample o_top r_top;
     top_level_extra_in_repaired :=
       if keys_eqb o_top r_top then [] else diff_sample r_top o_top |}.
End WithHash.

End Compare.

(** ** 05_break_demo.py: the access a consumer makes *)

Module BreakDemo.

(** [next(iter(original_patch[CANON_KEY].keys()))], or [None] when that
    raises: the key is missing, its value has no keys, or it is an empty
    dictionary. *)
Definition target_fn (original_patch : jdict) : option string :=
  match dict_find original_patch CANON_KEY with
  | Some (JDict fns) =>
      match dict_keys fns with
      | k :: _ => Some k
      | [] => None
      end
  | _ => None
  end.

(** The outcome of one access: the line printed is "OK" or "FAIL" with
    the name of the class of the exception. *)
Inductive probe : Type :=
| ProbeOk
| ProbeFail (exception : string).

(** [_ = patch[CANON_KEY][target_fn]] under [try]: a missing key raises
    [KeyError], in the patch or in the container; a value that is not a
    dictionary cannot be indexed by a string or by [None]. *)
Definition canonical_access (patch : jdict) (target : option string)
  : probe :=
  match dict_find patch CANON_KEY with
  | None => ProbeFail "KeyError"
  | Some (JDict fns) =>
      match target with
      | Some t => if dict_mem fns t then ProbeOk else ProbeFail "KeyError"
      | None => ProbeFail "KeyError"
      end
  | Some _ => ProbeFail "TypeError"
  end.

(** The key reported as holding the functions container, when it is not
    the canonical one. *)
Definition renamed_key (mutated_patch : jdict) : option string :=
  match find_functions_key mutated_patch with
  | Some k =>
      if negb (k =? "") && negb (k =? CANON_KEY) then Some k else None
  | None => None
  end.

Record report : Type := {
  original_probe : probe;
  mutated_probe : probe;
  mutated_renamed_key : option string;
  repaired_probe : probe
}.

Definition main (original_patch mutated_patch repaired_patch : jdict)
  : report :=
  let target := target_fn original_patch in
  {| original_probe := canonical_access original_patch target;
     mutated_probe := canonical_access mutated_patch target;
     mutated_renamed_key := renamed_key mutated_patch;
     repaired_probe := canonical_access repaired_patch target |}.

End BreakDemo.

(** ** Vocabulary of the statements *)

(** The action is a dictionary whose "op" is the string [op]. *)
Definition has_op (a : json) (op : string) : bool :=
  match a with
  | JDict d => py_eq_str (dict_get d "op") op
  | _ => false
  end.

(** The actions of a plan, as the loop sees them before sorting. *)
Definition plan_actions (plan : json) : list json :=
  match plan with
  | JDict p =>
      match dict_get_default p "actions" (JList []) with
      | JList actions => actions
      | _ => []
      end
  | _ => []
  end.

(** The guard of the [unwrap] branch holds for action [a] on [patch]: the
    action is well formed and its wrapper key is, in the container under
    the canonical key, the key of a dictionary. *)
Definition unwrap_fires (patch : pydict) (a : json) : bool :=
  match a with
  | JDict d =>
      py_eq_str (dict_get d "op") "unwrap"
      && is_canon_path (dict_get_default d "path" (JList []))
      && truthy (dict_get d "wrapper_key")
      && match patch_get patch (KStr CANON_KEY), hash_key (dict_get d "wrapper_key") with
         | JDict container, Ok kw =>
             match container_find container kw with
             | Some (JDict _) => true
             | _ => false
             end
         | _, _ => false
         end
  | _ => false
  end.

(** How many actions of the list carry the operation [op]. *)
Definition count_op (op : string) (actions : list json) : nat :=
  List.length (filter (fun a => has_op a op) actions).

(** The order the sort establishes on keyed actions. *)
Definition key_le (x y : nat * json) : Prop := (fst x <= fst y)%nat.

(** ** Example documents *)

(** A renamed and wrapped container, and the plan that repairs it, with
    its actions in the wrong order. *)
Definition renamed_wrapped_patch : pydict :=
  [(KStr "function", JDict [("wrapped", JDict [("f1", JDict [])])])].

Definition unwrap_then_rename_plan : jdict :=
  [ ("actions",
     JList [ JDict [ ("op", JStr "unwrap");
                     ("path", JList [JStr "functions"]);
                     ("wrapper_key", JStr "wrapped") ];
             JDict [ ("op", JStr "rename_key");
                     ("path", JList []);
                     ("from", JStr "function");
                     ("to", JStr "functions") ] ]) ].

(** A container wrapped twice under the same key, and the plan that
    unwraps that key. *)
Definition nested_wrapper_patch : pydict :=
  [(KStr "functions",
    JDict [("wrapped", JDict [("wrapped", JDict [("f1", JDict [])])])])].

Definition unwrap_wrapped_plan : json :=
  JDict [ ("actions",
           JList [ JDict [ ("op", JStr "unwrap");
                           ("path", JList [JStr "functions"]);
                           ("wrapper_key", JStr "wrapped") ] ]) ].

(** A plan with two rename_key actions, the second feeding the first. *)
Definition rename_chain_plan : json :=
  JDict [ ("actions",
           JList [ JDict [ ("op", JStr "rename_key"); ("path", JList []);
                           ("from", JStr "funcs"); ("to", JStr "functions") ];
                   JDict [ ("op", JStr "rename_key"); ("path", JList []);
                           ("from", JStr "function"); ("to", JStr "funcs") ] ]) ].

(** Arguments of a trial of the pipeline, which passes the trial number
    as seed and as trial id. *)
Definition trial_args (m : MutatePatch.mode) (t : Z) : MutatePatch.args :=
  {| MutatePatch.arg_mode := m;
     MutatePatch.arg_seed := Some t;
     MutatePatch.arg_trial_id := Some t;
     MutatePatch.arg_order := MutatePatch.OrderRandom |}.

(** A canonical patch with two functions. *)
Definition canonical_patch : jdict :=
  [ ("functions",
     JDict [ ("f1", JDict [("co_argcount", JNum 1)]);
             ("f2", JDict [("co_argcount", JNum 2)]) ]);
    ("version", JStr "3.11") ].

(** Erasing what the function records hold: the values inside every
    mapping two levels below a top-level key become [None]. *)
Definition map_values {V W : Type} (g : V -> W) (d : list (string * V))
  : list (string * W) :=
  map (fun kv => (fst kv, g (snd kv))) d.

Definition scrub_record (v : json) : json :=
  match v with
  | JDict d => JDict (map_values (fun _ => JNull) d)
  | _ => v
  end.

Definition scrub_container (v : json) : json :=
  match v with
  | JDict d => JDict (map_values scrub_record d)
  | _ => v
  end.

Definition scrub_patch (p : jdict) : jdict := map_values scrub_container p.

(** Text from a literal, with every apostrophe read as a double quote. *)
Definition text_of_string (s : string) : text :=
  map (fun a => let c := N_of_ascii a in if (c =? 39)%N then 34%N else c)
    (list_ascii_of_string s).

(** The response a model gives for a renamed and wrapped container, with
    the actions in the wrong order, and a response whose unwrap action
    names its wrapper key in a list. *)
Definition plan_text : text :=
  text_of_string
    "{'actions': [{'op': 'unwrap', 'path': ['functions'], 'wrapper_key': 'wrapped'}, {'op': 'rename_key', 'path': [], 'from': 'function', 'to': 'functions'}]}".

Definition listed_wrapper_text : text :=
  text_of_string
    "{'actions': [{'op': 'unwrap', 'path': ['functions'], 'wrapper_key': ['wrapped']}]}".

Definition listed_wrapper_plan : json :=
  JDict [ ("actions",
           JList [ JDict [ ("op", JStr "unwrap");
                           ("path", JList [JStr "functions"]);
                           ("wrapper_key", JList [JStr "wrapped"]) ] ]) ].

(** A stand-in for [json.loads] in closed examples: on the texts listed
    it answers as [json.loads] does, and every other text it rejects as
    [json.loads] rejects a text that starts no JSON value. *)
Definition sample_json_loads (t : text) : loaded :=
  if text_eqb t (text_of_string "{'actions': []}")
  then Loaded (JDict [("actions", JList [])])
  else if text_eqb t (text_of_string "{}") then Loaded (JDict [])
  else if text_eqb t (text_of_string "5") then Loaded (JNum 5)
  else if text_eqb t plan_text then Loaded (JDict unwrap_then_rename_plan)
  else if text_eqb t listed_wrapper_text then Loaded listed_wrapper_plan
  else if text_eqb t (text_of_string "{draft}: {'actions': []}")
  then LoadError
         "Expecting property name enclosed in double quotes: line 1 column 2 (char 1)"
  else if text_eqb t (text_of_string "{} and {}")
  then LoadError "Extra data: line 1 column 4 (char 3)"
  else LoadError "Expecting value: line 1 column 1 (char 0)".

(** A generator for closed examples: its state is a counter, which is
    also what it draws from. *)
Lemma counter_below_lt (g n : nat) : (0 < n)%nat -> (g mod n < n)%nat.
Proof. intros H. apply Nat.mod_upper_bound. lia. Qed.

#[export] Instance counter_rng : PRNG :=
  {| rng_state := nat;
     rng_seed := fun z => Z.to_nat (Z.abs z);
     rng_below := fun g n => ((g mod n)%nat, S g);
     rng_below_lt := counter_below_lt |}.

(** A patch whose canonical key holds a number while every rename variant
    is already a top-level key. *)
Definition crowded_patch : jdict :=
  ("functions", JNum 5) :: map (fun k => (k, JDict [])) RENAME_VARIANTS.

(** Arguments without a seed. *)
Definition unseeded_args (m : MutatePatch.mode) : MutatePatch.args :=
  {| MutatePatch.arg_mode := m;
     MutatePatch.arg_seed := None;
     MutatePatch.arg_trial_id := None;
     MutatePatch.arg_order := MutatePatch.OrderRandom |}.

(** A stand-in for the digest in closed examples: no verdict depends on
    it. *)
Definition stub_digest (s : string) : string := s.

(** ** Further vocabulary *)

(** The index an entry of the action log carries. *)
Definition log_index (e : log_entry) : nat :=
  match e with
  | LogNotADict i | LogRenameMissing i | LogRenameApplied i _ _
  | LogRenameNoChange i _ _ | LogUnwrapInvalid i | LogUnwrapApplied i _
  | LogUnwrapNoChange i _ | LogUnknownOp i _ => i
  end.

(** The entry reports a change of the patch. *)
Definition log_applied (e : log_entry) : bool :=
  match e with
  | LogRenameApplied _ _ _ | LogUnwrapApplied _ _ => true
  | _ => false
  end.

(** A value no dictionary operation can hash. *)
Definition unhashable (v : json) : bool := is_list v || is_dict v.

(** The rename_key action [a] names the key [k] as its source or as its
    target. *)
Definition rename_names (a : json) (k : pykey) : bool :=
  match a with
  | JDict d =>
      py_eq_str (dict_get d "op") "rename_key"
      && (match hash_key (dict_get d "from") with
          | Ok ks => pykey_eqb ks k
          | Raise _ => false
          end
          || match hash_key (dict_get d "to") with
             | Ok kd => pykey_eqb kd k
             | Raise _ => false
             end)
  | _ => false
  end.

(** The action carries a value no dictionary operation can hash where the
    engine hashes one: under "op", or under "from" or "to" of a rename_key
    action, or under "wrapper_key" of an unwrap action. *)
Definition action_unhashable (a : json) : bool :=
  match a with
  | JDict d =>
      unhashable (dict_get d "op")
      || py_eq_str (dict_get d "op") "rename_key"
         && (unhashable (dict_get d "from") || unhashable (dict_get d "to"))
      || py_eq_str (dict_get d "op") "unwrap"
         && unhashable (dict_get d "wrapper_key")
  | _ => false
  end.

(** What the mutation log says fits together: some drift is applied, a
    parameter is recorded exactly for the drifts that are, each comes from
    its vocabulary, the rename target is not a key of the patch, and an
    order is recorded exactly when rename and wrap are both applied. *)
Definition log_consistent (patch : jdict) (l : MutatePatch.mutation_log)
  : Prop :=
  MutatePatch.ml_use_rename l || MutatePatch.ml_use_wrap l
    || MutatePatch.ml_use_extra_struct l = true
  /\ (if MutatePatch.ml_use_rename l
      then exists r, MutatePatch.ml_rename_to l = Some r
                     /\ In r RENAME_VARIANTS /\ dict_mem patch r = false
      else MutatePatch.ml_rename_to l = None)
  /\ (if MutatePatch.ml_use_wrap l
      then exists w, MutatePatch.ml_wrapper_key l = Some w
                     /\ In w WRAPPER_VARIANTS
      else MutatePatch.ml_wrapper_key l = None)
  /\ (if MutatePatch.ml_use_extra_struct l
      then exists e, MutatePatch.ml_extra_struct_key l = Some e
                     /\ In e EXTRA_STRUCT_KEYS
      else MutatePatch.ml_extra_struct_key l = None)
  /\ (if MutatePatch.ml_use_rename l && MutatePatch.ml_use_wrap l
      then MutatePatch.ml_order l = "rename_then_wrap"
           \/ MutatePatch.ml_order l = "wrap_then_rename"
      else MutatePatch.ml_order l = "n/a").

(** The drifts each mode other than [random] stands for. *)
Definition mode_drifts (m : MutatePatch.mode) : option (bool * bool * bool) :=
  match m with
  | MutatePatch.ModeWrapper => Some (false, true, false)
  | MutatePatch.ModeRename => Some (true, false, false)
  | MutatePatch.ModeExtra => Some (false, false, true)
  | MutatePatch.ModeBoth => Some (true, true, false)
  | MutatePatch.ModeAll => Some (true, true, true)
  | MutatePatch.ModeRandom => None
  end.

(** The functions container after the wrap, if one is applied. *)
Definition drifted_value (l : MutatePatch.mutation_log) (v : json) : json :=
  match MutatePatch.ml_wrapper_key l with
  | Some w => JDict [(w, v)]
  | None => v
  end.

(** The patch after rename and wrap, before the noise: the container,
    wrapped or not, moves to the end under the rename target, or stays in
    place under the canonical key. *)
Definition drift_core (l : MutatePatch.mutation_log) (patch : jdict) : jdict :=
  let v := drifted_value l (dict_get patch CANON_KEY) in
  match MutatePatch.ml_rename_to l with
  | Some r => dict_pop patch CANON_KEY ++ [(r, v)]
  | None => dict_set patch CANON_KEY v
  end.

(** The log with another order of rename and wrap. *)
Definition with_order (l : MutatePatch.mutation_log) (o : string)
  : MutatePatch.mutation_log :=
  {| MutatePatch.ml_trial_id := MutatePatch.ml_trial_id l;
     MutatePatch.ml_seed := MutatePatch.ml_seed l;
     MutatePatch.ml_mode := MutatePatch.ml_mode l;
     MutatePatch.ml_use_rename := MutatePatch.ml_use_rename l;
     MutatePatch.ml_rename_to := MutatePatch.ml_rename_to l;
     MutatePatch.ml_use_wrap := MutatePatch.ml_use_wrap l;
     MutatePatch.ml_wrapper_key := MutatePatch.ml_wrapper_key l;
     MutatePatch.ml_use_extra_struct := MutatePatch.ml_use_extra_struct l;
     MutatePatch.ml_extra_struct_key := MutatePatch.ml_extra_struct_key l;
     MutatePatch.ml_order := o |}.

(** No rename variant is a top-level key of the patch. *)
Definition no_variant_present (patch : jdict) : Prop :=
  forall k, In k RENAME_VARIANTS -> dict_mem patch k = false.

(** The two actions of the schema the prompt of [infer_plan_from_patch]
    lays down, and the plan that names the rename target and the wrapper
    key a mutation log records. *)
Definition rename_action (r : string) : json :=
  JDict [ ("op", JStr "rename_key"); ("path", JList []);
          ("from", JStr r); ("to", JStr CANON_KEY) ].

Definition unwrap_action (w : string) : json :=
  JDict [ ("op", JStr "unwrap"); ("path", JList [JStr CANON_KEY]);
          ("wrapper_key", JStr w) ].

Definition inverse_plan (l : MutatePatch.mutation_log) : json :=
  JDict [ ("actions",
           JList (match MutatePatch.ml_rename_to l with
                  | Some r => [rename_action r]
                  | None => []
                  end
                  ++ match MutatePatch.ml_wrapper_key l with
                     | Some w => [unwrap_action w]
                     | None => []
                     end)) ].

(** The repaired patch: the original followed by the noise entry, with the
    functions container moved to the end when it had been renamed. *)
Definition restored (l : MutatePatch.mutation_log) (patch noise : jdict)
  : jdict :=
  match MutatePatch.ml_rename_to l with
  | Some _ =>
      dict_pop patch CANON_KEY ++ noise
      ++ [(CANON_KEY, dict_get patch CANON_KEY)]
  | None => patch ++ noise
  end.

(** The order [sorted] puts the keys in. *)
Definition str_le (a b : string) : Prop := String.leb a b = true.

(** Every drift, with rename and wrap in the order rename_then_wrap. *)
Definition all_rename_then_wrap_args (t : Z) : MutatePatch.args :=
  {| MutatePatch.arg_mode := MutatePatch.ModeAll;
     MutatePatch.arg_seed := Some t;
     MutatePatch.arg_trial_id := Some t;
     MutatePatch.arg_order := MutatePatch.OrderRenameThenWrap |}.

(** A canonical patch that also has a key named like a rename variant. *)
Definition legacy_patch : jdict :=
  [ ("functions", JDict [("f1", JDict [("co_argcount", JNum 1)])]);
    ("function", JStr "legacy") ].

(** The line holds no line boundary. *)
Definition one_line (l : text) : Prop :=
  Forall (fun c => is_line_boundary c = false) l.



(** * Properties *)

(** ** Dictionaries *)

Section AssocFacts.
Context {K V : Type}.
Variable eqb : K -> K -> bool.
Hypothesis eqb_spec : forall a b, eqb a b = true <-> a = b.

Lemma eqb_refl' (a : K) : eqb a a = true.
Proof. now apply eqb_spec. Qed.

Lemma assoc_mem_keys (d : list (K * V)) (k : K) :
  assoc_mem eqb d k = true <-> In k (map fst d).
Proof.
  unfold assoc_mem.
  induction d as [|[k' v] d IH]; simpl.
  - split; [discriminate | tauto].
  - destruct (eqb k k') eqn:E.
    + apply eqb_spec in E. subst. split; auto.
    + split.
      * intros H. right. now apply IH.
      * intros [H | H].
        -- subst. rewrite eqb_refl' in E. discriminate.
        -- now apply IH.
Qed.

Lemma assoc_mem_same_keys {W : Type} (d : list (K * V)) (d' : list (K * W))
  (k : K) :
  map fst d = map fst d' -> assoc_mem eqb d k = assoc_mem eqb d' k.
Proof.
  unfold assoc_mem.
  revert d'.
  induction d as [|[k1 v1] d IH]; intros [|[k2 v2] d'] H; simpl in *;
    try discriminate; auto.
  injection H as -> H.
  destruct (eqb k k2); auto.
Qed.

Lemma assoc_find_mem (d : list (K * V)) (k : K) :
  assoc_find eqb d k = None <-> assoc_mem eqb d k = false.
Proof.
  unfold assoc_mem. destruct (assoc_find eqb d k); split; congruence.
Qed.

Lemma assoc_set_keys_present (d : list (K * V)) (k : K) (v : V) :
  assoc_mem eqb d k = true -> map fst (assoc_set eqb d k v) = map fst d.
Proof.
  unfold assoc_mem.
  induction d as [|[k' v'] d IH]; simpl; [discriminate|].
  destruct (eqb k k') eqn:E; simpl; auto.
  intros H. now rewrite IH.
Qed.

Lemma assoc_set_keys_absent (d : list (K * V)) (k : K) (v : V) :
  assoc_mem eqb d k = false -> assoc_set eqb d k v = d ++ [(k, v)].
Proof.
  unfold assoc_mem.
  induction d as [|[k' v'] d IH]; simpl; auto.
  destruct (eqb k k') eqn:E; [discriminate|].
  intros H. now rewrite IH.
Qed.

Lemma assoc_remove_keys (d : list (K * V)) (k : K) :
  ~ In k (map fst (assoc_remove eqb d k)).
Proof.
  unfold assoc_remove.
  induction d as [|[k' v'] d IH]; simpl; auto.
  destruct (eqb k k') eqn:E; simpl; auto.
  intros [H | H]; auto.
  subst. rewrite eqb_refl' in E. discriminate.
Qed.

Lemma assoc_find_app_other (d : list (K * V)) (k k' : K) (v : V) :
  eqb k k' = false ->
  assoc_find eqb (d ++ [(k', v)]) k = assoc_find eqb d k.
Proof.
  intros E.
  induction d as [|[k1 v1] d IH]; simpl.
  - now rewrite E.
  - destruct (eqb k k1); auto.
Qed.

Lemma assoc_find_set_other (d : list (K * V)) (k k' : K) (v : V) :
  eqb k k' = false ->
  assoc_find eqb (assoc_set eqb d k' v) k = assoc_find eqb d k.
Proof.
  intros E.
  induction d as [|[k1 v1] d IH]; simpl.
  - now rewrite E.
  - destruct (eqb k' k1) eqn:E1; simpl.
    + apply eqb_spec in E1. subst. now rewrite E.
    + destruct (eqb k k1); auto.
Qed.
Lemma assoc_find_set_same (d : list (K * V)) (k : K) (v : V) :
  assoc_find eqb (assoc_set eqb d k v) k = Some v.
Proof.
  induction d as [|[k1 v1] d IH]; simpl.
  - now rewrite eqb_refl'.
  - destruct (eqb k k1) eqn:E; simpl; now rewrite E.
Qed.

Lemma assoc_find_remove_same (d : list (K * V)) (k : K) :
  assoc_find eqb (assoc_remove eqb d k) k = None.
Proof.
  apply assoc_find_mem.
  destruct (assoc_mem eqb (assoc_remove eqb d k) k) eqn:E; auto.
  apply assoc_mem_keys in E. now apply assoc_remove_keys in E.
Qed.
End AssocFacts.

Lemma pykey_eqb_spec (a b : pykey) : pykey_eqb a b = true <-> a = b.
Proof.
  destruct a, b; simpl; split; try congruence; try discriminate; auto.
  - intros H. apply Z.eqb_eq in H. now subst.
  - intros H. injection H as ->. apply Z.eqb_refl.
  - intros H. apply String.eqb_eq in H. now subst.
  - intros H. injection H as ->. apply String.eqb_refl.
Qed.

Lemma string_eqb_spec (a b : string) : (a =? b) = true <-> a = b.
Proof. apply String.eqb_eq. Qed.

(** ** The repair engine: the shape of the plan *)

(** C10: a plan without the "actions" key is an empty plan, the patch
    comes back unchanged with an empty log and nothing is raised; an
    "actions" value that is present but is not a list raises [ValueError]
    with the patch untouched, before any action is looked at. *)
Theorem apply_plan_actions_key (patch : pydict) (p : jdict) :
  (dict_find p "actions" = None ->
   apply_plan_to_patch patch (JDict p) = (patch, Ok []))
  /\ (forall v, dict_find p "actions" = Some v -> is_list v = false ->
      apply_plan_to_patch patch (JDict p)
      = (patch, Raise (ValueError "Plan 'actions' must be a list."))).
Proof.
  split.
  - intros H. unfold apply_plan_to_patch, dict_get_default.
    now rewrite H.
  - intros v H Hv. unfold apply_plan_to_patch, dict_get_default.
    rewrite H. destruct v; simpl in Hv; try discriminate; reflexivity.
Qed.

Lemma apply_plan_actions_key_witness :
  apply_plan_to_patch [(KStr "function", JDict [])]
    (JDict [("note", JStr "no plan")])
  = ([(KStr "function", JDict [])], Ok [])
  /\ apply_plan_to_patch [(KStr "function", JDict [])]
       (JDict [("actions", JStr "rename_key")])
     = ([(KStr "function", JDict [])],
        Raise (ValueError "Plan 'actions' must be a list.")).
Proof.
  split.
  - apply (proj1 (apply_plan_actions_key _ _)). reflexivity.
  - apply (proj2 (apply_plan_actions_key _ _) (JStr "rename_key"));
      reflexivity.
Defined.

(** ** The repair engine: the order of execution *)

Lemma insert_by_key_perm (x : nat * json) (l : list (nat * json)) :
  Permutation (insert_by_key x l) (x :: l).
Proof.
  induction l as [|y l IH]; simpl; auto.
  destruct (fst x <=? fst y)%nat; auto.
  rewrite IH. apply perm_swap.
Qed.

Lemma stable_sort_perm (l : list (nat * json)) :
  Permutation (stable_sort l) l.
Proof.
  induction l as [|x l IH]; simpl; auto.
  rewrite insert_by_key_perm. now constructor.
Qed.

Lemma insert_by_key_sorted (x : nat * json) (l : list (nat * json)) :
  StronglySorted key_le l -> StronglySorted key_le (insert_by_key x l).
Proof.
  induction 1 as [|y l Hs IH Hall]; simpl.
  - repeat constructor.
  - destruct (fst x <=? fst y)%nat eqn:E.
    + apply Nat.leb_le in E.
      constructor; [now constructor|].
      constructor; auto.
      eapply Forall_impl; [|exact Hall].
      unfold key_le. intros; lia.
    + apply Nat.leb_gt in E.
      constructor; auto.
      eapply Permutation_Forall.
      * symmetry. apply insert_by_key_perm.
      * constructor; auto. unfold key_le. lia.
Qed.

Lemma stable_sort_sorted (l : list (nat * json)) :
  StronglySorted key_le (stable_sort l).
Proof.
  induction l; simpl; [constructor | now apply insert_by_key_sorted].
Qed.

Lemma strongly_sorted_nth {A : Type} (R : A -> A -> Prop) (l : list A) :
  StronglySorted R l ->
  forall i j x y, (i < j)%nat ->
    nth_error l i = Some x -> nth_error l j = Some y -> R x y.
Proof.
  induction 1 as [|a l Hs IH Hall]; intros i j x y Hij Hi Hj.
  - destruct i; discriminate.
  - destruct j as [|j]; [lia|].
    destruct i as [|i]; simpl in *.
    + injection Hi as <-.
      rewrite Forall_forall in Hall. apply Hall.
      eapply nth_error_In; eauto.
    + apply (IH i j x y); [lia | assumption | assumption].
Qed.

Lemma keyed_spec (actions : list json) (ks : list (nat * json)) :
  keyed actions = Ok ks ->
  map snd ks = actions
  /\ Forall (fun ka => sort_key (snd ka) = Ok (fst ka)) ks.
Proof.
  revert ks.
  induction actions as [|a actions IH]; simpl; intros ks H.
  - injection H as <-. auto.
  - destruct (sort_key a) as [k|] eqn:Ek; simpl in H; [|discriminate].
    destruct (keyed actions) as [ks'|] eqn:Eks; simpl in H; [|discriminate].
    injection H as <-.
    destruct (IH ks' eq_refl) as [Hm Hf].
    simpl. split; [now rewrite Hm | now constructor].
Qed.

Lemma sort_key_rename (a : json) :
  has_op a "rename_key" = true -> sort_key a = Ok 0%nat.
Proof.
  destruct a; simpl; try discriminate.
  destruct (dict_get d "op"); simpl; try discriminate.
  intros H. apply String.eqb_eq in H. now subst.
Qed.

Lemma sort_key_unwrap (a : json) :
  has_op a "unwrap" = true -> sort_key a = Ok 1%nat.
Proof.
  destruct a; simpl; try discriminate.
  destruct (dict_get d "op"); simpl; try discriminate.
  intros H. apply String.eqb_eq in H. now subst.
Qed.

Lemma sorted_actions_perm (actions sorted : list json) :
  sorted_actions actions = Ok sorted -> Permutation actions sorted.
Proof.
  unfold sorted_actions.
  destruct (keyed actions) as [ks|] eqn:Ek; simpl; [|discriminate].
  intros H. injection H as <-.
  destruct (keyed_spec _ _ Ek) as [<- _].
  apply Permutation_map. symmetry. apply stable_sort_perm.
Qed.

Lemma hash_key_raise (v : json) (e : exn) :
  hash_key v = Raise e -> unhashable v = true /\ exists msg, e = TypeError msg.
Proof.
  destruct v; simpl; try discriminate; intros H; injection H as <-;
    split; eauto.
Qed.

Lemma hash_key_unhashable (v : json) :
  unhashable v = true -> exists msg, hash_key v = Raise (TypeError msg).
Proof.
  destruct v; simpl; try discriminate; eauto.
Qed.

Lemma sort_key_raise (a : json) (e : exn) :
  sort_key a = Raise e -> exists msg, e = TypeError msg.
Proof.
  destruct a; simpl; try discriminate.
  unfold priority_get.
  destruct (hash_key (dict_get d "op")) eqn:E; simpl; try discriminate.
  intros H. injection H as <-. now apply hash_key_raise in E.
Qed.

Lemma keyed_raise (actions : list json) (e : exn) :
  keyed actions = Raise e -> exists msg, e = TypeError msg.
Proof.
  induction actions as [|a actions IH]; simpl; [discriminate|].
  destruct (sort_key a) eqn:Ea; simpl.
  - destruct (keyed actions); simpl; [discriminate|].
    intros H. injection H as <-. now apply IH.
  - intros H. injection H as <-. now apply sort_key_raise in Ea.
Qed.

Lemma keyed_unhashable (actions : list json) (d : jdict) :
  In (JDict d) actions -> unhashable (dict_get d "op") = true ->
  exists e, keyed actions = Raise e.
Proof.
  intros Hin Hu.
  induction actions as [|a actions IH]; [destruct Hin|].
  simpl. destruct Hin as [-> | Hin].
  - simpl. unfold priority_get.
    destruct (hash_key_unhashable _ Hu) as [msg ->]. simpl. eauto.
  - destruct (sort_key a); simpl; eauto.
    destruct (IH Hin) as [e ->]. simpl. eauto.
Qed.

(** Sorting raises nothing when the "op" of every action can be hashed. *)
Lemma keyed_hashable (actions : list json) :
  (forall d, In (JDict d) actions -> unhashable (dict_get d "op") = false) ->
  exists ks, keyed actions = Ok ks.
Proof.
  induction actions as [|a actions IH]; intros H; simpl; [eauto|].
  assert (Ha : exists k, sort_key a = Ok k).
  { destruct a as [| ? | ? | ? | ? | d]; try (eexists; reflexivity).
    simpl. unfold priority_get.
    specialize (H d (or_introl eq_refl)).
    destruct (dict_get d "op"); try discriminate; simpl; eauto. }
  destruct Ha as [k ->]. simpl.
  destruct IH as [ks ->]; [intros d Hd; apply H; now right|].
  simpl. eauto.
Qed.

(** The loop, step by step: the states the patch goes through and the
    entries logged, up to the end of the list or to the first action that
    raises. *)
Lemma run_actions_trace (l : list json) :
  forall i patch logs,
  exists states entries final,
    List.length states = S (List.length entries)
    /\ nth_error states 0 = Some patch
    /\ nth_error states (List.length entries) = Some final
    /\ (forall k, (k < List.length entries)%nat ->
          exists a pk pk' e,
            nth_error l k = Some a
            /\ nth_error states k = Some pk
            /\ nth_error states (S k) = Some pk'
            /\ nth_error entries k = Some e
            /\ apply_action (i + k) pk a = (pk', Ok e))
    /\ match nth_error l (List.length entries) with
       | None => run_actions i patch logs l = (final, Ok (logs ++ entries))
       | Some a =>
           exists p' ex,
             apply_action (i + List.length entries) final a = (p', Raise ex)
             /\ run_actions i patch logs l = (p', Raise ex)
       end.
Proof.
  induction l as [|a l IH]; intros i patch logs.
  - exists [patch], [], patch. simpl. rewrite app_nil_r.
    repeat split; auto. intros k Hk. lia.
  - simpl run_actions.
    destruct (apply_action i patch a) as [p1 [e|ex]] eqn:Ea.
    + destruct (IH (S i) p1 (logs ++ [e]))
        as (states & entries & final & Hlen & H0 & Hfin & Hstep & Hend).
      exists (patch :: states), (e :: entries), final.
      split; [simpl; lia|]. split; [reflexivity|].
      split; [exact Hfin|]. split.
      * intros [|k] Hk.
        -- exists a, patch, p1, e. rewrite Nat.add_0_r. auto.
        -- destruct (Hstep k) as (b & pk & pk' & e' & H1 & H2 & H3 & H4 & H5);
             [simpl in Hk; lia|].
           exists b, pk, pk', e'.
           replace (i + S k)%nat with (S i + k)%nat by lia. auto.
      * change (nth_error (a :: l) (List.length (e :: entries)))
          with (nth_error l (List.length entries)).
        destruct (nth_error l (List.length entries)) as [b|].
        -- destruct Hend as (p' & ex & H1 & H2).
           exists p', ex.
           replace (i + List.length (e :: entries))%nat
             with (S i + List.length entries)%nat by (simpl; lia).
           auto.
        -- rewrite Hend. now rewrite <- app_assoc.
    + exists [patch], [], patch. simpl.
      repeat split; auto; [intros k Hk; lia|].
      exists p1, ex. rewrite Nat.add_0_r. auto.
Qed.

(** C4: whatever the order of the actions in the plan, the engine runs them
    in the order the sort gives, in which every rename_key action comes
    before every unwrap action: the action at position [k] of the sorted
    list is applied at step [k], to the patch steps [0] to [k - 1] have
    left, and the run ends with the list or with the first action that
    raises.  When the "op" of some action cannot be hashed, the sort
    raises and no action is executed at all. *)
Theorem rename_before_unwrap (patch : pydict) (p : jdict)
  (actions : list json) :
  dict_get_default p "actions" (JList []) = JList actions ->
  ((forall d, In (JDict d) actions -> unhashable (dict_get d "op") = false) ->
   exists sorted states entries final,
     Permutation actions sorted
     /\ (forall i j a b,
           nth_error sorted i = Some a -> nth_error sorted j = Some b ->
           has_op a "rename_key" = true -> has_op b "unwrap" = true ->
           (i < j)%nat)
     /\ List.length states = S (List.length entries)
     /\ nth_error states 0 = Some patch
     /\ nth_error states (List.length entries) = Some final
     /\ (forall k, (k < List.length entries)%nat ->
           exists a pk pk' e,
             nth_error sorted k = Some a
             /\ nth_error states k = Some pk
             /\ nth_error states (S k) = Some pk'
             /\ nth_error entries k = Some e
             /\ apply_action k pk a = (pk', Ok e))
     /\ match nth_error sorted (List.length entries) with
        | None => apply_plan_to_patch patch (JDict p) = (final, Ok entries)
        | Some a =>
            exists p' ex,
              apply_action (List.length entries) final a = (p', Raise ex)
              /\ apply_plan_to_patch patch (JDict p) = (p', Raise ex)
        end)
  /\ (forall d,
        In (JDict d) actions -> unhashable (dict_get d "op") = true ->
        exists msg,
          apply_plan_to_patch patch (JDict p) = (patch, Raise (TypeError msg))).
Proof.
  intros Hl. split.
  2:{ intros d Hin Hu. unfold apply_plan_to_patch. rewrite Hl.
      unfold sorted_actions.
      destruct (keyed_unhashable _ _ Hin Hu) as [e He].
      rewrite He. simpl.
      destruct (keyed_raise _ _ He) as [msg ->]. eauto. }
  intros Hop.
  destruct (keyed_hashable actions Hop) as [ks Ek].
  assert (Hs : sorted_actions actions = Ok (map snd (stable_sort ks))).
  { unfold sorted_actions. now rewrite Ek. }
  set (sorted := map snd (stable_sort ks)) in *.
  destruct (run_actions_trace sorted 0 patch [])
    as (states & entries & final & Hlen & H0 & Hfin & Hstep & Hend).
  exists sorted, states, entries, final.
  split; [now apply sorted_actions_perm|].
  split.
  { intros i j a b Hi Hj Ha Hb.
    destruct (keyed_spec _ _ Ek) as [_ Hf].
    assert (Hf' : Forall (fun ka => sort_key (snd ka) = Ok (fst ka))
                    (stable_sort ks)).
    { eapply Permutation_Forall; [|exact Hf].
      symmetry. apply stable_sort_perm. }
    rewrite Forall_forall in Hf'.
    unfold sorted in Hi, Hj.
    rewrite nth_error_map in Hi, Hj.
    destruct (nth_error (stable_sort ks) i) as [[ki a']|] eqn:Ei;
      simpl in Hi; [|discriminate].
    destruct (nth_error (stable_sort ks) j) as [[kj b']|] eqn:Ej;
      simpl in Hj; [|discriminate].
    injection Hi as ->. injection Hj as ->.
    pose proof (Hf' _ (nth_error_In _ _ Ei)) as Ka.
    pose proof (Hf' _ (nth_error_In _ _ Ej)) as Kb.
    simpl in Ka, Kb.
    rewrite (sort_key_rename _ Ha) in Ka.
    rewrite (sort_key_unwrap _ Hb) in Kb.
    injection Ka as <-. injection Kb as <-.
    destruct (Nat.lt_trichotomy i j) as [H | [H | H]]; auto.
    + subst. rewrite Ei in Ej. discriminate.
    + pose proof (strongly_sorted_nth key_le _ (stable_sort_sorted ks)
                    j i _ _ H Ej Ei) as Hle.
      unfold key_le in Hle. simpl in Hle. lia. }
  split; [exact Hlen|]. split; [exact H0|]. split; [exact Hfin|].
  split; [exact Hstep|].
  unfold apply_plan_to_patch. rewrite Hl, Hs.
  destruct (nth_error sorted (List.length entries)); exact Hend.
Qed.

Lemma rename_before_unwrap_witness :
  exists sorted states entries final,
    Permutation
      [ JDict [ ("op", JStr "unwrap"); ("path", JList [JStr "functions"]);
                ("wrapper_key", JStr "wrapped") ];
        JDict [ ("op", JStr "rename_key"); ("path", JList []);
                ("from", JStr "function"); ("to", JStr "functions") ] ]
      sorted
    /\ (forall i j a b,
          nth_error sorted i = Some a -> nth_error sorted j = Some b ->
          has_op a "rename_key" = true -> has_op b "unwrap" = true ->
          (i < j)%nat)
    /\ List.length states = S (List.length entries)
    /\ nth_error states 0 = Some renamed_wrapped_patch
    /\ nth_error states (List.length entries) = Some final
    /\ (forall k, (k < List.length entries)%nat ->
          exists a pk pk' e,
            nth_error sorted k = Some a
            /\ nth_error states k = Some pk
            /\ nth_error states (S k) = Some pk'
            /\ nth_error entries k = Some e
            /\ apply_action k pk a = (pk', Ok e))
    /\ match nth_error sorted (List.length entries) with
       | None =>
           apply_plan_to_patch renamed_wrapped_patch
             (JDict unwrap_then_rename_plan)
           = (final, Ok entries)
       | Some a =>
           exists p' ex,
             apply_action (List.length entries) final a = (p', Raise ex)
             /\ apply_plan_to_patch renamed_wrapped_patch
                  (JDict unwrap_then_rename_plan)
                = (p', Raise ex)
       end.
Proof.
  apply (proj1 (rename_before_unwrap renamed_wrapped_patch
                  unwrap_then_rename_plan _ eq_refl)).
  intros d [H | [H | []]]; injection H as <-; reflexivity.
Defined.

(** The plan of the example lists the unwrap first; the rename is run
    first all the same, so that the unwrap finds the container under the
    canonical key and the patch comes out repaired. *)
Lemma rename_before_unwrap_example :
  apply_plan_to_patch renamed_wrapped_patch (JDict unwrap_then_rename_plan)
  = ([(KStr "functions", JDict [("f1", JDict [])])],
     Ok [ LogRenameApplied 0 (JStr "function") (JStr "functions");
          LogUnwrapApplied 1 (JStr "wrapped") ]).
Proof. reflexivity. Qed.

(** ** The repair engine: rename_key *)

Lemma patch_find_mem (p : pydict) (k : pykey) (v : json) :
  patch_find p k = Some v -> patch_mem p k = true.
Proof. unfold patch_mem, assoc_mem, patch_find. now intros ->. Qed.

(** C5, as the code has it: a rename_key action never reads its "path".
    With non-empty strings as "from" and "to" it acts on the top-level
    patch whatever the path says, raises nothing, and moves the value
    exactly when "from" is a top-level key and "to" is not; otherwise it
    logs that nothing changed. *)
Theorem rename_key_at_top_level (i : nat) (patch : pydict) (d : jdict)
  (src dst : string) :
  py_eq_str (dict_get d "op") "rename_key" = true ->
  dict_get d "from" = JStr src ->
  dict_get d "to" = JStr dst ->
  src <> "" -> dst <> "" ->
  apply_action i patch (JDict d)
  = match patch_find patch (KStr src) with
    | Some v =>
        if patch_mem patch (KStr dst)
        then (patch, Ok (LogRenameNoChange i (JStr src) (JStr dst)))
        else (patch_set (patch_pop patch (KStr src)) (KStr dst) v,
              Ok (LogRenameApplied i (JStr src) (JStr dst)))
    | None => (patch, Ok (LogRenameNoChange i (JStr src) (JStr dst)))
    end
  /\ forall v,
       patch_find patch (KStr src) = Some v ->
       patch_mem patch (KStr dst) = false ->
       patch_find (fst (apply_action i patch (JDict d))) (KStr dst) = Some v
       /\ patch_mem (fst (apply_action i patch (JDict d))) (KStr src) = false.
Proof.
  intros Hop Hfrom Hto Hs Hd.
  assert (E : apply_action i patch (JDict d)
              = rename_key i patch (JStr src) (JStr dst)).
  { unfold apply_action. rewrite Hop, Hfrom, Hto. simpl.
    apply String.eqb_neq in Hs, Hd. now rewrite Hs, Hd. }
  rewrite E. unfold rename_key. simpl.
  split.
  - reflexivity.
  - intros v Hv Hm. rewrite Hv, Hm. simpl.
    split.
    + apply (assoc_find_set_same pykey_eqb pykey_eqb_spec).
    + apply (assoc_find_mem pykey_eqb).
      assert (Hne : pykey_eqb (KStr src) (KStr dst) = false).
      { destruct (pykey_eqb (KStr src) (KStr dst)) eqn:Eq; auto.
        apply pykey_eqb_spec in Eq. injection Eq as ->.
        apply patch_find_mem in Hv. congruence. }
      unfold patch_set.
      rewrite (assoc_find_set_other pykey_eqb pykey_eqb_spec _ _ _ _ Hne).
      apply (assoc_find_remove_same pykey_eqb pykey_eqb_spec).
Qed.

Lemma rename_key_at_top_level_witness :
  fst (apply_action 0 [(KStr "function", JDict [("f1", JDict [])])]
         (JDict [ ("op", JStr "rename_key"); ("path", JList [JStr "missing"]);
                  ("from", JStr "function"); ("to", JStr "functions") ]))
  = [(KStr "functions", JDict [("f1", JDict [])])].
Proof.
  rewrite (proj1 (rename_key_at_top_level 0
                    [(KStr "function", JDict [("f1", JDict [])])]
                    [ ("op", JStr "rename_key");
                      ("path", JList [JStr "missing"]);
                      ("from", JStr "function"); ("to", JStr "functions") ]
                    "function" "functions"
                    eq_refl eq_refl eq_refl
                    ltac:(discriminate) ltac:(discriminate))).
  reflexivity.
Defined.

(** C5, as stated, fails: the path of this rename_key action names a
    segment the patch does not have, and the action is applied at the top
    level all the same, with nothing raised. *)
Lemma rename_key_missing_path_applied :
  apply_plan_to_patch [(KStr "function", JDict [("f1", JDict [])])]
    (JDict [ ("actions",
              JList [ JDict [ ("op", JStr "rename_key");
                              ("path", JList [JStr "missing"]);
                              ("from", JStr "function");
                              ("to", JStr "functions") ] ]) ])
  = ([(KStr "functions", JDict [("f1", JDict [])])],
     Ok [LogRenameApplied 0 (JStr "function") (JStr "functions")]).
Proof. reflexivity. Qed.

(** ** The repair engine: applying a plan twice *)

Lemma unwrap_keys (i : nat) (p : pydict) (w : json) :
  map fst (fst (unwrap i p w)) = map fst p.
Proof.
  unfold unwrap, patch_get.
  destruct (patch_find p (KStr CANON_KEY)) as [c|] eqn:Ef; auto.
  destruct c; auto.
  destruct (hash_key w); auto.
  destruct (container_find d a) as [[]|]; auto.
  simpl. apply (assoc_set_keys_present pykey_eqb).
  now apply patch_find_mem in Ef.
Qed.

Lemma apply_action_keys (i : nat) (p : pydict) (a : json) :
  has_op a "rename_key" = false ->
  map fst (fst (apply_action i p a)) = map fst p.
Proof.
  unfold has_op, apply_action.
  destruct a; auto.
  intros ->.
  destruct (py_eq_str (dict_get d "op") "unwrap"); auto.
  destruct (negb _ || negb _); auto.
  apply unwrap_keys.
Qed.

Lemma run_actions_keys (l : list json) :
  Forall (fun a => has_op a "rename_key" = false) l ->
  forall i p logs, map fst (fst (run_actions i p logs l)) = map fst p.
Proof.
  induction 1 as [|a l Ha Hl IH]; intros i p logs; simpl; auto.
  pose proof (apply_action_keys i p a Ha) as Hk.
  destruct (apply_action i p a) as [p' [e|e]]; simpl in *; auto.
  now rewrite IH.
Qed.

Lemma run_actions_noop (l : list json) (p : pydict) :
  (forall a, In a l -> forall i, fst (apply_action i p a) = p) ->
  forall i logs, fst (run_actions i p logs l) = p.
Proof.
  induction l as [|a l IH]; intros H i logs; simpl; auto.
  pose proof (H a (or_introl eq_refl) i) as Ha.
  destruct (apply_action i p a) as [p' [e|e]]; simpl in *; subst;
    [|reflexivity].
  apply IH. intros b Hb. apply H. now right.
Qed.

Lemma unwrap_noop (i : nat) (p : pydict) (a : json) :
  has_op a "rename_key" = false ->
  unwrap_fires p a = false ->
  fst (apply_action i p a) = p.
Proof.
  unfold has_op, unwrap_fires, apply_action.
  destruct a; auto.
  intros ->.
  destruct (py_eq_str (dict_get d "op") "unwrap"); auto.
  destruct (is_canon_path _); simpl; auto.
  destruct (truthy _); simpl; auto.
  unfold unwrap.
  destruct (patch_get p (KStr CANON_KEY)); auto.
  destruct (hash_key _); auto.
  destruct (container_find _ _) as [[]|]; auto.
  discriminate.
Qed.

Lemma rename_settles (i j : nat) (p q : pydict) (r : json) :
  has_op r "rename_key" = true ->
  map fst q = map fst (fst (apply_action i p r)) ->
  fst (apply_action j q r) = q.
Proof.
  unfold has_op, apply_action.
  destruct r; try discriminate.
  intros ->.
  destruct (negb _ || negb _); auto.
  unfold rename_key.
  destruct (hash_key (dict_get d "from")) as [ks|]; auto.
  destruct (patch_find p ks) as [v|] eqn:Ep.
  - destruct (hash_key (dict_get d "to")) as [kd|].
    + destruct (patch_mem p kd) eqn:Em; simpl; intros Hk.
      * destruct (patch_find q ks); auto.
        unfold patch_mem.
        rewrite (assoc_mem_same_keys pykey_eqb q p kd Hk).
        fold (patch_mem p kd). now rewrite Em.
      * assert (Hq : patch_find q ks = None).
        { apply (assoc_find_mem pykey_eqb).
          rewrite (assoc_mem_same_keys pykey_eqb q _ ks Hk).
          apply (assoc_find_mem pykey_eqb).
          assert (Hne : pykey_eqb ks kd = false).
          { destruct (pykey_eqb ks kd) eqn:Eq; auto.
            apply pykey_eqb_spec in Eq. subst.
            apply patch_find_mem in Ep. congruence. }
          unfold patch_set.
          rewrite (assoc_find_set_other pykey_eqb pykey_eqb_spec _ _ _ _ Hne).
          apply (assoc_find_remove_same pykey_eqb pykey_eqb_spec). }
        now rewrite Hq.
    + simpl. intros _. destruct (patch_find q ks); auto.
  - simpl. intros Hk.
    assert (Hq : patch_find q ks = None).
    { apply (assoc_find_mem pykey_eqb).
      rewrite (assoc_mem_same_keys pykey_eqb q p ks Hk).
      now apply (assoc_find_mem pykey_eqb). }
    now rewrite Hq.
Qed.

Lemma filter_perm {A : Type} (f : A -> bool) (l l' : list A) :
  Permutation l l' -> Permutation (filter f l) (filter f l').
Proof.
  induction 1; simpl; auto.
  - destruct (f x); auto.
  - destruct (f x), (f y); auto. apply perm_swap.
  - now transitivity (filter f l').
Qed.

Lemma count_op_perm (op : string) (l l' : list json) :
  Permutation l l' -> count_op op l = count_op op l'.
Proof.
  intros H. unfold count_op.
  apply Permutation_length. now apply filter_perm.
Qed.

Lemma sort_key_zero (a : json) :
  sort_key a = Ok 0%nat -> has_op a "rename_key" = true.
Proof.
  destruct a; simpl; try discriminate.
  destruct (dict_get d "op"); simpl; try discriminate.
  unfold priority_get. simpl.
  destruct (s =? "rename_key"); auto.
  destruct (s =? "unwrap"); discriminate.
Qed.

(** With at most one rename_key action, only the first action of the
    sorted list can be one. *)
Lemma sorted_tail_rename_free (actions sorted : list json) :
  sorted_actions actions = Ok sorted ->
  (count_op "rename_key" actions <= 1)%nat ->
  Forall (fun a => has_op a "rename_key" = false) (tl sorted).
Proof.
  intros Hs Hc.
  rewrite (count_op_perm _ _ _ (sorted_actions_perm _ _ Hs)) in Hc.
  unfold sorted_actions in Hs.
  destruct (keyed actions) as [ks|] eqn:Ek; simpl in Hs; [|discriminate].
  injection Hs as <-.
  destruct (keyed_spec _ _ Ek) as [_ Hf].
  assert (Hf' : Forall (fun ka => sort_key (snd ka) = Ok (fst ka))
                  (stable_sort ks)).
  { eapply Permutation_Forall; [|exact Hf].
    symmetry. apply stable_sort_perm. }
  pose proof (stable_sort_sorted ks) as Hsorted.
  destruct (stable_sort ks) as [|[k0 a0] rest]; simpl in *; [constructor|].
  apply StronglySorted_inv in Hsorted. destruct Hsorted as [_ Hall].
  inversion Hf' as [|? ? H0 Hrest]; subst. simpl in H0.
  rewrite Forall_forall in *.
  intros b Hb. apply in_map_iff in Hb. destruct Hb as [[kb b'] [<- Hin]].
  simpl.
  destruct (has_op b' "rename_key") eqn:Eb; auto.
  exfalso.
  pose proof (Hrest _ Hin) as Kb. simpl in Kb.
  rewrite (sort_key_rename _ Eb) in Kb. injection Kb as <-.
  pose proof (Hall _ Hin) as Hle. unfold key_le in Hle. simpl in Hle.
  assert (k0 = 0)%nat by lia. subst.
  apply sort_key_zero in H0.
  unfold count_op in Hc. simpl in Hc. rewrite H0 in Hc. simpl in Hc.
  apply in_split in Hin. destruct Hin as [l1 [l2 ->]].
  rewrite map_app, filter_app, length_app in Hc. simpl in Hc.
  rewrite Eb in Hc. simpl in Hc. lia.
Qed.

(** C1, as the code has it: for a plan with at most one rename_key
    action, applying the plan to the patch it has already repaired leaves
    that patch as it is, provided no unwrap action of the plan still finds
    its wrapper key holding a mapping inside the functions container of the
    repaired patch.  Plans of any shape are covered, and so are runs that
    raise: the state of the patch is compared. *)
Theorem apply_plan_twice (D : pydict) (plan : json) :
  (count_op "rename_key" (plan_actions plan) <= 1)%nat ->
  (forall a, In a (plan_actions plan) ->
     unwrap_fires (fst (apply_plan_to_patch D plan)) a = false) ->
  fst (apply_plan_to_patch (fst (apply_plan_to_patch D plan)) plan)
  = fst (apply_plan_to_patch D plan).
Proof.
  unfold apply_plan_to_patch, plan_actions.
  destruct plan as [| | | | |p]; auto.
  destruct (dict_get_default p "actions" (JList [])) as [| | | |actions|];
    auto.
  intros Hc Hu.
  destruct (sorted_actions actions) as [sorted|] eqn:Hs; auto.
  pose proof (sorted_tail_rename_free _ _ Hs Hc) as Htl.
  pose proof (sorted_actions_perm _ _ Hs) as Hperm.
  set (P1 := fst (run_actions 0 D [] sorted)) in *.
  apply run_actions_noop.
  intros a Ha i.
  destruct (has_op a "rename_key") eqn:Er.
  - destruct sorted as [|a0 rest]; [destruct Ha|].
    simpl in Htl. rewrite Forall_forall in Htl.
    destruct Ha as [-> | Ha]; [|rewrite (Htl _ Ha) in Er; discriminate].
    apply (rename_settles 0 i D P1 a Er).
    unfold P1. simpl.
    destruct (apply_action 0 D a) as [p' [e|e]]; simpl; auto.
    apply run_actions_keys. now apply Forall_forall.
  - apply unwrap_noop; auto.
    apply Hu. eapply Permutation_in; [symmetry; exact Hperm | exact Ha].
Qed.

Lemma apply_plan_twice_witness :
  fst (apply_plan_to_patch
         (fst (apply_plan_to_patch renamed_wrapped_patch
                 (JDict unwrap_then_rename_plan)))
         (JDict unwrap_then_rename_plan))
  = [(KStr "functions", JDict [("f1", JDict [])])].
Proof.
  rewrite (apply_plan_twice renamed_wrapped_patch
             (JDict unwrap_then_rename_plan)).
  - reflexivity.
  - apply le_n.
  - intros a [<- | [<- | []]]; reflexivity.
Defined.

(** C1, as stated, fails: the wrapper key occurs again inside the
    unwrapped container, and the second application unwraps once more. *)
Lemma apply_plan_twice_nested_wrapper :
  fst (apply_plan_to_patch nested_wrapper_patch unwrap_wrapped_plan)
  = [(KStr "functions", JDict [("wrapped", JDict [("f1", JDict [])])])]
  /\ fst (apply_plan_to_patch
            (fst (apply_plan_to_patch nested_wrapper_patch unwrap_wrapped_plan))
            unwrap_wrapped_plan)
     = [(KStr "functions", JDict [("f1", JDict [])])]
  /\ fst (apply_plan_to_patch
            (fst (apply_plan_to_patch nested_wrapper_patch unwrap_wrapped_plan))
            unwrap_wrapped_plan)
     <> fst (apply_plan_to_patch nested_wrapper_patch unwrap_wrapped_plan).
Proof.
  repeat split; try reflexivity.
  vm_compute. discriminate.
Qed.

(** Two rename_key actions can feed each other: the first application
    moves "function" to "funcs", the second moves "funcs" on. *)
Lemma apply_plan_twice_rename_chain :
  fst (apply_plan_to_patch [(KStr "function", JDict [])] rename_chain_plan)
  = [(KStr "funcs", JDict [])]
  /\ fst (apply_plan_to_patch [(KStr "funcs", JDict [])] rename_chain_plan)
     = [(KStr "functions", JDict [])].
Proof. split; reflexivity. Qed.

(** ** The structural verifier *)

Lemma insert_sorted_perm (s : string) (l : list string) :
  Permutation (Compare.insert_sorted s l) (s :: l).
Proof.
  induction l as [|x l IH]; simpl; auto.
  destruct (String.leb s x); auto.
  rewrite IH. apply perm_swap.
Qed.

Lemma sorted_perm (l : list string) : Permutation (Compare.sorted l) l.
Proof.
  induction l as [|x l IH]; simpl; auto.
  rewrite insert_sorted_perm. now constructor.
Qed.

Lemma sorted_nil (l : list string) : Compare.sorted l = [] -> l = [].
Proof.
  intros H. pose proof (sorted_perm l) as Hp. rewrite H in Hp.
  now apply Permutation_nil.
Qed.

Lemma keys_eqb_eq (a b : list string) :
  Compare.keys_eqb a b = true <-> a = b.
Proof.
  unfold Compare.keys_eqb.
  destruct (list_eq_dec string_dec a b); split; congruence.
Qed.

Lemma main_functions_keyset_pass (h : string -> string)
  (orig repaired : jdict) :
  Compare.functions_keyset_pass (Compare.main h orig repaired)
  = Compare.keys_eqb
      (snd (fst (Compare.summarize_functions h orig)))
      (snd (fst (Compare.summarize_functions h repaired))).
Proof.
  unfold Compare.main.
  destruct (Compare.summarize_functions h orig) as [[? ?] ?].
  destruct (Compare.summarize_functions h repaired) as [[? ?] ?].
  reflexivity.
Qed.

Lemma main_top_level_pass (h : string -> string) (orig repaired : jdict) :
  Compare.top_level_pass (Compare.main h orig repaired)
  = Compare.keys_eqb (Compare.top_level_keys orig)
      (Compare.top_level_keys repaired).
Proof.
  unfold Compare.main.
  destruct (Compare.summarize_functions h orig) as [[? ?] ?].
  destruct (Compare.summarize_functions h repaired) as [[? ?] ?].
  reflexivity.
Qed.

(** A patch without the canonical key is summarised as an empty mapping,
    with the digest of no keys. *)
Lemma summarize_functions_missing_key (h : string -> string) (p : jdict) :
  dict_find p CANON_KEY = None ->
  Compare.summarize_functions h p
  = (0%nat, [], Compare.sha256_of_strings h []).
Proof.
  intros H. unfold Compare.summarize_functions, dict_get_default.
  now rewrite H.
Qed.

(** C2, as the code has it: a side whose canonical key holds something
    that is not a mapping is summarised as no keys with "NOT_A_DICT" in
    place of the digest; the check compares the sorted key lists, so it
    fails for that side against any side whose functions container is a
    non-empty mapping. *)
Theorem not_a_dict_side (h : string -> string) (side other : jdict)
  (v : json) (fns : jdict) :
  dict_find side CANON_KEY = Some v -> is_dict v = false ->
  dict_find other CANON_KEY = Some (JDict fns) -> fns <> [] ->
  Compare.summarize_functions h side = (0%nat, [], "NOT_A_DICT")
  /\ Compare.functions_keyset_pass (Compare.main h other side) = false
  /\ Compare.functions_keyset_pass (Compare.main h side other) = false.
Proof.
  intros Hs Hv Ho Hf.
  assert (E : Compare.summarize_functions h side
              = (0%nat, [], "NOT_A_DICT")).
  { unfold Compare.summarize_functions, dict_get_default. rewrite Hs.
    destruct v; try reflexivity. discriminate. }
  assert (K : snd (fst (Compare.summarize_functions h other)) <> []).
  { unfold Compare.summarize_functions, dict_get_default. rewrite Ho.
    simpl. intros H. apply sorted_nil in H.
    destruct fns; [congruence | discriminate]. }
  split; [exact E|].
  rewrite !main_functions_keyset_pass, E. simpl.
  split.
  - destruct (Compare.keys_eqb _ []) eqn:Eq; auto.
    apply keys_eqb_eq in Eq. congruence.
  - destruct (Compare.keys_eqb [] _) eqn:Eq; auto.
    apply keys_eqb_eq in Eq. congruence.
Qed.

Lemma not_a_dict_side_witness :
  Compare.functions_keyset_pass
    (Compare.main stub_digest
       [("functions", JDict [("f1", JDict [])])]
       [("functions", JStr "lost")]) = false.
Proof.
  apply (not_a_dict_side stub_digest
           [("functions", JStr "lost")]
           [("functions", JDict [("f1", JDict [])])]
           (JStr "lost") [("f1", JDict [])]);
    try reflexivity.
  discriminate.
Defined.

(** C2, as stated, fails: neither document holds a mapping under the
    canonical key, and the check passes, both when the key is missing and
    when its value is a number or a string. *)
Lemma keyset_check_passes_without_mapping :
  Compare.functions_keyset_pass (Compare.main stub_digest [] []) = true
  /\ Compare.summarize_functions stub_digest [("functions", JNum 5)]
     = (0%nat, [], "NOT_A_DICT")
  /\ Compare.functions_keyset_pass
       (Compare.main stub_digest
          [("functions", JNum 5)] [("functions", JStr "lost")]) = true.
Proof. repeat split; reflexivity. Qed.

(** ** Noise injection *)

Lemma add_extra_struct_find (a : MutatePatch.args) (extra_key : option string)
  (patch : jdict) (k : string) :
  (forall e, extra_key = Some e -> (k =? e) = false) ->
  dict_find (MutatePatch.add_extra_struct a extra_key patch) k
  = dict_find patch k.
Proof.
  intros H. unfold MutatePatch.add_extra_struct.
  destruct extra_key as [e|]; auto.
  destruct (e =? ""); auto.
  destruct (dict_mem patch e); auto.
  apply (assoc_find_set_other String.eqb string_eqb_spec).
  now apply H.
Qed.

Lemma str_in_In (k : string) (keys : list string) :
  Compare.str_in k keys = true <-> In k keys.
Proof.
  unfold Compare.str_in. rewrite existsb_exists.
  split.
  - intros [x [Hx E]]. apply String.eqb_eq in E. now subst.
  - intros H. exists k. split; auto. apply String.eqb_refl.
Qed.

(** No key of the noise vocabulary takes part in the top-level
    comparison, on either side. *)
Lemma top_level_keys_no_noise (p : jdict) (k : string) :
  In k EXTRA_STRUCT_KEYS -> ~ In k (Compare.top_level_keys p).
Proof.
  intros Hk Hin. unfold Compare.top_level_keys in Hin.
  apply (Permutation_in _ (sorted_perm _)) in Hin.
  apply filter_In in Hin. destruct Hin as [_ Hn].
  apply str_in_In in Hk. rewrite Hk in Hn. discriminate.
Qed.

(** C7: injecting a noise key leaves the value under the canonical key and
    under every rename variant as it was, so the functions container, its
    summary and the functions-keyset verdict are unchanged; a noise key
    already present is skipped; the keys of the noise vocabulary are
    filtered out of both sides of the top-level comparison, whose verdict
    the injection does not change either. *)
Theorem noise_leaves_functions (h : string -> string)
  (a : MutatePatch.args) (extra_key : string) (patch other : jdict) :
  In extra_key EXTRA_STRUCT_KEYS ->
  let patch' := MutatePatch.add_extra_struct a (Some extra_key) patch in
  (forall k, In k (CANON_KEY :: RENAME_VARIANTS) ->
     dict_find patch' k = dict_find patch k)
  /\ functions_container_of patch' = functions_container_of patch
  /\ Compare.summarize_functions h patch'
     = Compare.summarize_functions h patch
  /\ Compare.functions_keyset_pass (Compare.main h other patch')
     = Compare.functions_keyset_pass (Compare.main h other patch)
  /\ (dict_mem patch extra_key = true -> patch' = patch)
  /\ (forall p k, In k EXTRA_STRUCT_KEYS -> ~ In k (Compare.top_level_keys p))
  /\ Compare.top_level_keys patch' = Compare.top_level_keys patch
  /\ Compare.top_level_pass (Compare.main h other patch')
     = Compare.top_level_pass (Compare.main h other patch).
Proof.
  intros Hin patch'.
  assert (Hfind : forall k, In k (CANON_KEY :: RENAME_VARIANTS) ->
                    dict_find patch' k = dict_find patch k).
  { intros k Hk. apply add_extra_struct_find.
    intros e He. injection He as <-.
    unfold CANON_KEY, RENAME_VARIANTS, EXTRA_STRUCT_KEYS in *.
    simpl in Hk, Hin.
    repeat (destruct Hk as [<- | Hk]);
      try (repeat (destruct Hin as [<- | Hin]); try reflexivity;
           destruct Hin);
      destruct Hk. }
  assert (Hmem : forall k, In k (CANON_KEY :: RENAME_VARIANTS) ->
                   dict_mem patch' k = dict_mem patch k).
  { intros k Hk. unfold dict_mem, assoc_mem.
    fold (dict_find patch' k). fold (dict_find patch k).
    now rewrite Hfind. }
  assert (Hkey : find_functions_key patch' = find_functions_key patch).
  { unfold find_functions_key, RENAME_VARIANTS, first_present.
    rewrite !Hmem; auto; simpl; tauto. }
  assert (Hcont : functions_container_of patch'
                  = functions_container_of patch).
  { unfold functions_container_of. rewrite Hkey.
    destruct (find_functions_key patch) as [k|] eqn:Ek; auto.
    destruct (negb (k =? "")); auto.
    unfold dict_get, dict_get_default. rewrite Hfind; auto.
    unfold find_functions_key in Ek.
    destruct (dict_mem patch CANON_KEY).
    - injection Ek as <-. now left.
    - right. clear - Ek. unfold RENAME_VARIANTS in *. simpl in Ek.
      repeat match type of Ek with
             | (if ?c then _ else _) = _ =>
                 destruct c; [injection Ek as <-; simpl; tauto|]
             end.
      discriminate. }
  assert (Hsum : Compare.summarize_functions h patch'
                 = Compare.summarize_functions h patch).
  { unfold Compare.summarize_functions, dict_get_default.
    rewrite Hfind; auto. now left. }
  assert (Htop : Compare.top_level_keys patch'
                 = Compare.top_level_keys patch).
  { unfold Compare.top_level_keys, patch', MutatePatch.add_extra_struct.
    destruct (extra_key =? ""); auto.
    destruct (dict_mem patch extra_key) eqn:Em; auto.
    unfold dict_set.
    rewrite (assoc_set_keys_absent String.eqb _ _ _ Em).
    unfold dict_keys, assoc_keys.
    rewrite map_app, filter_app.
    cbn [map fst filter].
    apply str_in_In in Hin. rewrite Hin.
    cbn [negb]. now rewrite app_nil_r. }
  repeat split; auto.
  - now rewrite !main_functions_keyset_pass, Hsum.
  - intros Hm. unfold patch', MutatePatch.add_extra_struct.
    rewrite Hm. now destruct (extra_key =? "").
  - intros p k. apply top_level_keys_no_noise.
  - now rewrite !main_top_level_pass, Htop.
Qed.

Lemma noise_leaves_functions_witness :
  Compare.summarize_functions stub_digest
    (MutatePatch.add_extra_struct (trial_args MutatePatch.ModeExtra 0)
       (Some "temp_block") canonical_patch)
  = Compare.summarize_functions stub_digest canonical_patch.
Proof.
  assert (H : In "temp_block" EXTRA_STRUCT_KEYS) by (simpl; tauto).
  pose proof (noise_leaves_functions stub_digest
                (trial_args MutatePatch.ModeExtra 0) "temp_block"
                canonical_patch [] H) as W.
  destruct W as (_ & _ & W & _). exact W.
Defined.

(** ** The excerpt *)

Section MapValues.
Context {V W : Type}.
Variable g : V -> W.

Lemma map_values_keys (d : list (string * V)) :
  map fst (map_values g d) = map fst d.
Proof.
  unfold map_values. rewrite map_map. reflexivity.
Qed.

Lemma map_values_find (d : list (string * V)) (k : string) :
  assoc_find String.eqb (map_values g d) k
  = option_map g (assoc_find String.eqb d k).
Proof.
  induction d as [|[k1 v1] d IH]; simpl; auto.
  destruct (k =? k1); auto.
Qed.

Lemma map_values_mem (d : list (string * V)) (k : string) :
  assoc_mem String.eqb (map_values g d) k = assoc_mem String.eqb d k.
Proof.
  unfold assoc_mem. rewrite map_values_find.
  now destruct (assoc_find String.eqb d k).
Qed.
End MapValues.

Lemma scrub_patch_mem (p : jdict) (k : string) :
  dict_mem (scrub_patch p) k = dict_mem p k.
Proof. apply map_values_mem. Qed.

Lemma scrub_patch_functions_key (p : jdict) :
  find_functions_key (scrub_patch p) = find_functions_key p.
Proof.
  unfold find_functions_key, RENAME_VARIANTS, first_present.
  now rewrite !scrub_patch_mem.
Qed.

Lemma scrub_patch_get (p : jdict) (k : string) :
  dict_get (scrub_patch p) k = scrub_container (dict_get p k).
Proof.
  unfold dict_get, dict_get_default, dict_find, scrub_patch.
  rewrite map_values_find.
  now destruct (assoc_find String.eqb p k).
Qed.

Lemma scrub_patch_container (p : jdict) :
  functions_container_of (scrub_patch p)
  = scrub_container (functions_container_of p).
Proof.
  unfold functions_container_of. rewrite scrub_patch_functions_key.
  destruct (find_functions_key p) as [k|]; auto.
  destruct (negb (k =? "")); auto.
  apply scrub_patch_get.
Qed.

Lemma scrub_container_get (c : jdict) (k : string) :
  dict_get (map_values scrub_record c) k = scrub_record (dict_get c k).
Proof.
  unfold dict_get, dict_get_default, dict_find.
  rewrite map_values_find.
  now destruct (assoc_find String.eqb c k).
Qed.

Lemma scrub_record_is_dict (v : json) :
  is_dict (scrub_record v) = is_dict v.
Proof. now destruct v. Qed.

Lemma scrub_first_dict_valued (variants : list string) (c : jdict) :
  first_dict_valued variants (map_values scrub_record c)
  = first_dict_valued variants c.
Proof.
  induction variants as [|k rest IH]; simpl; auto.
  now rewrite scrub_container_get, scrub_record_is_dict, IH.
Qed.

(** The excerpt does not depend on what the function records hold. *)
Lemma extract_excerpt_scrub (patch : jdict) :
  extract_excerpt (scrub_patch patch) = extract_excerpt patch.
Proof.
  unfold extract_excerpt.
  rewrite scrub_patch_container, scrub_patch_functions_key.
  unfold dict_keys, assoc_keys.
  unfold scrub_patch at 1. rewrite map_values_keys.
  rewrite scrub_patch_mem.
  rewrite (filter_ext _ _ (scrub_patch_mem patch) RENAME_VARIANTS).
  rewrite (filter_ext _ _ (scrub_patch_mem patch) EXTRA_STRUCT_KEYS).
  destruct (functions_container_of patch) as [| | | | |c]; try reflexivity.
  simpl scrub_container. cbv iota beta.
  rewrite map_values_keys.
  unfold find_wrapper_key. rewrite scrub_first_dict_valued.
  f_equal.
  destruct (map fst c) as [|k0 [|]]; try reflexivity.
  rewrite scrub_container_get.
  destruct (dict_get c k0); try reflexivity.
  simpl. now rewrite map_values_keys.
Qed.

Lemma find_functions_key_nonempty (patch : jdict) (k : string) :
  find_functions_key patch = Some k ->
  (k =? "") = false /\ dict_mem patch k = true.
Proof.
  unfold find_functions_key, RENAME_VARIANTS, first_present.
  repeat match goal with
         | |- context [if dict_mem patch ?x then _ else _] =>
             destruct (dict_mem patch x) eqn:?;
             [intros H; injection H as <-; split; [reflexivity | assumption]|]
         end.
  discriminate.
Qed.

(** C9, as the code has it: the excerpt is a function of the patch.  Its
    sample of top-level keys is the first 40 keys of the patch.  When the
    key [find_functions_key] gives holds a mapping, its sample of the
    container is the first 25 keys of that mapping, and it proposes a
    wrapper exactly when the mapping has one key whose value is a mapping:
    it then names that key and lists the first 25 keys of the value.  In
    every other case it has neither sample nor proposal.  It is the same
    excerpt when every value the function records hold is erased. *)
Theorem extract_excerpt_bounded (patch : jdict) :
  top_level_patch_keys_sample (extract_excerpt patch)
  = firstn 40 (dict_keys patch)
  /\ (List.length (top_level_patch_keys_sample (extract_excerpt patch))
      <= 40)%nat
  /\ match find_functions_key patch with
     | Some k =>
         match dict_find patch k with
         | Some (JDict container) =>
             functions_container_keys_sample (extract_excerpt patch)
             = Some (firstn 25 (dict_keys container))
             /\ (List.length (firstn 25 (dict_keys container)) <= 25)%nat
             /\ single_key_wrapper_heuristic (extract_excerpt patch)
                = match container with
                  | [(k0, JDict inner)] =>
                      Some (k0, firstn 25 (dict_keys inner))
                  | _ => None
                  end
         | _ =>
             functions_container_keys_sample (extract_excerpt patch) = None
             /\ single_key_wrapper_heuristic (extract_excerpt patch) = None
         end
     | None =>
         functions_container_keys_sample (extract_excerpt patch) = None
         /\ single_key_wrapper_heuristic (extract_excerpt patch) = None
     end
  /\ (forall k0 inner_keys,
        single_key_wrapper_heuristic (extract_excerpt patch)
        = Some (k0, inner_keys) ->
        (List.length inner_keys <= 25)%nat)
  /\ extract_excerpt (scrub_patch patch) = extract_excerpt patch.
Proof.
  assert (Hh : forall c,
    functions_container_of patch = c ->
    single_key_wrapper_heuristic (extract_excerpt patch)
    = match c with
      | JDict [(k, JDict inner)] => Some (k, firstn 25 (dict_keys inner))
      | _ => None
      end).
  { intros c <-. unfold extract_excerpt. simpl.
    destruct (functions_container_of patch) as [| | | | |c]; auto.
    destruct c as [|[k v] tl]; simpl; auto.
    destruct tl; simpl.
    - unfold dict_get, dict_get_default, dict_find. simpl.
      rewrite String.eqb_refl. now destruct v.
    - now destruct v. }
  split; [reflexivity|].
  split; [apply firstn_le_length|].
  split; [|split].
  - destruct (find_functions_key patch) as [k|] eqn:Ek.
    + destruct (find_functions_key_nonempty _ _ Ek) as [Hk _].
      assert (Hc : functions_container_of patch = dict_get patch k).
      { unfold functions_container_of. now rewrite Ek, Hk. }
      rewrite (Hh _ Hc).
      unfold extract_excerpt.
      cbn [functions_container_keys_sample]. rewrite Hc.
      unfold dict_get, dict_get_default.
      destruct (dict_find patch k) as [[| | | | |container]|]; auto.
      split; [reflexivity|]. split; [apply firstn_le_length|].
      destruct container as [|[k0 [| | | | |inner]] [|]]; reflexivity.
    + assert (Hc : functions_container_of patch = JNull).
      { unfold functions_container_of. now rewrite Ek. }
      rewrite (Hh _ Hc).
      unfold extract_excerpt.
      cbn [functions_container_keys_sample]. rewrite Hc. auto.
  - intros k0 inner_keys.
    rewrite (Hh _ eq_refl). clear Hh.
    destruct (functions_container_of patch) as [| | | | |c];
      try discriminate.
    destruct c as [|[k v] tl]; try discriminate.
    destruct v as [| | | | |inner]; try discriminate.
    destruct tl; try discriminate.
    intros H.
    assert (E : inner_keys = firstn 25 (dict_keys inner)) by congruence.
    rewrite E. apply firstn_le_length.
  - apply extract_excerpt_scrub.
Qed.

(** C9, as stated, fails: with one function in the container, the
    proposal of a wrapper fires on the function itself, and the excerpt
    lists the field names of its record. *)
Lemma excerpt_lists_record_fields :
  extract_excerpt
    [ ("functions", JDict [("only", JDict [("a", JNum 1); ("b", JNum 2)])]) ]
  = {| top_level_patch_keys_sample := ["functions"];
       has_canonical_functions := true;
       possible_renamed_functions_keys_present := [];
       extra_struct_keys_present := [];
       functions_container_key := Some "functions";
       functions_container_type := "<class 'dict'>";
       functions_container_keys_sample := Some ["only"];
       wrapper_key_detected_by_list := Some None;
       single_key_wrapper_heuristic := Some ("only", ["a"; "b"]) |}.
Proof. reflexivity. Qed.

(** ** Reading the response of the oracle *)







(** ** The drift mutator *)

(** C3, as the code has it: when a seed is given, the mutated patch and
    the mutation log are a function of the patch and the arguments alone,
    whatever state the process-wide generator was in, because
    [random.seed] replaces that state before the first choice. *)
Theorem mutate_seeded_reproducible {G : PRNG} (ambient1 ambient2 : rng_state)
  (a : MutatePatch.args) (patch : jdict) (s : Z) :
  MutatePatch.arg_seed a = Some s ->
  MutatePatch.main ambient1 a patch = MutatePatch.main ambient2 a patch.
Proof.
  intros H. unfold MutatePatch.main. now rewrite H.
Qed.

Lemma mutate_seeded_reproducible_witness :
  @MutatePatch.main counter_rng 3%nat
    (trial_args MutatePatch.ModeAll 7) canonical_patch
  = @MutatePatch.main counter_rng 11%nat
      (trial_args MutatePatch.ModeAll 7) canonical_patch.
Proof.
  apply (@mutate_seeded_reproducible counter_rng 3%nat 11%nat
           (trial_args MutatePatch.ModeAll 7) canonical_patch 7).
  reflexivity.
Defined.

(** C3, as stated, fails: the choices are drawn from the generator of the
    process, and without a seed two runs on the same patch with the same
    arguments wrap under different keys. *)
Lemma mutate_unseeded_differs :
  fst (@MutatePatch.main counter_rng 0%nat
         (unseeded_args MutatePatch.ModeWrapper) canonical_patch)
  = [ ("functions",
       JDict [("wrapper",
               JDict [ ("f1", JDict [("co_argcount", JNum 1)]);
                       ("f2", JDict [("co_argcount", JNum 2)]) ])]);
      ("version", JStr "3.11") ]
  /\ fst (@MutatePatch.main counter_rng 4%nat
            (unseeded_args MutatePatch.ModeWrapper) canonical_patch)
     = [ ("functions",
          JDict [("wrapped",
                  JDict [ ("f1", JDict [("co_argcount", JNum 1)]);
                          ("f2", JDict [("co_argcount", JNum 2)]) ])]);
         ("version", JStr "3.11") ]
  /\ @MutatePatch.main counter_rng 0%nat
       (unseeded_args MutatePatch.ModeWrapper) canonical_patch
     <> @MutatePatch.main counter_rng 4%nat
          (unseeded_args MutatePatch.ModeWrapper) canonical_patch.
Proof.
  repeat split; try reflexivity.
  vm_compute. discriminate.
Qed.

Section MutatorFacts.
Context {G : PRNG}.

Lemma choice_ok {A : Type} (g : rng_state) (seq : list A) :
  seq <> [] -> exists x g', MutatePatch.choice g seq = Ok (x, g').
Proof.
  intros H. unfold MutatePatch.choice.
  destruct seq as [|y seq]; [congruence|].
  pose proof (rng_below_lt g (List.length (y :: seq))) as Hlt.
  destruct (rng_below g (List.length (y :: seq))) as [i g'].
  simpl fst in Hlt.
  destruct (nth_error (y :: seq) i) as [x|] eqn:E; eauto.
  apply nth_error_None in E. simpl in *. lia.
Qed.

Lemma choice_if_ok (flag : bool) (g : rng_state) (seq : list string) :
  seq <> [] -> exists x g', MutatePatch.choice_if flag g seq = Ok (x, g').
Proof.
  intros H. unfold MutatePatch.choice_if.
  destruct flag; eauto.
  destruct (choice_ok g seq H) as (x & g' & E). rewrite E. simpl. eauto.
Qed.

Lemma choose_drifts_ok (m : MutatePatch.mode) (g : rng_state) :
  exists r w e g',
    MutatePatch.choose_drifts m g = Ok (r, w, e, g')
    /\ (m = MutatePatch.ModeWrapper \/ m = MutatePatch.ModeExtra -> r = false).
Proof.
  destruct m;
    try (do 4 eexists; split; [reflexivity|];
         intros [H | H]; try discriminate; reflexivity).
  unfold MutatePatch.choose_drifts.
  destruct (choice_ok g [true; false]) as (r & g1 & E1); [discriminate|].
  destruct (choice_ok g1 [true; false]) as (w & g2 & E2); [discriminate|].
  destruct (choice_ok g2 [true; false]) as (e & g3 & E3); [discriminate|].
  rewrite E1. cbn [bind]. rewrite E2. cbn [bind]. rewrite E3. cbn [bind].
  destruct (negb (r || w || e)); do 4 eexists;
    (split; [reflexivity|]); intros [H | H]; discriminate.
Qed.

(** Selecting the parameters raises only for want of a rename target. *)
Lemma select_parameters_outcome (a : MutatePatch.args) (patch : jdict)
  (g : rng_state) :
  (exists l, MutatePatch.select_parameters a patch g = Ok l)
  \/ (MutatePatch.select_parameters a patch g
      = Raise (RuntimeError "No available rename targets")
      /\ filter (fun k => negb (dict_mem patch k)) RENAME_VARIANTS = []
      /\ MutatePatch.arg_mode a <> MutatePatch.ModeWrapper
      /\ MutatePatch.arg_mode a <> MutatePatch.ModeExtra).
Proof.
  unfold MutatePatch.select_parameters.
  destruct (choose_drifts_ok (MutatePatch.arg_mode a) g)
    as (r & w & e & g1 & E1 & Hr).
  rewrite E1. cbn [bind].
  destruct r.
  - destruct (filter (fun k => negb (dict_mem patch k)) RENAME_VARIANTS)
      as [|c cs] eqn:Ec.
    + right. cbn [bind]. repeat split; auto.
      * intros Hm. now specialize (Hr (or_introl Hm)).
      * intros Hm. now specialize (Hr (or_intror Hm)).
    + left.
      destruct (choice_if_ok true g1 (c :: cs)) as (x & g2 & E2);
        [discriminate|].
      rewrite E2. cbn [bind].
      destruct (choice_if_ok w g2 WRAPPER_VARIANTS) as (wk & g3 & E3);
        [discriminate|].
      rewrite E3. cbn [bind].
      destruct (choice_if_ok e g3 EXTRA_STRUCT_KEYS) as (ek & g4 & E4);
        [discriminate|].
      rewrite E4. cbn [bind].
      destruct w; cbn [andb].
      * destruct (MutatePatch.arg_order a); cbn [bind]; eauto.
        destruct (choice_ok g4 ["rename_then_wrap"; "wrap_then_rename"])
          as (o & g5 & E5); [discriminate|].
        rewrite E5. cbn [bind]. eauto.
      * cbn [bind]. eauto.
  - left. cbn [bind].
    destruct (choice_if_ok w g1 WRAPPER_VARIANTS) as (wk & g3 & E3);
      [discriminate|].
    rewrite E3. cbn [bind].
    destruct (choice_if_ok e g3 EXTRA_STRUCT_KEYS) as (ek & g4 & E4);
      [discriminate|].
    rewrite E4. cbn [bind andb]. eauto.
Qed.

Lemma no_candidates (patch : jdict) (variants : list string) :
  filter (fun k => negb (dict_mem patch k)) variants = []
  <-> forallb (dict_mem patch) variants = true.
Proof.
  induction variants as [|k rest IH]; simpl; [tauto|].
  destruct (dict_mem patch k); simpl; [exact IH|].
  split; discriminate.
Qed.

(** Selecting the parameters raises exactly when a rename is among the
    drifts and every rename variant is already a key of the patch. *)
Lemma select_parameters_raises (a : MutatePatch.args) (patch : jdict)
  (g g1 : rng_state) (r w e : bool) :
  MutatePatch.choose_drifts (MutatePatch.arg_mode a) g = Ok (r, w, e, g1) ->
  if r && forallb (dict_mem patch) RENAME_VARIANTS
  then MutatePatch.select_parameters a patch g
       = Raise (RuntimeError "No available rename targets")
  else exists l, MutatePatch.select_parameters a patch g = Ok l.
Proof.
  intros E1. unfold MutatePatch.select_parameters.
  rewrite E1. cbn [bind].
  pose proof (no_candidates patch RENAME_VARIANTS) as Hc.
  destruct r; cbn [andb].
  - destruct (forallb (dict_mem patch) RENAME_VARIANTS).
    + rewrite (proj2 Hc eq_refl). reflexivity.
    + destruct (filter (fun k => negb (dict_mem patch k)) RENAME_VARIANTS)
        as [|c cs] eqn:Ec.
      { now specialize (proj1 Hc eq_refl). }
      destruct (choice_if_ok true g1 (c :: cs)) as (x & g2 & E2);
        [discriminate|].
      rewrite E2. cbn [bind].
      destruct (choice_if_ok w g2 WRAPPER_VARIANTS) as (wk & g3 & E3);
        [discriminate|].
      rewrite E3. cbn [bind].
      destruct (choice_if_ok e g3 EXTRA_STRUCT_KEYS) as (ek & g4 & E4);
        [discriminate|].
      rewrite E4. cbn [bind].
      destruct w; cbn [andb].
      * destruct (MutatePatch.arg_order a); cbn [bind]; eauto.
        destruct (choice_ok g4 ["rename_then_wrap"; "wrap_then_rename"])
          as (o & g5 & E5); [discriminate|].
        rewrite E5. cbn [bind]. eauto.
      * cbn [bind]. eauto.
  - cbn [bind].
    destruct (choice_if_ok w g1 WRAPPER_VARIANTS) as (wk & g3 & E3);
      [discriminate|].
    rewrite E3. cbn [bind].
    destruct (choice_if_ok e g3 EXTRA_STRUCT_KEYS) as (ek & g4 & E4);
      [discriminate|].
    rewrite E4. cbn [bind andb]. eauto.
Qed.

Lemma choose_drifts_total (m : MutatePatch.mode) (g : rng_state) :
  exists r w e g1,
    MutatePatch.choose_drifts m g = Ok (r, w, e, g1)
    /\ match mode_drifts m with
       | Some flags => (r, w, e) = flags
       | None => True
       end.
Proof.
  destruct m; try (do 4 eexists; split; reflexivity).
  destruct (choose_drifts_ok MutatePatch.ModeRandom g)
    as (r & w & e & g1 & E & _).
  exists r, w, e, g1. split; [exact E | exact I].
Qed.

(** C6, as the code has it: a patch without the canonical key makes the
    mutator raise [KeyError] first of all.  A canonical key holding
    something that is not a mapping makes it raise before any drift is
    applied, with the patch as it was; which error depends on the drifts
    selected, which the modes other than random fix: when a rename is
    among them and every rename variant is already a top-level key, it is
    [RuntimeError] for want of a rename target, which is raised before the
    type is looked at; in every other case it is [TypeError]. *)
Theorem mutate_precondition (ambient : rng_state) (a : MutatePatch.args)
  (patch : jdict) :
  (dict_find patch CANON_KEY = None ->
   MutatePatch.main ambient a patch
   = (patch,
      Raise (KeyError
        "Expected top-level key 'functions' not found in patch_reference.json.")))
  /\ (forall v, dict_find patch CANON_KEY = Some v -> is_dict v = false ->
      exists use_rename use_wrap use_extra g1,
        MutatePatch.choose_drifts (MutatePatch.arg_mode a)
          (match MutatePatch.arg_seed a with
           | Some s => rng_seed s
           | None => ambient
           end)
        = Ok (use_rename, use_wrap, use_extra, g1)
        /\ match mode_drifts (MutatePatch.arg_mode a) with
           | Some flags => (use_rename, use_wrap, use_extra) = flags
           | None => True
           end
        /\ MutatePatch.main ambient a patch
           = (patch,
              Raise (if use_rename
                        && forallb (dict_mem patch) RENAME_VARIANTS
                     then RuntimeError "No available rename targets"
                     else TypeError
                            "Expected patch['functions'] to be a dict."))).
Proof.
  split.
  - intros H. unfold MutatePatch.main, dict_mem, assoc_mem.
    fold (dict_find patch CANON_KEY). now rewrite H.
  - intros v Hv Hd.
    set (g := match MutatePatch.arg_seed a with
              | Some s => rng_seed s
              | None => ambient
              end).
    destruct (choose_drifts_total (MutatePatch.arg_mode a) g)
      as (r & w & e & g1 & E & Hflags).
    exists r, w, e, g1. split; [exact E|]. split; [exact Hflags|].
    pose proof (select_parameters_raises a patch g g1 r w e E) as Hsel.
    assert (Hm : dict_mem patch CANON_KEY = true).
    { unfold dict_mem, assoc_mem. fold (dict_find patch CANON_KEY).
      now rewrite Hv. }
    unfold MutatePatch.main. rewrite Hm. cbn [negb]. fold g.
    destruct (r && forallb (dict_mem patch) RENAME_VARIANTS).
    + now rewrite Hsel.
    + destruct Hsel as [l ->].
      unfold dict_get, dict_get_default. rewrite Hv, Hd. reflexivity.
Qed.
End MutatorFacts.

Lemma mutate_precondition_witness :
  @MutatePatch.main counter_rng 0%nat
    (trial_args MutatePatch.ModeRandom 2) [("version", JStr "3.11")]
  = ([("version", JStr "3.11")],
     Raise (KeyError
       "Expected top-level key 'functions' not found in patch_reference.json."))
  /\ (exists use_rename use_wrap use_extra g1,
        @MutatePatch.choose_drifts counter_rng MutatePatch.ModeRename 0%nat
        = Ok (use_rename, use_wrap, use_extra, g1)
        /\ (use_rename, use_wrap, use_extra) = (true, false, false)
        /\ @MutatePatch.main counter_rng 0%nat
             (trial_args MutatePatch.ModeRename 0) crowded_patch
           = (crowded_patch,
              Raise (if use_rename
                        && forallb (dict_mem crowded_patch) RENAME_VARIANTS
                     then RuntimeError "No available rename targets"
                     else TypeError
                            "Expected patch['functions'] to be a dict.")))
  /\ (exists use_rename use_wrap use_extra g1,
        @MutatePatch.choose_drifts counter_rng MutatePatch.ModeBoth 2%nat
        = Ok (use_rename, use_wrap, use_extra, g1)
        /\ (use_rename, use_wrap, use_extra) = (true, true, false)
        /\ @MutatePatch.main counter_rng 0%nat
             (trial_args MutatePatch.ModeBoth 2) [("functions", JList [])]
           = ([("functions", JList [])],
              Raise (if use_rename
                        && forallb (dict_mem [("functions", JList [])])
                             RENAME_VARIANTS
                     then RuntimeError "No available rename targets"
                     else TypeError
                            "Expected patch['functions'] to be a dict."))).
Proof.
  split; [|split].
  - apply (proj1 (@mutate_precondition counter_rng 0%nat
                    (trial_args MutatePatch.ModeRandom 2)
                    [("version", JStr "3.11")])).
    reflexivity.
  - apply (proj2 (@mutate_precondition counter_rng 0%nat
                    (trial_args MutatePatch.ModeRename 0) crowded_patch)
             (JNum 5)); reflexivity.
  - apply (proj2 (@mutate_precondition counter_rng 0%nat
                    (trial_args MutatePatch.ModeBoth 2)
                    [("functions", JList [])])
             (JList [])); reflexivity.
Defined.


(** C6, as stated, fails: the canonical key holds a number, every rename
    variant is taken, and the rename mode stops on the missing rename
    target, not on the shape of the patch. *)
Lemma mutate_crowded_patch_no_target :
  dict_find crowded_patch CANON_KEY = Some (JNum 5)
  /\ @MutatePatch.main counter_rng 0%nat
       (trial_args MutatePatch.ModeRename 0) crowded_patch
     = (crowded_patch, Raise (RuntimeError "No available rename targets")).
Proof. split; reflexivity. Qed.

(** * Further properties of the repair engine *)

(** X1: one action whose "op" is a list or a mapping makes the whole plan
    fail: the sort raises [TypeError] while computing the keys, so no
    action is applied, not even the valid ones, and the patch is as it
    was. *)
Theorem apply_plan_unhashable_op (patch : pydict) (p d : jdict)
  (actions : list json) :
  dict_get_default p "actions" (JList []) = JList actions ->
  In (JDict d) actions ->
  unhashable (dict_get d "op") = true ->
  exists msg,
    apply_plan_to_patch patch (JDict p) = (patch, Raise (TypeError msg)).
Proof.
  intros Hl Hin Hu. unfold apply_plan_to_patch. rewrite Hl.
  unfold sorted_actions.
  destruct (keyed_unhashable _ _ Hin Hu) as [e He].
  rewrite He. simpl.
  destruct (keyed_raise _ _ He) as [msg ->]. eauto.
Qed.

Lemma apply_plan_unhashable_op_witness :
  exists msg,
    apply_plan_to_patch renamed_wrapped_patch
      (JDict [ ("actions",
                JList [ JDict [ ("op", JStr "rename_key");
                                ("from", JStr "function");
                                ("to", JStr "functions") ];
                        JDict [ ("op", JList [JStr "unwrap"]) ] ]) ])
    = (renamed_wrapped_patch, Raise (TypeError msg)).
Proof.
  apply (apply_plan_unhashable_op renamed_wrapped_patch
           [ ("actions",
              JList [ JDict [ ("op", JStr "rename_key");
                              ("from", JStr "function");
                              ("to", JStr "functions") ];
                      JDict [ ("op", JList [JStr "unwrap"]) ] ]) ]
           [ ("op", JList [JStr "unwrap"]) ]
           [ JDict [ ("op", JStr "rename_key");
                     ("from", JStr "function");
                     ("to", JStr "functions") ];
             JDict [ ("op", JList [JStr "unwrap"]) ] ]).
  - reflexivity.
  - simpl. tauto.
  - reflexivity.
Defined.

Lemma apply_action_log_index (i : nat) (patch : pydict) (a : json)
  (p' : pydict) (e : log_entry) :
  apply_action i patch a = (p', Ok e) -> log_index e = i.
Proof.
  unfold apply_action, rename_key, unwrap.
  repeat match goal with
         | |- context [match ?x with _ => _ end] => destruct x
         end;
    intros H; inversion H; reflexivity.
Qed.

Lemma run_actions_logs (l : list json) :
  forall i patch logs p' logs',
    run_actions i patch logs l = (p', Ok logs') ->
    exists new,
      logs' = logs ++ new
      /\ List.length new = List.length l
      /\ forall j e, nth_error new j = Some e -> log_index e = (i + j)%nat.
Proof.
  induction l as [|a l IH]; intros i patch logs p' logs' H; simpl in H.
  - injection H as <- <-. exists []. rewrite app_nil_r.
    repeat split; auto. intros [|j] e Hj; discriminate.
  - destruct (apply_action i patch a) as [p1 [e1|e1]] eqn:Ea;
      [|discriminate].
    destruct (IH _ _ _ _ _ H) as (new & -> & Hlen & Hidx).
    exists (e1 :: new). rewrite <- app_assoc. simpl.
    repeat split; auto.
    intros [|j] e Hj; simpl in Hj.
    + injection Hj as <-. rewrite Nat.add_0_r.
      eapply apply_action_log_index; eauto.
    + rewrite (Hidx _ _ Hj). lia.
Qed.

(** X2: when applying a plan raises nothing, the log has one entry for
    every action of the plan, and the entry at position [j] carries the
    index [j]. *)
Theorem apply_plan_log_complete (patch p' : pydict) (p : jdict)
  (actions : list json) (logs : list log_entry) :
  dict_get_default p "actions" (JList []) = JList actions ->
  apply_plan_to_patch patch (JDict p) = (p', Ok logs) ->
  List.length logs = List.length actions
  /\ forall j e, nth_error logs j = Some e -> log_index e = j.
Proof.
  intros Hl. unfold apply_plan_to_patch. rewrite Hl.
  destruct (sorted_actions actions) as [sorted|] eqn:Hs; [|discriminate].
  intros H.
  destruct (run_actions_logs _ _ _ _ _ _ H) as (new & -> & Hlen & Hidx).
  simpl. split.
  - rewrite Hlen. symmetry. apply Permutation_length.
    now apply sorted_actions_perm.
  - intros j e Hj. now rewrite (Hidx _ _ Hj).
Qed.

Lemma apply_plan_log_complete_witness :
  apply_plan_to_patch renamed_wrapped_patch (JDict unwrap_then_rename_plan)
  = ([(KStr "functions", JDict [("f1", JDict [])])],
     Ok [ LogRenameApplied 0 (JStr "function") (JStr "functions");
          LogUnwrapApplied 1 (JStr "wrapped") ])
  /\ List.length
       [ LogRenameApplied 0 (JStr "function") (JStr "functions");
         LogUnwrapApplied 1 (JStr "wrapped") ]
     = 2%nat.
Proof.
  split; [reflexivity|].
  apply (proj1 (apply_plan_log_complete renamed_wrapped_patch
                  [(KStr "functions", JDict [("f1", JDict [])])]
                  unwrap_then_rename_plan
                  [ JDict [ ("op", JStr "unwrap");
                            ("path", JList [JStr "functions"]);
                            ("wrapper_key", JStr "wrapped") ];
                    JDict [ ("op", JStr "rename_key");
                            ("path", JList []);
                            ("from", JStr "function");
                            ("to", JStr "functions") ] ]
                  [ LogRenameApplied 0 (JStr "function") (JStr "functions");
                    LogUnwrapApplied 1 (JStr "wrapped") ]
                  eq_refl eq_refl)).
Defined.

Lemma apply_action_raise (i : nat) (patch p' : pydict) (a : json) (e : exn) :
  apply_action i patch a = (p', Raise e) ->
  p' = patch /\ exists msg, e = TypeError msg.
Proof.
  unfold apply_action, rename_key, unwrap.
  repeat match goal with
         | |- context [match ?x with _ => _ end] => destruct x eqn:?
         end;
    intros H; inversion H; subst; split; auto;
    match goal with
    | E : hash_key _ = Raise _ |- _ => now apply hash_key_raise in E
    end.
Qed.

Lemma run_actions_raise (l : list json) :
  forall i patch logs p' e,
    run_actions i patch logs l = (p', Raise e) ->
    exists msg, e = TypeError msg.
Proof.
  induction l as [|a l IH]; intros i patch logs p' e H; simpl in H.
  - discriminate.
  - destruct (apply_action i patch a) as [p1 [e1|e1]] eqn:Ea.
    + eapply IH; eauto.
    + injection H as <- <-. now apply apply_action_raise in Ea.
Qed.

Lemma hash_key_raise_message (v : json) (e : exn) :
  hash_key v = Raise e ->
  unhashable v = true
  /\ (e = TypeError "unhashable type: 'list'"
      \/ e = TypeError "unhashable type: 'dict'").
Proof.
  destruct v; simpl; try discriminate; intros H; injection H as <-; auto.
Qed.

Lemma hash_key_hashable (v : json) :
  unhashable v = false -> exists k, hash_key v = Ok k.
Proof. destruct v; simpl; try discriminate; eauto. Qed.

(** One step of the loop raises only on a value it cannot hash, and leaves
    the patch as it found it. *)
Lemma apply_action_raise_unhashable (i : nat) (patch p' : pydict) (a : json)
  (e : exn) :
  apply_action i patch a = (p', Raise e) ->
  p' = patch
  /\ action_unhashable a = true
  /\ (e = TypeError "unhashable type: 'list'"
      \/ e = TypeError "unhashable type: 'dict'").
Proof.
  unfold apply_action, action_unhashable.
  destruct a as [| ? | ? | ? | ? | d]; try discriminate.
  destruct (py_eq_str (dict_get d "op") "rename_key") eqn:Er.
  - destruct (negb (truthy (dict_get d "from"))
              || negb (truthy (dict_get d "to"))); [discriminate|].
    unfold rename_key.
    destruct (hash_key (dict_get d "from")) as [ks|e1] eqn:Es.
    + destruct (patch_find patch ks); [|discriminate].
      destruct (hash_key (dict_get d "to")) as [kd|e2] eqn:Ed.
      * destruct (patch_mem patch kd); discriminate.
      * intros H. injection H as <- <-.
        destruct (hash_key_raise_message _ _ Ed) as [Hu Hm].
        rewrite Hu. cbn [andb]. rewrite !orb_true_r. auto.
    + intros H. injection H as <- <-.
      destruct (hash_key_raise_message _ _ Es) as [Hu Hm].
      rewrite Hu. cbn [andb orb]. rewrite !orb_true_r. auto.
  - destruct (py_eq_str (dict_get d "op") "unwrap") eqn:Eu;
      [|discriminate].
    destruct (negb (is_canon_path (dict_get_default d "path" (JList [])))
              || negb (truthy (dict_get d "wrapper_key"))); [discriminate|].
    unfold unwrap.
    destruct (patch_get patch (KStr CANON_KEY)); try discriminate.
    destruct (hash_key (dict_get d "wrapper_key")) as [kw|e1] eqn:Ew.
    + destruct (container_find _ kw) as [[| | | | |inner]|]; discriminate.
    + intros H. injection H as <- <-.
      destruct (hash_key_raise_message _ _ Ew) as [Hu Hm].
      rewrite Hu. cbn [andb]. rewrite !orb_true_r. auto.
Qed.

(** One step of the loop raises nothing on an action whose values can be
    hashed. *)
Lemma apply_action_hashable (i : nat) (patch : pydict) (a : json) :
  action_unhashable a = false ->
  exists p' e, apply_action i patch a = (p', Ok e).
Proof.
  intros Hu.
  destruct (apply_action i patch a) as [p' [e|ex]] eqn:Ea; [eauto|].
  apply apply_action_raise_unhashable in Ea.
  destruct Ea as (_ & Hu' & _). congruence.
Qed.

Lemma run_actions_hashable (l : list json) :
  forall i patch logs,
    Forall (fun a => action_unhashable a = false) l ->
    exists p' logs', run_actions i patch logs l = (p', Ok logs').
Proof.
  induction l as [|a l IH]; intros i patch logs H; simpl; [eauto|].
  inversion H as [|? ? Ha Hl]; subst.
  destruct (apply_action_hashable i patch a Ha) as (p1 & e & ->).
  now apply IH.
Qed.

Lemma run_actions_raise_unhashable (l : list json) :
  forall i patch logs p' e,
    run_actions i patch logs l = (p', Raise e) ->
    (exists a, In a l /\ action_unhashable a = true)
    /\ (e = TypeError "unhashable type: 'list'"
        \/ e = TypeError "unhashable type: 'dict'").
Proof.
  induction l as [|a l IH]; intros i patch logs p' e H; simpl in H.
  - discriminate.
  - destruct (apply_action i patch a) as [p1 [e1|e1]] eqn:Ea.
    + destruct (IH _ _ _ _ _ H) as [(b & Hb & Hu) Hm].
      split; [|exact Hm]. exists b. split; [now right | exact Hu].
    + injection H as <- <-.
      apply apply_action_raise_unhashable in Ea.
      destruct Ea as (_ & Hu & Hm).
      split; [|exact Hm]. exists a. split; [now left | exact Hu].
Qed.

Lemma keyed_raise_unhashable (actions : list json) (e : exn) :
  keyed actions = Raise e ->
  (exists a, In a actions /\ action_unhashable a = true)
  /\ (e = TypeError "unhashable type: 'list'"
      \/ e = TypeError "unhashable type: 'dict'").
Proof.
  induction actions as [|a actions IH]; simpl; [discriminate|].
  destruct (sort_key a) as [k|e1] eqn:Ea; simpl.
  - destruct (keyed actions) as [ks|e2]; simpl; [discriminate|].
    intros H. injection H as <-.
    destruct (IH eq_refl) as [(b & Hb & Hu) Hm].
    split; [|exact Hm]. exists b. split; [now right | exact Hu].
  - intros H. injection H as <-.
    destruct a as [| ? | ? | ? | ? | d]; try discriminate.
    simpl in Ea. unfold priority_get in Ea.
    destruct (hash_key (dict_get d "op")) as [k|e2] eqn:Eh; simpl in Ea;
      [discriminate|].
    injection Ea as <-.
    destruct (hash_key_raise_message _ _ Eh) as [Hu Hm].
    split; [|exact Hm]. exists (JDict d). split; [now left|].
    simpl. now rewrite Hu.
Qed.

(** X3: a plan the response reader accepts never makes the engine raise
    [ValueError] or [AttributeError].  The engine raises nothing when no
    action carries a list or a mapping under "op", or under "from" or "to"
    of a rename_key action, or under "wrapper_key" of an unwrap action;
    and when it raises, it raises the [TypeError] of a value that cannot
    be hashed, and some action carries such a value in one of these
    places. *)
Theorem accepted_plan_raises_only_type_error
  (json_loads : text -> loaded) (response : option text)
  (plan : json) (patch : pydict) :
  plan_of_response json_loads response = Ok plan ->
  (forallb (fun a => negb (action_unhashable a)) (plan_actions plan) = true ->
   exists patch' logs, apply_plan_to_patch patch plan = (patch', Ok logs))
  /\ (forall patch' e,
        apply_plan_to_patch patch plan = (patch', Raise e) ->
        (e = TypeError "unhashable type: 'list'"
         \/ e = TypeError "unhashable type: 'dict'")
        /\ exists a, In a (plan_actions plan) /\ action_unhashable a = true).
Proof.
  unfold plan_of_response.
  destruct (_extract_json_object json_loads _) as [jt|]; simpl;
    [|discriminate].
  destruct (json_loads jt) as [pl|]; [|discriminate].
  destruct pl as [| | | | |p]; try discriminate.
  destruct (dict_find p "actions") as [[| | | |actions|]|] eqn:Ea;
    try discriminate.
  intros H. injection H as <-.
  unfold apply_plan_to_patch, plan_actions, dict_get_default. rewrite Ea.
  unfold sorted_actions.
  split.
  - intros Hall.
    assert (Hf : Forall (fun a => action_unhashable a = false) actions).
    { apply Forall_forall. intros a Ha.
      rewrite forallb_forall in Hall. specialize (Hall a Ha).
      now apply negb_true_iff in Hall. }
    destruct (keyed actions) as [ks|e] eqn:Ek; simpl.
    + apply run_actions_hashable.
      eapply Permutation_Forall; [|exact Hf].
      destruct (keyed_spec _ _ Ek) as [<- _].
      apply Permutation_map. symmetry. apply stable_sort_perm.
    + exfalso.
      destruct (keyed_raise_unhashable _ _ Ek) as [(a & Ha & Hu) _].
      rewrite Forall_forall in Hf. rewrite (Hf a Ha) in Hu. discriminate.
  - intros patch' e.
    destruct (keyed actions) as [ks|e1] eqn:Ek; simpl.
    + intros Hr.
      destruct (run_actions_raise_unhashable _ _ _ _ _ _ Hr)
        as [(a & Ha & Hu) Hm].
      split; [exact Hm|]. exists a. split; [|exact Hu].
      destruct (keyed_spec _ _ Ek) as [<- _].
      eapply Permutation_in; [|exact Ha].
      apply Permutation_map. apply stable_sort_perm.
    + intros H. injection H as _ <-.
      destruct (keyed_raise_unhashable _ _ Ek) as [Hex Hm]. auto.
Qed.

Lemma accepted_plan_raises_only_type_error_witness :
  exists patch' logs,
    apply_plan_to_patch renamed_wrapped_patch (JDict unwrap_then_rename_plan)
    = (patch', Ok logs).
Proof.
  apply (proj1 (accepted_plan_raises_only_type_error sample_json_loads
                  (Some plan_text) (JDict unwrap_then_rename_plan)
                  renamed_wrapped_patch eq_refl)).
  reflexivity.
Defined.

(** A plan the reader accepts whose unwrap action names its wrapper key
    in a list: every "op" is a string, and the engine raises in the
    middle of the run, at the lookup of the wrapper key. *)
Lemma accepted_plan_listed_wrapper :
  plan_of_response sample_json_loads (Some listed_wrapper_text)
  = Ok listed_wrapper_plan
  /\ apply_plan_to_patch nested_wrapper_patch listed_wrapper_plan
     = (nested_wrapper_patch, Raise (TypeError "unhashable type: 'list'")).
Proof. split; reflexivity. Qed.

(** X4: a plan without a rename_key action leaves the top-level keys of
    the patch as they are, in number and in order, whether or not it
    raises. *)
Theorem apply_plan_without_rename_keeps_keys (patch : pydict) (plan : json) :
  count_op "rename_key" (plan_actions plan) = 0%nat ->
  map fst (fst (apply_plan_to_patch patch plan)) = map fst patch.
Proof.
  unfold apply_plan_to_patch, plan_actions.
  destruct plan as [| | | | |p]; auto.
  destruct (dict_get_default p "actions" (JList [])) as [| | | |actions|];
    auto.
  intros Hc.
  destruct (sorted_actions actions) as [sorted|] eqn:Hs; auto.
  apply run_actions_keys.
  rewrite (count_op_perm _ _ _ (sorted_actions_perm _ _ Hs)) in Hc.
  unfold count_op in Hc. apply length_zero_iff_nil in Hc.
  apply Forall_forall. intros a Ha.
  destruct (has_op a "rename_key") eqn:E; auto.
  assert (Hin : In a (filter (fun a => has_op a "rename_key") sorted)).
  { apply filter_In. auto. }
  rewrite Hc in Hin. destruct Hin.
Qed.

Lemma apply_plan_without_rename_keeps_keys_witness :
  map fst (fst (apply_plan_to_patch nested_wrapper_patch unwrap_wrapped_plan))
  = [KStr "functions"].
Proof.
  apply (apply_plan_without_rename_keeps_keys nested_wrapper_patch
           unwrap_wrapped_plan).
  reflexivity.
Defined.

Lemma pykey_eqb_sym (a b : pykey) : pykey_eqb a b = pykey_eqb b a.
Proof.
  destruct (pykey_eqb a b) eqn:E1, (pykey_eqb b a) eqn:E2; auto.
  - apply pykey_eqb_spec in E1. subst.
    assert (H : pykey_eqb b b = true) by now apply pykey_eqb_spec.
    congruence.
  - apply pykey_eqb_spec in E2. subst.
    assert (H : pykey_eqb a a = true) by now apply pykey_eqb_spec.
    congruence.
Qed.

Lemma pykey_eqb_neq (a b : pykey) : a <> b -> pykey_eqb a b = false.
Proof.
  intros H. destruct (pykey_eqb a b) eqn:E; auto.
  apply pykey_eqb_spec in E. contradiction.
Qed.

Lemma patch_find_pop_other (p : pydict) (k k' : pykey) :
  pykey_eqb k' k = false ->
  patch_find (patch_pop p k') k = patch_find p k.
Proof.
  intros E. unfold patch_find, patch_pop, assoc_remove.
  induction p as [|[k1 v1] p IH]; simpl; auto.
  destruct (pykey_eqb k' k1) eqn:E1; simpl.
  - apply pykey_eqb_spec in E1. subst.
    rewrite pykey_eqb_sym, E. exact IH.
  - destruct (pykey_eqb k k1); auto.
Qed.

Lemma patch_find_set_other (p : pydict) (k k' : pykey) (v : json) :
  pykey_eqb k' k = false ->
  patch_find (patch_set p k' v) k = patch_find p k.
Proof.
  intros E. apply (assoc_find_set_other pykey_eqb pykey_eqb_spec).
  now rewrite pykey_eqb_sym.
Qed.

Lemma apply_action_frame (i : nat) (p : pydict) (a : json) (k : pykey) :
  k <> KStr CANON_KEY -> rename_names a k = false ->
  patch_find (fst (apply_action i p a)) k = patch_find p k.
Proof.
  intros Hk. unfold rename_names, apply_action.
  destruct a as [| | | | |d]; auto.
  destruct (py_eq_str (dict_get d "op") "rename_key"); simpl.
  - destruct (negb _ || negb _); auto.
    unfold rename_key.
    destruct (hash_key (dict_get d "from")) as [ks|]; auto.
    destruct (patch_find p ks); auto.
    destruct (hash_key (dict_get d "to")) as [kd|]; auto.
    destruct (patch_mem p kd); auto.
    intros H. apply orb_false_iff in H. destruct H as [H1 H2].
    simpl. rewrite (patch_find_set_other _ _ _ _ H2).
    now apply patch_find_pop_other.
  - intros _.
    destruct (py_eq_str (dict_get d "op") "unwrap"); auto.
    destruct (negb _ || negb _); auto.
    unfold unwrap.
    destruct (patch_get p (KStr CANON_KEY)); auto.
    destruct (hash_key _); auto.
    destruct (container_find _ _) as [[]|]; auto.
    simpl. apply patch_find_set_other.
    apply pykey_eqb_neq. congruence.
Qed.

Lemma run_actions_frame (l : list json) (k : pykey) :
  k <> KStr CANON_KEY ->
  (forall a, In a l -> rename_names a k = false) ->
  forall i p logs, patch_find (fst (run_actions i p logs l)) k = patch_find p k.
Proof.
  intros Hk.
  induction l as [|a l IH]; intros H i p logs; simpl; auto.
  pose proof (apply_action_frame i p a k Hk (H a (or_introl eq_refl))) as Ha.
  destruct (apply_action i p a) as [p1 [e|e]]; simpl in *; [|exact Ha].
  rewrite IH; [exact Ha|]. intros b Hb. apply H. now right.
Qed.

(** X5: applying a plan touches only the canonical key and the keys its
    rename_key actions name: under every other key the patch holds after
    the plan what it held before, present or absent. *)
Theorem apply_plan_frame (patch : pydict) (plan : json) (k : pykey) :
  k <> KStr CANON_KEY ->
  (forall a, In a (plan_actions plan) -> rename_names a k = false) ->
  patch_find (fst (apply_plan_to_patch patch plan)) k = patch_find patch k.
Proof.
  unfold apply_plan_to_patch, plan_actions.
  destruct plan as [| | | | |p]; auto.
  destruct (dict_get_default p "actions" (JList [])) as [| | | |actions|];
    auto.
  intros Hk H.
  destruct (sorted_actions actions) as [sorted|] eqn:Hs; auto.
  apply run_actions_frame; auto.
  intros a Ha. apply H.
  eapply Permutation_in; [symmetry; eapply sorted_actions_perm|]; eauto.
Qed.

Lemma apply_plan_frame_witness :
  patch_find
    (fst (apply_plan_to_patch
            [ (KStr "function", JDict [("wrapped", JDict [])]);
              (KStr "version", JStr "3.11") ]
            (JDict unwrap_then_rename_plan)))
    (KStr "version")
  = Some (JStr "3.11").
Proof.
  apply (apply_plan_frame
           [ (KStr "function", JDict [("wrapped", JDict [])]);
             (KStr "version", JStr "3.11") ]
           (JDict unwrap_then_rename_plan) (KStr "version")).
  - discriminate.
  - intros a [<- | [<- | []]]; reflexivity.
Defined.

(** * Dictionaries as [json.load] builds them *)

Lemma dict_find_set (d : jdict) (k k' : string) (v : json) :
  dict_find (dict_set d k v) k'
  = if k' =? k then Some v else dict_find d k'.
Proof.
  unfold dict_find, dict_set.
  destruct (k' =? k) eqn:E.
  - apply String.eqb_eq in E. subst.
    apply (assoc_find_set_same String.eqb string_eqb_spec).
  - now apply (assoc_find_set_other String.eqb string_eqb_spec).
Qed.

Lemma dict_find_pop (d : jdict) (k k' : string) :
  dict_find (dict_pop d k) k'
  = if k' =? k then None else dict_find d k'.
Proof.
  unfold dict_find, dict_pop, assoc_remove.
  induction d as [|[k1 v1] d IH]; simpl.
  - now destruct (k' =? k).
  - destruct (k =? k1) eqn:E1; simpl.
    + apply String.eqb_eq in E1. subst.
      rewrite IH. now destruct (k' =? k1).
    + rewrite IH. destruct (k' =? k1) eqn:E2; auto.
      apply String.eqb_eq in E2. subst.
      rewrite String.eqb_sym in E1. now rewrite E1.
Qed.

Lemma dict_find_app (d d' : jdict) (k : string) :
  dict_find (d ++ d') k
  = match dict_find d k with Some v => Some v | None => dict_find d' k end.
Proof.
  unfold dict_find.
  induction d as [|[k1 v1] d IH]; simpl; auto.
  destruct (k =? k1); auto.
Qed.

Lemma dict_mem_find (d : jdict) (k : string) :
  dict_mem d k = match dict_find d k with Some _ => true | None => false end.
Proof. reflexivity. Qed.

Lemma dict_mem_In (d : jdict) (k : string) :
  dict_mem d k = true <-> In k (dict_keys d).
Proof. apply (assoc_mem_keys String.eqb string_eqb_spec). Qed.

Lemma dict_set_absent (d : jdict) (k : string) (v : json) :
  dict_mem d k = false -> dict_set d k v = d ++ [(k, v)].
Proof. apply (assoc_set_keys_absent String.eqb). Qed.

Lemma dict_set_last (d : jdict) (k : string) (v v' : json) :
  dict_mem d k = false -> dict_set (d ++ [(k, v)]) k v' = d ++ [(k, v')].
Proof.
  unfold dict_mem, assoc_mem, dict_set.
  induction d as [|[k1 v1] d IH]; simpl.
  - now rewrite String.eqb_refl.
  - destruct (k =? k1); [discriminate|].
    intros H. now rewrite IH.
Qed.

Lemma dict_set_app_present (d d' : jdict) (k : string) (v : json) :
  dict_mem d k = true -> dict_set (d ++ d') k v = dict_set d k v ++ d'.
Proof.
  unfold dict_mem, assoc_mem, dict_set.
  induction d as [|[k1 v1] d IH]; simpl; [discriminate|].
  destruct (k =? k1); auto.
  intros H. now rewrite IH.
Qed.

(** Storing twice under a key of the dictionary is storing the last
    value; storing what the key holds changes nothing. *)
Lemma dict_set_set (d : jdict) (k : string) (v v' : json) :
  dict_mem d k = true -> dict_set (dict_set d k v) k v' = dict_set d k v'.
Proof.
  unfold dict_mem, assoc_mem, dict_set.
  induction d as [|[k1 v1] d IH]; simpl; [discriminate|].
  destruct (k =? k1) eqn:E; simpl; rewrite E; auto.
  intros H. now rewrite IH.
Qed.

Lemma dict_set_same (d : jdict) (k : string) (v : json) :
  dict_find d k = Some v -> dict_set d k v = d.
Proof.
  unfold dict_find, dict_set.
  induction d as [|[k1 v1] d IH]; simpl; [discriminate|].
  destruct (k =? k1) eqn:E.
  - intros H. injection H as ->. reflexivity.
  - intros H. now rewrite IH.
Qed.

Lemma dict_pop_absent (d : jdict) (k : string) :
  dict_mem d k = false -> dict_pop d k = d.
Proof.
  unfold dict_mem, assoc_mem, dict_pop, assoc_remove.
  induction d as [|[k1 v1] d IH]; simpl; auto.
  destruct (k =? k1); [discriminate|].
  intros H. simpl. now rewrite IH.
Qed.

Lemma dict_pop_app (d d' : jdict) (k : string) :
  dict_pop (d ++ d') k = dict_pop d k ++ dict_pop d' k.
Proof. unfold dict_pop, assoc_remove. apply filter_app. Qed.

Lemma dict_keys_pop (d : jdict) (k : string) :
  dict_keys (dict_pop d k) = filter (fun x => negb (k =? x)) (dict_keys d).
Proof.
  unfold dict_keys, assoc_keys, dict_pop, assoc_remove.
  induction d as [|[k1 v1] d IH]; simpl; auto.
  destruct (k =? k1); simpl; now rewrite IH.
Qed.

(** The patch of the repair engine, when it was loaded from JSON. *)
Lemma patch_find_of_json (d : jdict) (k : string) :
  patch_find (patch_of_json d) (KStr k) = dict_find d k.
Proof.
  unfold patch_find, dict_find, patch_of_json.
  induction d as [|[k1 v1] d IH]; simpl; auto.
  destruct (k =? k1); auto.
Qed.

Lemma patch_mem_of_json (d : jdict) (k : string) :
  patch_mem (patch_of_json d) (KStr k) = dict_mem d k.
Proof.
  unfold patch_mem, assoc_mem. fold (patch_find (patch_of_json d) (KStr k)).
  now rewrite patch_find_of_json.
Qed.

Lemma patch_get_of_json (d : jdict) (k : string) :
  patch_get (patch_of_json d) (KStr k) = dict_get d k.
Proof.
  unfold patch_get, dict_get, dict_get_default.
  now rewrite patch_find_of_json.
Qed.

Lemma patch_pop_of_json (d : jdict) (k : string) :
  patch_pop (patch_of_json d) (KStr k) = patch_of_json (dict_pop d k).
Proof.
  unfold patch_pop, dict_pop, assoc_remove, patch_of_json.
  induction d as [|[k1 v1] d IH]; simpl; auto.
  destruct (k =? k1); simpl; [exact IH | f_equal; exact IH].
Qed.

Lemma patch_set_of_json (d : jdict) (k : string) (v : json) :
  patch_set (patch_of_json d) (KStr k) v = patch_of_json (dict_set d k v).
Proof.
  unfold patch_set, dict_set, patch_of_json.
  induction d as [|[k1 v1] d IH]; simpl; auto.
  destruct (k =? k1); simpl; [reflexivity | f_equal; exact IH].
Qed.

Lemma patch_of_json_inj (d d' : jdict) :
  patch_of_json d = patch_of_json d' -> d = d'.
Proof.
  revert d'. unfold patch_of_json.
  induction d as [|[k v] d IH]; intros [|[k' v'] d'] H; simpl in H;
    try discriminate; auto.
  injection H as -> -> H. now rewrite (IH _ H).
Qed.

(** * Further properties of the drift mutator *)

Lemma rename_variant_facts (r : string) :
  In r RENAME_VARIANTS ->
  (r =? "") = false /\ (r =? CANON_KEY) = false /\ (CANON_KEY =? r) = false
  /\ forall e, In e EXTRA_STRUCT_KEYS -> (e =? r) = false /\ (r =? e) = false.
Proof.
  intros H.
  repeat split.
  - simpl in H. intuition; subst; reflexivity.
  - simpl in H. intuition; subst; reflexivity.
  - simpl in H. intuition; subst; reflexivity.
  - simpl in H, H0. intuition; subst; reflexivity.
  - simpl in H, H0. intuition; subst; reflexivity.
Qed.

Lemma wrapper_variant_facts (w : string) :
  In w WRAPPER_VARIANTS -> (w =? "") = false.
Proof.
  intros H. simpl in H.
  repeat (destruct H as [<- | H]); try reflexivity. destruct H.
Qed.

Lemma extra_key_facts (e : string) :
  In e EXTRA_STRUCT_KEYS ->
  (e =? "") = false /\ (e =? CANON_KEY) = false /\ (CANON_KEY =? e) = false.
Proof.
  intros H. simpl in H.
  repeat (destruct H as [<- | H]); try (repeat split; reflexivity).
  destruct H.
Qed.

Section MutatorLog.
Context {G : PRNG}.

Lemma choice_in {A : Type} (g g' : rng_state) (seq : list A) (x : A) :
  MutatePatch.choice g seq = Ok (x, g') -> In x seq.
Proof.
  unfold MutatePatch.choice.
  destruct seq as [|y seq]; [discriminate|].
  destruct (rng_below g (List.length (y :: seq))) as [i g1].
  destruct (nth_error (y :: seq) i) as [z|] eqn:E; [|discriminate].
  intros H. injection H as <- <-. eapply nth_error_In; eauto.
Qed.

Lemma choice_if_inv (flag : bool) (g g' : rng_state) (seq : list string)
  (x : option string) :
  MutatePatch.choice_if flag g seq = Ok (x, g') ->
  if flag then exists y, x = Some y /\ In y seq else x = None.
Proof.
  unfold MutatePatch.choice_if. destruct flag.
  - destruct (MutatePatch.choice g seq) as [[y g1]|] eqn:E; simpl;
      [|discriminate].
    intros H. injection H as <- <-. exists y. split; auto.
    eapply choice_in; eauto.
  - intros H. now injection H as <- <-.
Qed.

Lemma choose_drifts_inv (m : MutatePatch.mode) (g g' : rng_state)
  (r w e : bool) :
  MutatePatch.choose_drifts m g = Ok (r, w, e, g') ->
  r || w || e = true
  /\ match mode_drifts m with
     | Some flags => (r, w, e) = flags
     | None => True
     end.
Proof.
  destruct m;
    try (simpl; intros H; injection H as <- <- <- <-; split; reflexivity).
  unfold MutatePatch.choose_drifts, mode_drifts.
  destruct (MutatePatch.choice g [true; false]) as [[r1 g1]|];
    cbn [bind]; [|discriminate].
  destruct (MutatePatch.choice g1 [true; false]) as [[w1 g2]|];
    cbn [bind]; [|discriminate].
  destruct (MutatePatch.choice g2 [true; false]) as [[e1 g3]|];
    cbn [bind]; [|discriminate].
  destruct r1, w1, e1; simpl; intros H; injection H as <- <- <- <-;
    split; reflexivity.
Qed.

Lemma select_parameters_inv (a : MutatePatch.args) (patch : jdict)
  (g : rng_state) (l : MutatePatch.mutation_log) :
  MutatePatch.select_parameters a patch g = Ok l ->
  log_consistent patch l
  /\ match mode_drifts (MutatePatch.arg_mode a) with
     | Some flags =>
         (MutatePatch.ml_use_rename l, MutatePatch.ml_use_wrap l,
          MutatePatch.ml_use_extra_struct l) = flags
     | None => True
     end
  /\ MutatePatch.ml_seed l = MutatePatch.arg_seed a
  /\ MutatePatch.ml_trial_id l = MutatePatch.arg_trial_id a
  /\ MutatePatch.ml_mode l = MutatePatch.mode_name (MutatePatch.arg_mode a).
Proof.
  unfold MutatePatch.select_parameters.
  destruct (MutatePatch.choose_drifts (MutatePatch.arg_mode a) g)
    as [[[[r w] e] g1]|] eqn:E1; cbn [bind]; [|discriminate].
  destruct (choose_drifts_inv _ _ _ _ _ _ E1) as [Hany Hmode].
  set (cands := filter (fun k => negb (dict_mem patch k)) RENAME_VARIANTS).
  destruct (if r
            then match cands with
                 | [] => Raise (RuntimeError "No available rename targets")
                 | _ :: _ => MutatePatch.choice_if true g1 cands
                 end
            else Ok (None, g1)) as [[rt g2]|] eqn:E2; cbn [bind];
    [|discriminate].
  destruct (MutatePatch.choice_if w g2 WRAPPER_VARIANTS) as [[wk g3]|] eqn:E3;
    cbn [bind]; [|discriminate].
  destruct (MutatePatch.choice_if e g3 EXTRA_STRUCT_KEYS) as [[ek g4]|] eqn:E4;
    cbn [bind]; [|discriminate].
  destruct (if r && w
            then match MutatePatch.arg_order a with
                 | MutatePatch.OrderRandom =>
                     bind (MutatePatch.choice g4
                             ["rename_then_wrap"; "wrap_then_rename"])
                       (fun x => match x with (o, _) => Ok o end)
                 | o => Ok (MutatePatch.order_name o)
                 end
            else Ok "n/a") as [oo|] eqn:E5; cbn [bind]; [|discriminate].
  intros H. injection H as <-.
  unfold log_consistent. cbn.
  repeat split; auto.
  - destruct r.
    + destruct cands as [|c cs] eqn:Ec; [discriminate|].
      apply choice_if_inv in E2. destruct E2 as (y & -> & Hy).
      exists y. split; auto.
      rewrite <- Ec in Hy. unfold cands in Hy.
      apply filter_In in Hy. destruct Hy as [Hy1 Hy2].
      split; auto. now apply negb_true_iff in Hy2.
    + now injection E2 as <- <-.
  - exact (choice_if_inv _ _ _ _ _ E3).
  - exact (choice_if_inv _ _ _ _ _ E4).
  - destruct (r && w).
    + destruct (MutatePatch.arg_order a).
      * injection E5 as <-. now left.
      * injection E5 as <-. now right.
      * destruct (MutatePatch.choice g4
                    ["rename_then_wrap"; "wrap_then_rename"])
          as [[o g5]|] eqn:E6; cbn [bind] in E5; [|discriminate].
        injection E5 as <-. apply choice_in in E6.
        simpl in E6. intuition.
    + now injection E5 as <-.
Qed.

End MutatorLog.

Lemma dict_pop_set_same (d : jdict) (k : string) (v : json) :
  dict_pop (dict_set d k v) k = dict_pop d k.
Proof.
  unfold dict_pop, dict_set, assoc_remove.
  induction d as [|[k1 v1] d IH]; simpl.
  - now rewrite String.eqb_refl.
  - destruct (k =? k1) eqn:E; simpl; rewrite E; simpl; auto.
    now rewrite IH.
Qed.

Lemma dict_mem_set (d : jdict) (k k' : string) (v : json) :
  dict_mem (dict_set d k v) k' = (k' =? k) || dict_mem d k'.
Proof.
  rewrite !dict_mem_find, dict_find_set. now destruct (k' =? k).
Qed.

Lemma dict_mem_pop (d : jdict) (k k' : string) :
  dict_mem (dict_pop d k) k' = negb (k' =? k) && dict_mem d k'.
Proof.
  rewrite !dict_mem_find, dict_find_pop. now destruct (k' =? k).
Qed.

Lemma dict_mem_app (d d' : jdict) (k : string) :
  dict_mem (d ++ d') k = dict_mem d k || dict_mem d' k.
Proof.
  rewrite !dict_mem_find, dict_find_app. now destruct (dict_find d k).
Qed.

Lemma dict_find_get (d : jdict) (k : string) (v : json) :
  dict_find d k = Some v -> dict_get d k = v.
Proof. unfold dict_get, dict_get_default. now intros ->. Qed.

(** The first variant present is the one looked for when no other variant
    is a key. *)
Lemma first_present_only (variants : list string) (patch : jdict)
  (r : string) :
  In r variants -> dict_mem patch r = true ->
  (forall k, In k variants -> k <> r -> dict_mem patch k = false) ->
  first_present variants patch = Some r.
Proof.
  induction variants as [|k rest IH]; intros Hin Hr Hno; [destruct Hin|].
  simpl. destruct (string_dec k r) as [-> | Hne].
  - now rewrite Hr.
  - rewrite (Hno k (or_introl eq_refl) Hne).
    destruct Hin as [-> | Hin]; [contradiction|].
    apply IH; auto. intros x Hx. apply Hno. now right.
Qed.

Lemma add_extra_struct_none (a : MutatePatch.args) (d : jdict) :
  MutatePatch.add_extra_struct a None d = d.
Proof. reflexivity. Qed.

(** What the drifts make of a canonical patch none of whose keys is a
    rename variant. *)

Lemma apply_drifts_shape (a : MutatePatch.args)
  (l : MutatePatch.mutation_log) (patch fns : jdict) :
  log_consistent patch l ->
  dict_find patch CANON_KEY = Some (JDict fns) ->
  no_variant_present patch ->
  MutatePatch.apply_drifts a l patch
  = (MutatePatch.add_extra_struct a (MutatePatch.ml_extra_struct_key l)
       (drift_core l patch), Ok tt).
Proof.
  intros (Hany & Hr & Hw & He & Ho) Hf Hno.
  pose proof (dict_find_get _ _ _ Hf) as Hg.
  assert (Hm : dict_mem patch CANON_KEY = true)
    by (rewrite dict_mem_find; now rewrite Hf).
  unfold MutatePatch.apply_drifts, drift_core, drifted_value.
  destruct (MutatePatch.ml_use_rename l) eqn:Er.
  - destruct Hr as (r & Hrt & Hrin & Hrm). rewrite Hrt.
    destruct (rename_variant_facts r Hrin) as (Hr0 & Hrc & Hcr & _).
    assert (Hren : forall v,
              dict_find patch CANON_KEY = Some v ->
              MutatePatch.rename_container (Some r) patch
              = dict_pop patch CANON_KEY ++ [(r, v)]).
    { intros v Hv. unfold MutatePatch.rename_container.
      rewrite Hr0, Hm, Hrm. simpl.
      rewrite (dict_find_get _ _ _ Hv).
      apply dict_set_absent.
      rewrite dict_mem_pop, Hrm. now rewrite andb_false_r. }
    destruct (MutatePatch.ml_use_wrap l) eqn:Ew; cbn [andb].
    + destruct Hw as (w & Hwk & Hwin). rewrite Hwk.
      destruct Ho as [Ho | Ho]; rewrite Ho.
      * change ("rename_then_wrap" =? "rename_then_wrap") with true.
        cbv iota.
        rewrite (Hren _ Hf), Hg.
        set (M1 := dict_pop patch CANON_KEY ++ [(r, JDict fns)]).
        assert (Hk : find_functions_key M1 = Some r).
        { unfold find_functions_key, M1.
          rewrite dict_mem_app, dict_mem_pop, String.eqb_refl.
          cbn [negb andb orb].
          replace (dict_mem [(r, JDict fns)] CANON_KEY) with false
            by (rewrite dict_mem_find; unfold dict_find; cbn [assoc_find];
                now rewrite Hcr).
          apply first_present_only; auto.
          - rewrite dict_mem_app, dict_mem_pop, Hrm, andb_false_r.
            rewrite dict_mem_find. unfold dict_find. cbn [assoc_find orb].
            now rewrite String.eqb_refl.
          - intros k Hk Hne.
            rewrite dict_mem_app, dict_mem_pop, (Hno k Hk), andb_false_r.
            rewrite dict_mem_find. unfold dict_find. cbn [assoc_find orb].
            apply String.eqb_neq in Hne. now rewrite Hne. }
        unfold MutatePatch.wrap_current, MutatePatch.current_functions_key.
        rewrite Hk.
        assert (Hv : dict_get M1 r = JDict fns).
        { apply dict_find_get. unfold M1. rewrite dict_find_app.
          rewrite dict_find_pop, Hrc.
          assert (Hn : dict_find patch r = None).
          { rewrite dict_mem_find in Hrm.
            now destruct (dict_find patch r). }
          rewrite Hn. unfold dict_find. cbn [assoc_find].
          now rewrite String.eqb_refl. }
        rewrite Hv. cbn [is_dict negb].
        unfold MutatePatch.wrap_container. rewrite Hv.
        cbn [MutatePatch.key_text].
        unfold M1. rewrite dict_set_last; auto.
        rewrite dict_mem_pop, Hrm. now rewrite andb_false_r.
      * change ("wrap_then_rename" =? "rename_then_wrap") with false.
        change ("wrap_then_rename" =? "wrap_then_rename") with true.
        cbv iota.
        unfold MutatePatch.wrap_container. cbn [MutatePatch.key_text].
        rewrite Hg.
        unfold MutatePatch.rename_container.
        rewrite Hr0, !dict_mem_set, String.eqb_refl, Hrc, Hrm.
        cbn [negb andb orb].
        rewrite dict_pop_set_same.
        rewrite (dict_find_get _ _ (JDict [(w, JDict fns)])).
        2:{ rewrite dict_find_set. now rewrite String.eqb_refl. }
        rewrite dict_set_absent; auto.
        rewrite dict_mem_pop, Hrm. now rewrite andb_false_r.
    + rewrite Hw. rewrite (Hren _ Hf), Hg. reflexivity.
  - rewrite Hr. cbn [andb].
    destruct (MutatePatch.ml_use_wrap l) eqn:Ew.
    + destruct Hw as (w & Hwk & Hwin). rewrite Hwk.
      unfold MutatePatch.wrap_current, MutatePatch.current_functions_key,
        find_functions_key.
      rewrite Hm, Hg. cbn [is_dict negb].
      unfold MutatePatch.wrap_container. rewrite Hg. reflexivity.
    + rewrite Hw, Hg. cbn [orb] in Hany. rewrite Hany.
      now rewrite (dict_set_same _ _ _ Hf).
Qed.

(** * From the mutated patch back to the original *)

Lemma repair_rename_step (i : nat) (M : jdict) (r : string) (v : json) :
  (r =? "") = false ->
  dict_find M r = Some v ->
  dict_mem M CANON_KEY = false ->
  apply_action i (patch_of_json M) (rename_action r)
  = (patch_of_json (dict_set (dict_pop M r) CANON_KEY v),
     Ok (LogRenameApplied i (JStr r) (JStr CANON_KEY))).
Proof.
  intros Hr Hv Hm.
  unfold apply_action, rename_action.
  change (dict_get _ "op") with (JStr "rename_key").
  change (dict_get _ "from") with (JStr r).
  change (dict_get _ "to") with (JStr CANON_KEY).
  cbn [py_eq_str]. change ("rename_key" =? "rename_key") with true.
  cbv iota. cbn [truthy]. rewrite Hr.
  change (negb (negb false) || negb (negb (CANON_KEY =? ""))) with false.
  cbv iota.
  unfold rename_key. cbn [hash_key].
  rewrite patch_find_of_json, Hv, patch_mem_of_json, Hm.
  now rewrite patch_pop_of_json, patch_set_of_json.
Qed.

Lemma repair_unwrap_step (i : nat) (M container inner : jdict) (w : string) :
  (w =? "") = false ->
  dict_find M CANON_KEY = Some (JDict container) ->
  dict_find container w = Some (JDict inner) ->
  apply_action i (patch_of_json M) (unwrap_action w)
  = (patch_of_json (dict_set M CANON_KEY (JDict inner)),
     Ok (LogUnwrapApplied i (JStr w))).
Proof.
  intros Hw Hc Hi.
  unfold apply_action, unwrap_action.
  change (dict_get _ "op") with (JStr "unwrap").
  change (dict_get_default _ "path" _) with (JList [JStr CANON_KEY]).
  change (dict_get _ "wrapper_key") with (JStr w).
  cbn [py_eq_str].
  change ("unwrap" =? "rename_key") with false.
  change ("unwrap" =? "unwrap") with true.
  cbv iota. cbn [truthy is_canon_path]. rewrite Hw, String.eqb_refl.
  cbn [negb orb]. cbv iota.
  unfold unwrap. rewrite patch_get_of_json, (dict_find_get _ _ _ Hc).
  cbn [hash_key container_find]. rewrite Hi.
  now rewrite patch_set_of_json.
Qed.

Lemma add_extra_struct_cases (a : MutatePatch.args) (ek : option string)
  (X : jdict) :
  exists N,
    MutatePatch.add_extra_struct a ek X = X ++ N
    /\ (N = []
        \/ exists e rec, ek = Some e /\ N = [(e, rec)]
                         /\ dict_mem X e = false).
Proof.
  unfold MutatePatch.add_extra_struct.
  destruct ek as [e|]; [|exists []; rewrite app_nil_r; auto].
  destruct (e =? ""); [exists []; rewrite app_nil_r; auto|].
  destruct (dict_mem X e) eqn:Em; [exists []; rewrite app_nil_r; auto|].
  eexists. split.
  - now apply dict_set_absent.
  - right. eauto.
Qed.

Lemma dict_find_single (k k' : string) (v : json) :
  dict_find [(k, v)] k' = if k' =? k then Some v else None.
Proof. reflexivity. Qed.

Lemma dict_mem_single (k k' : string) (v : json) :
  dict_mem [(k, v)] k' = (k' =? k).
Proof. rewrite dict_mem_find, dict_find_single. now destruct (k' =? k). Qed.

Lemma dict_pop_single (k k' : string) (v : json) :
  dict_pop [(k, v)] k' = if k' =? k then [] else [(k, v)].
Proof.
  unfold dict_pop, assoc_remove. cbn [filter fst].
  now destruct (k' =? k).
Qed.

(** The repair of a mutated patch, step by step. *)
Lemma repair_shape (a : MutatePatch.args) (l : MutatePatch.mutation_log)
  (patch fns : jdict) :
  log_consistent patch l ->
  dict_find patch CANON_KEY = Some (JDict fns) ->
  exists N logs,
    MutatePatch.add_extra_struct a (MutatePatch.ml_extra_struct_key l)
      (drift_core l patch)
    = drift_core l patch ++ N
    /\ (N = []
        \/ exists e rec, MutatePatch.ml_extra_struct_key l = Some e
                         /\ In e EXTRA_STRUCT_KEYS
                         /\ N = [(e, rec)] /\ dict_mem patch e = false)
    /\ apply_plan_to_patch
         (patch_of_json (drift_core l patch ++ N)) (inverse_plan l)
       = (patch_of_json (restored l patch N), Ok logs)
    /\ Forall (fun e => log_applied e = true) logs.
Proof.
  intros (Hany & Hr & Hw & He & Ho) Hf.
  pose proof (dict_find_get _ _ _ Hf) as Hg.
  assert (Hm : dict_mem patch CANON_KEY = true)
    by (rewrite dict_mem_find; now rewrite Hf).
  destruct (add_extra_struct_cases a (MutatePatch.ml_extra_struct_key l)
              (drift_core l patch)) as (N & HN & HNc).
  (* the noise key, when one is added, is a key of the vocabulary *)
  assert (HNe : N = []
                \/ exists e rec, MutatePatch.ml_extra_struct_key l = Some e
                     /\ In e EXTRA_STRUCT_KEYS /\ N = [(e, rec)]
                     /\ dict_mem (drift_core l patch) e = false).
  { destruct HNc as [-> | (e & rec & Hek & -> & Hme)]; auto.
    right. exists e, rec. repeat split; auto.
    destruct (MutatePatch.ml_use_extra_struct l).
    - destruct He as (e' & He' & Hin). congruence.
    - congruence. }
  clear HNc.
  unfold inverse_plan, restored, drift_core, drifted_value in *.
  rewrite Hg in *.
  destruct (MutatePatch.ml_use_rename l) eqn:Er.
  - destruct Hr as (r & Hrt & Hrin & Hrm). rewrite Hrt in *.
    destruct (rename_variant_facts r Hrin) as (Hr0 & Hrc & Hcr & Hre).
    set (v := match MutatePatch.ml_wrapper_key l with
              | Some w => JDict [(w, JDict fns)]
              | None => JDict fns
              end) in *.
    (* facts on the noise *)
    assert (HNr : dict_pop N r = N /\ dict_mem N CANON_KEY = false
                  /\ dict_mem N r = false).
    { destruct HNe as [-> | (e & rec & Hek & Hein & -> & Hme)]; auto.
      destruct (Hre e Hein) as [Her Hre'].
      destruct (extra_key_facts e Hein) as (He0 & Hec & Hce).
      rewrite dict_pop_single, !dict_mem_single, Hre', Hce. auto. }
    destruct HNr as (HNp & HNc & HNm).
    assert (HNP : N = []
                  \/ exists e rec, MutatePatch.ml_extra_struct_key l = Some e
                       /\ In e EXTRA_STRUCT_KEYS /\ N = [(e, rec)]
                       /\ dict_mem patch e = false).
    { destruct HNe as [-> | (e & rec & Hek & Hein & -> & Hme)]; auto.
      right. exists e, rec. repeat split; auto.
      destruct (extra_key_facts e Hein) as (He0 & Hec & Hce).
      rewrite dict_mem_app, dict_mem_pop, Hec in Hme.
      apply orb_false_iff in Hme. tauto. }
    set (M := (dict_pop patch CANON_KEY ++ [(r, v)]) ++ N) in *.
    assert (HMr : dict_find M r = Some v).
    { unfold M. rewrite !dict_find_app, dict_find_pop, Hrc.
      rewrite dict_mem_find in Hrm.
      destruct (dict_find patch r); [discriminate|].
      rewrite dict_find_single. now rewrite String.eqb_refl. }
    assert (HMc : dict_mem M CANON_KEY = false).
    { unfold M. rewrite !dict_mem_app, dict_mem_pop, String.eqb_refl, HNc.
      rewrite dict_mem_single, Hcr. reflexivity. }
    assert (HMp : dict_pop M r = dict_pop patch CANON_KEY ++ N).
    { unfold M. rewrite !dict_pop_app, HNp.
      rewrite (dict_pop_absent (dict_pop patch CANON_KEY) r).
      2:{ rewrite dict_mem_pop, Hrm. now rewrite andb_false_r. }
      rewrite dict_pop_single, String.eqb_refl. now rewrite app_nil_r. }
    assert (HM2 : dict_mem (dict_pop patch CANON_KEY ++ N) CANON_KEY = false).
    { rewrite dict_mem_app, dict_mem_pop, String.eqb_refl, HNc.
      reflexivity. }
    pose proof (repair_rename_step 0 M r v Hr0 HMr HMc) as S1.
    rewrite HMp, (dict_set_absent _ _ _ HM2) in S1.
    exists N. unfold v in *.
    destruct (MutatePatch.ml_wrapper_key l) as [w|] eqn:Ewk.
    + assert (Hw0 : (w =? "") = false).
      { destruct (MutatePatch.ml_use_wrap l).
        - destruct Hw as (w' & Hw' & Hwin). injection Hw' as <-.
          now apply wrapper_variant_facts.
        - discriminate. }
      pose proof (repair_unwrap_step 1
                    ((dict_pop patch CANON_KEY ++ N)
                     ++ [(CANON_KEY, JDict [(w, JDict fns)])])
                    [(w, JDict fns)] fns w Hw0) as S2.
      rewrite dict_find_app in S2.
      rewrite dict_mem_find in HM2.
      destruct (dict_find (dict_pop patch CANON_KEY ++ N) CANON_KEY) eqn:Ef;
        [discriminate|].
      rewrite dict_find_single, String.eqb_refl in S2.
      specialize (S2 eq_refl).
      rewrite dict_find_single, String.eqb_refl in S2.
      specialize (S2 eq_refl).
      rewrite dict_set_last in S2
        by (rewrite dict_mem_find, Ef; reflexivity).
      eexists. split; [exact HN|]. split; [exact HNP|]. split.
      * unfold apply_plan_to_patch. cbn [app].
        change (dict_get_default _ "actions" _)
          with (JList [rename_action r; unwrap_action w]).
        cbv iota beta.
        change (sorted_actions [rename_action r; unwrap_action w])
          with (Ok [rename_action r; unwrap_action w]).
        cbv iota beta. cbn [run_actions]. fold M. rewrite S1. rewrite S2.
        rewrite <- app_assoc. reflexivity.
      * repeat constructor.
    + eexists. split; [exact HN|]. split; [exact HNP|]. split.
      * unfold apply_plan_to_patch. cbn [app].
        change (dict_get_default _ "actions" _)
          with (JList [rename_action r]).
        cbv iota beta.
        change (sorted_actions [rename_action r])
          with (Ok [rename_action r]).
        cbv iota beta. cbn [run_actions]. fold M. rewrite S1.
        rewrite <- app_assoc. reflexivity.
      * repeat constructor.
  - rewrite Hr in *.
    assert (HNP : N = []
                  \/ exists e rec, MutatePatch.ml_extra_struct_key l = Some e
                       /\ In e EXTRA_STRUCT_KEYS /\ N = [(e, rec)]
                       /\ dict_mem patch e = false).
    { destruct HNe as [-> | (e & rec & Hek & Hein & -> & Hme)]; auto.
      right. exists e, rec. repeat split; auto.
      destruct (extra_key_facts e Hein) as (He0 & Hec & Hce).
      rewrite dict_mem_set, Hec in Hme. exact Hme. }
    exists N.
    destruct (MutatePatch.ml_wrapper_key l) as [w|] eqn:Ewk.
    + assert (Hw0 : (w =? "") = false).
      { destruct (MutatePatch.ml_use_wrap l).
        - destruct Hw as (w' & Hw' & Hwin). injection Hw' as <-.
          now apply wrapper_variant_facts.
        - discriminate. }
      set (M := dict_set patch CANON_KEY (JDict [(w, JDict fns)]) ++ N).
      assert (HMf : dict_find M CANON_KEY = Some (JDict [(w, JDict fns)])).
      { unfold M. rewrite dict_find_app, dict_find_set.
        now rewrite String.eqb_refl. }
      pose proof (repair_unwrap_step 0 M [(w, JDict fns)] fns w Hw0 HMf)
        as S2.
      rewrite dict_find_single, String.eqb_refl in S2.
      specialize (S2 eq_refl).
      assert (HR : dict_set M CANON_KEY (JDict fns) = patch ++ N).
      { unfold M. rewrite dict_set_app_present.
        - rewrite dict_set_set by exact Hm.
          now rewrite (dict_set_same _ _ _ Hf).
        - rewrite dict_mem_set. now rewrite String.eqb_refl. }
      rewrite HR in S2.
      eexists. split; [exact HN|]. split; [exact HNP|]. split.
      * unfold apply_plan_to_patch. cbn [app].
        change (dict_get_default _ "actions" _)
          with (JList [unwrap_action w]).
        cbv iota beta.
        change (sorted_actions [unwrap_action w])
          with (Ok [unwrap_action w]).
        cbv iota beta. cbn [run_actions]. fold M. rewrite S2. reflexivity.
      * repeat constructor.
    + exists []. split; [exact HN|]. split; [exact HNP|]. split.
      * rewrite (dict_set_same _ _ _ Hf). reflexivity.
      * constructor.
Qed.

(** * The order of the keys *)

Lemma ascii_compare_refl (x : ascii) : Ascii.compare x x = Eq.
Proof. unfold Ascii.compare. apply N.compare_refl. Qed.

Lemma ascii_compare_lt_trans (x y z : ascii) :
  Ascii.compare x y = Lt -> Ascii.compare y z = Lt ->
  Ascii.compare x z = Lt.
Proof.
  unfold Ascii.compare. rewrite !N.compare_lt_iff. lia.
Qed.

Lemma string_leb_trans (a b c : string) :
  String.leb a b = true -> String.leb b c = true -> String.leb a c = true.
Proof.
  unfold String.leb. revert b c.
  induction a as [|x a IH]; intros [|y b] [|z c]; simpl; try easy.
  destruct (Ascii.compare x y) eqn:Exy.
  - apply Ascii.compare_eq_iff in Exy. subst y.
    destruct (Ascii.compare x z) eqn:Exz; try easy.
    apply IH.
  - destruct (Ascii.compare y z) eqn:Eyz; try easy.
    + apply Ascii.compare_eq_iff in Eyz. subst z. now rewrite Exy.
    + now rewrite (ascii_compare_lt_trans _ _ _ Exy Eyz).
  - easy.
Qed.

Lemma string_leb_refl (a : string) : String.leb a a = true.
Proof. destruct (String.leb_total a a); auto. Qed.

Lemma insert_sorted_strongly (s : string) (l : list string) :
  StronglySorted str_le l -> StronglySorted str_le (Compare.insert_sorted s l).
Proof.
  induction 1 as [|x l Hs IH Hall]; simpl.
  - repeat constructor.
  - destruct (String.leb s x) eqn:E.
    + constructor; [now constructor|].
      constructor; auto.
      eapply Forall_impl; [|exact Hall].
      intros y Hy. eapply string_leb_trans; eauto.
    + constructor; auto.
      eapply Permutation_Forall.
      * symmetry. apply insert_sorted_perm.
      * constructor; auto.
        destruct (String.leb_total s x) as [H | H]; [congruence | exact H].
Qed.

Lemma sorted_strongly (l : list string) :
  StronglySorted str_le (Compare.sorted l).
Proof.
  induction l; simpl; [constructor | now apply insert_sorted_strongly].
Qed.

Lemma strongly_sorted_unique (l1 l2 : list string) :
  StronglySorted str_le l1 -> StronglySorted str_le l2 ->
  Permutation l1 l2 -> l1 = l2.
Proof.
  intros H1. revert l2.
  induction H1 as [|a l1 Hs1 IH Hall1]; intros l2 H2 Hp.
  - apply Permutation_nil in Hp. now subst.
  - destruct H2 as [|b l2 Hs2 Hall2].
    + apply Permutation_sym, Permutation_nil in Hp. discriminate.
    + assert (Hab : a = b).
      { rewrite Forall_forall in Hall1, Hall2.
        assert (Ha : In a (b :: l2))
          by (eapply Permutation_in; [exact Hp | now left]).
        assert (Hb : In b (a :: l1))
          by (eapply Permutation_in; [symmetry; exact Hp | now left]).
        destruct Ha as [Ha | Ha]; [now subst|].
        destruct Hb as [Hb | Hb]; [now subst|].
        apply String.leb_antisym; [apply Hall1 | apply Hall2]; auto. }
      subst b. f_equal. apply IH; auto.
      eapply Permutation_cons_inv; eauto.
Qed.

(** Sorting forgets the order the keys came in. *)
Lemma sorted_perm_eq (l l' : list string) :
  Permutation l l' -> Compare.sorted l = Compare.sorted l'.
Proof.
  intros H. apply strongly_sorted_unique; try apply sorted_strongly.
  rewrite (sorted_perm l), (sorted_perm l'). exact H.
Qed.

(** * Mutation, repair and verification together *)

Section EndToEnd.
Context {G : PRNG}.

(** On a canonical patch none of whose keys is a rename variant the
    mutator succeeds, whatever the mode, the seed and the order. *)
Lemma main_succeeds (ambient : rng_state) (a : MutatePatch.args)
  (patch fns : jdict) :
  dict_find patch CANON_KEY = Some (JDict fns) ->
  no_variant_present patch ->
  exists l,
    MutatePatch.main ambient a patch
    = (MutatePatch.add_extra_struct a (MutatePatch.ml_extra_struct_key l)
         (drift_core l patch), Ok l)
    /\ log_consistent patch l.
Proof.
  intros Hf Hno. unfold MutatePatch.main.
  rewrite dict_mem_find, Hf. cbn [negb].
  set (g := match MutatePatch.arg_seed a with
            | Some s => rng_seed s
            | None => ambient
            end).
  destruct (select_parameters_outcome a patch g)
    as [[l El] | (El & Hc & _)].
  - rewrite El. rewrite (dict_find_get _ _ _ Hf). cbn [is_dict negb].
    destruct (select_parameters_inv _ _ _ _ El) as [Hl _].
    rewrite (apply_drifts_shape a l patch fns Hl Hf Hno).
    exists l. auto.
  - exfalso.
    assert (Hin : In "function"
                    (filter (fun k => negb (dict_mem patch k))
                       RENAME_VARIANTS)).
    { apply filter_In. split; [simpl; tauto|].
      rewrite Hno; [reflexivity | simpl; tauto]. }
    rewrite Hc in Hin. destruct Hin.
Qed.

Lemma restored_find (l : MutatePatch.mutation_log) (patch N : jdict)
  (k : string) (v : json) :
  (N = []
   \/ exists e rec, MutatePatch.ml_extra_struct_key l = Some e
                    /\ In e EXTRA_STRUCT_KEYS
                    /\ N = [(e, rec)] /\ dict_mem patch e = false) ->
  dict_find patch k = Some v ->
  dict_find (restored l patch N) k = Some v.
Proof.
  intros HN Hk. unfold restored.
  destruct (MutatePatch.ml_rename_to l).
  - rewrite !dict_find_app, dict_find_pop.
    destruct (k =? CANON_KEY) eqn:E.
    + apply String.eqb_eq in E. subst k.
      assert (HNc : dict_find N CANON_KEY = None).
      { destruct HN as [-> | (e & rec & _ & Hein & -> & _)]; auto.
        destruct (extra_key_facts e Hein) as (_ & _ & Hce).
        now rewrite dict_find_single, Hce. }
      rewrite HNc, dict_find_single, String.eqb_refl.
      now rewrite (dict_find_get _ _ _ Hk).
    + now rewrite Hk.
  - rewrite dict_find_app. now rewrite Hk.
Qed.

(** X7: on a canonical patch none of whose keys is a rename variant, the
    mutator succeeds in every mode, and the plan that names the rename
    target and the wrapper key of its log undoes the drift: every action
    is logged as applied, and the repaired patch is the original followed
    by the noise entry when there is one, with the functions container
    moved to the end when it had been renamed.  Every key of the original
    holds in the repaired patch what it held. *)
Theorem mutate_then_repair (ambient : rng_state) (a : MutatePatch.args)
  (patch fns : jdict) :
  dict_find patch CANON_KEY = Some (JDict fns) ->
  no_variant_present patch ->
  exists mutated l N logs,
    MutatePatch.main ambient a patch = (mutated, Ok l)
    /\ (N = []
        \/ exists e rec, MutatePatch.ml_extra_struct_key l = Some e
                         /\ In e EXTRA_STRUCT_KEYS
                         /\ N = [(e, rec)] /\ dict_mem patch e = false)
    /\ apply_plan_to_patch (patch_of_json mutated) (inverse_plan l)
       = (patch_of_json (restored l patch N), Ok logs)
    /\ Forall (fun e => log_applied e = true) logs
    /\ forall k v, dict_find patch k = Some v ->
                   dict_find (restored l patch N) k = Some v.
Proof.
  intros Hf Hno.
  destruct (main_succeeds ambient a patch fns Hf Hno) as (l & Hmain & Hl).
  destruct (repair_shape a l patch fns Hl Hf) as (N & logs & HN & HNc & Hr & Ha).
  exists (drift_core l patch ++ N), l, N, logs.
  rewrite Hmain, HN.
  repeat split; auto.
  intros k v. now apply restored_find.
Qed.

Lemma top_level_keys_restored (l : MutatePatch.mutation_log)
  (patch N : jdict) :
  NoDup (dict_keys patch) ->
  dict_mem patch CANON_KEY = true ->
  (N = []
   \/ exists e rec, MutatePatch.ml_extra_struct_key l = Some e
                    /\ In e EXTRA_STRUCT_KEYS
                    /\ N = [(e, rec)] /\ dict_mem patch e = false) ->
  Compare.top_level_keys (restored l patch N) = Compare.top_level_keys patch.
Proof.
  intros Hnd Hm HN.
  assert (HNk : filter (fun k => negb (Compare.str_in k EXTRA_STRUCT_KEYS))
                  (dict_keys N) = []).
  { destruct HN as [-> | (e & rec & _ & Hein & -> & _)]; auto.
    unfold dict_keys, assoc_keys. cbn [map fst filter].
    apply str_in_In in Hein. now rewrite Hein. }
  unfold Compare.top_level_keys, restored.
  destruct (MutatePatch.ml_rename_to l).
  - apply sorted_perm_eq.
    unfold dict_keys, assoc_keys in *.
    rewrite !map_app, !filter_app, HNk.
    fold (dict_keys (dict_pop patch CANON_KEY)).
    rewrite dict_keys_pop. unfold dict_keys, assoc_keys.
    cbn [map fst app].
    rewrite <- filter_app.
    apply filter_perm.
    apply dict_mem_In in Hm. unfold dict_keys, assoc_keys in Hm.
    apply Permutation_sym.
    etransitivity;
      [|apply Permutation_cons_append].
    apply NoDup_Permutation; auto.
    + constructor.
      * intros H. apply filter_In in H. destruct H as [_ H].
        now rewrite String.eqb_refl in H.
      * now apply NoDup_filter.
    + intros x. split.
      * intros Hx. destruct (string_dec CANON_KEY x) as [<- | Hne].
        -- now left.
        -- right. apply filter_In. split; auto.
           apply String.eqb_neq in Hne. now rewrite Hne.
      * intros [<- | Hx]; auto.
        apply filter_In in Hx. tauto.
  - unfold dict_keys, assoc_keys in *.
    now rewrite map_app, filter_app, HNk, app_nil_r.
Qed.

(** X8: under the same conditions, and when the keys of the patch are
    distinct, the verifier passes the repaired patch on both checks and
    reports the same count and the same digest for both sides. *)
Theorem mutate_repair_verify (h : string -> string) (ambient : rng_state)
  (a : MutatePatch.args) (patch fns : jdict) :
  dict_find patch CANON_KEY = Some (JDict fns) ->
  no_variant_present patch ->
  NoDup (dict_keys patch) ->
  exists mutated l repaired logs,
    MutatePatch.main ambient a patch = (mutated, Ok l)
    /\ apply_plan_to_patch (patch_of_json mutated) (inverse_plan l)
       = (patch_of_json repaired, Ok logs)
    /\ Compare.functions_keyset_pass (Compare.main h patch repaired) = true
    /\ Compare.top_level_pass (Compare.main h patch repaired) = true
    /\ Compare.original_hash (Compare.main h patch repaired)
       = Compare.repaired_hash (Compare.main h patch repaired)
    /\ Compare.original_count (Compare.main h patch repaired)
       = Compare.repaired_count (Compare.main h patch repaired).
Proof.
  intros Hf Hno Hnd.
  destruct (main_succeeds ambient a patch fns Hf Hno) as (l & Hmain & Hl).
  destruct (repair_shape a l patch fns Hl Hf) as (N & logs & HN & HNc & Hr & Ha).
  exists (drift_core l patch ++ N), l, (restored l patch N), logs.
  rewrite Hmain, HN.
  assert (Hm : dict_mem patch CANON_KEY = true)
    by (rewrite dict_mem_find; now rewrite Hf).
  pose proof (restored_find l patch N CANON_KEY _ HNc Hf) as Hrf.
  assert (Hsum : Compare.summarize_functions h (restored l patch N)
                 = Compare.summarize_functions h patch).
  { unfold Compare.summarize_functions, dict_get_default.
    now rewrite Hrf, Hf. }
  pose proof (top_level_keys_restored l patch N Hnd Hm HNc) as Htop.
  split; [reflexivity|]. split; [exact Hr|].
  rewrite main_functions_keyset_pass, main_top_level_pass, Hsum, Htop.
  repeat split.
  - now apply keys_eqb_eq.
  - now apply keys_eqb_eq.
  - unfold Compare.main. rewrite Hsum.
    now destruct (Compare.summarize_functions h patch) as [[? ?] ?].
  - unfold Compare.main. rewrite Hsum.
    now destruct (Compare.summarize_functions h patch) as [[? ?] ?].
Qed.
End EndToEnd.

Lemma canonical_patch_no_variant : no_variant_present canonical_patch.
Proof.
  intros k H. simpl in H. intuition; subst; reflexivity.
Qed.

Lemma canonical_patch_nodup : NoDup (dict_keys canonical_patch).
Proof.
  repeat constructor; simpl; intuition discriminate.
Qed.


Lemma mutate_then_repair_witness :
  exists mutated l N logs,
    @MutatePatch.main counter_rng 0%nat
      (trial_args MutatePatch.ModeAll 7) canonical_patch = (mutated, Ok l)
    /\ (N = []
        \/ exists e rec, MutatePatch.ml_extra_struct_key l = Some e
                         /\ In e EXTRA_STRUCT_KEYS
                         /\ N = [(e, rec)]
                         /\ dict_mem canonical_patch e = false)
    /\ apply_plan_to_patch (patch_of_json mutated) (inverse_plan l)
       = (patch_of_json (restored l canonical_patch N), Ok logs)
    /\ Forall (fun e => log_applied e = true) logs
    /\ forall k v, dict_find canonical_patch k = Some v ->
                   dict_find (restored l canonical_patch N) k = Some v.
Proof.
  apply (@mutate_then_repair counter_rng 0%nat
           (trial_args MutatePatch.ModeAll 7) canonical_patch
           [ ("f1", JDict [("co_argcount", JNum 1)]);
             ("f2", JDict [("co_argcount", JNum 2)]) ]).
  - reflexivity.
  - exact canonical_patch_no_variant.
Defined.

Lemma mutate_repair_verify_witness :
  exists mutated l repaired logs,
    @MutatePatch.main counter_rng 0%nat
      (trial_args MutatePatch.ModeAll 7) canonical_patch = (mutated, Ok l)
    /\ apply_plan_to_patch (patch_of_json mutated) (inverse_plan l)
       = (patch_of_json repaired, Ok logs)
    /\ Compare.functions_keyset_pass
         (Compare.main stub_digest canonical_patch repaired) = true
    /\ Compare.top_level_pass
         (Compare.main stub_digest canonical_patch repaired) = true
    /\ Compare.original_hash
         (Compare.main stub_digest canonical_patch repaired)
       = Compare.repaired_hash
           (Compare.main stub_digest canonical_patch repaired)
    /\ Compare.original_count
         (Compare.main stub_digest canonical_patch repaired)
       = Compare.repaired_count
           (Compare.main stub_digest canonical_patch repaired).
Proof.
  apply (@mutate_repair_verify counter_rng stub_digest 0%nat
           (trial_args MutatePatch.ModeAll 7) canonical_patch
           [ ("f1", JDict [("co_argcount", JNum 1)]);
             ("f2", JDict [("co_argcount", JNum 2)]) ]).
  - reflexivity.
  - exact canonical_patch_no_variant.
  - exact canonical_patch_nodup.
Defined.

(** * The order of rename and wrap *)

Lemma log_consistent_with_order (patch : jdict)
  (l : MutatePatch.mutation_log) (o : string) :
  log_consistent patch l ->
  MutatePatch.ml_use_rename l = true -> MutatePatch.ml_use_wrap l = true ->
  o = "rename_then_wrap" \/ o = "wrap_then_rename" ->
  log_consistent patch (with_order l o).
Proof.
  intros (Hany & Hr & Hw & He & Ho) Er Ew Hoo.
  unfold log_consistent, with_order. cbn.
  rewrite Er, Ew in *. repeat split; auto.
Qed.

(** X9: when no rename variant is already a key of the patch, the two
    orders of rename and wrap give the same mutated patch for the same
    rename target, wrapper key and noise key. *)
Theorem drift_orders_agree (a : MutatePatch.args)
  (l : MutatePatch.mutation_log) (patch fns : jdict) :
  log_consistent patch l ->
  MutatePatch.ml_use_rename l = true -> MutatePatch.ml_use_wrap l = true ->
  dict_find patch CANON_KEY = Some (JDict fns) ->
  no_variant_present patch ->
  MutatePatch.apply_drifts a (with_order l "rename_then_wrap") patch
  = MutatePatch.apply_drifts a (with_order l "wrap_then_rename") patch.
Proof.
  intros Hl Er Ew Hf Hno.
  rewrite (apply_drifts_shape a _ patch fns
             (log_consistent_with_order _ _ _ Hl Er Ew (or_introl eq_refl))
             Hf Hno).
  rewrite (apply_drifts_shape a _ patch fns
             (log_consistent_with_order _ _ _ Hl Er Ew (or_intror eq_refl))
             Hf Hno).
  reflexivity.
Qed.

Lemma drift_orders_agree_witness :
  MutatePatch.apply_drifts (trial_args MutatePatch.ModeBoth 7)
    (with_order
       {| MutatePatch.ml_trial_id := Some 7%Z;
          MutatePatch.ml_seed := Some 7%Z;
          MutatePatch.ml_mode := "both";
          MutatePatch.ml_use_rename := true;
          MutatePatch.ml_rename_to := Some "funcs";
          MutatePatch.ml_use_wrap := true;
          MutatePatch.ml_wrapper_key := Some "wrapped";
          MutatePatch.ml_use_extra_struct := false;
          MutatePatch.ml_extra_struct_key := None;
          MutatePatch.ml_order := "rename_then_wrap" |}
       "rename_then_wrap") canonical_patch
  = MutatePatch.apply_drifts (trial_args MutatePatch.ModeBoth 7)
      (with_order
         {| MutatePatch.ml_trial_id := Some 7%Z;
            MutatePatch.ml_seed := Some 7%Z;
            MutatePatch.ml_mode := "both";
            MutatePatch.ml_use_rename := true;
            MutatePatch.ml_rename_to := Some "funcs";
            MutatePatch.ml_use_wrap := true;
            MutatePatch.ml_wrapper_key := Some "wrapped";
            MutatePatch.ml_use_extra_struct := false;
            MutatePatch.ml_extra_struct_key := None;
            MutatePatch.ml_order := "rename_then_wrap" |}
         "wrap_then_rename") canonical_patch.
Proof.
  apply (drift_orders_agree (trial_args MutatePatch.ModeBoth 7) _
           canonical_patch
           [ ("f1", JDict [("co_argcount", JNum 1)]);
             ("f2", JDict [("co_argcount", JNum 2)]) ]).
  - unfold log_consistent. cbn.
    split; [reflexivity|].
    split; [exists "funcs"; split; [reflexivity|]; split;
            [simpl; tauto | reflexivity]|].
    split; [exists "wrapped"; split; [reflexivity | simpl; tauto]|].
    split; [reflexivity | now left].
  - reflexivity.
  - reflexivity.
  - reflexivity.
  - exact canonical_patch_no_variant.
Defined.

Section WrongContainer.
Context {G : PRNG}.

Lemma select_parameters_fixed_order (a : MutatePatch.args) (patch : jdict)
  (g : rng_state) (l : MutatePatch.mutation_log) :
  MutatePatch.select_parameters a patch g = Ok l ->
  MutatePatch.ml_use_rename l = true -> MutatePatch.ml_use_wrap l = true ->
  MutatePatch.arg_order a <> MutatePatch.OrderRandom ->
  MutatePatch.ml_order l = MutatePatch.order_name (MutatePatch.arg_order a).
Proof.
  unfold MutatePatch.select_parameters.
  destruct (MutatePatch.choose_drifts (MutatePatch.arg_mode a) g)
    as [[[[r w] e] g1]|]; cbn [bind]; [|discriminate].
  destruct (if r
            then match filter (fun k => negb (dict_mem patch k))
                         RENAME_VARIANTS with
                 | [] => Raise (RuntimeError "No available rename targets")
                 | _ :: _ =>
                     MutatePatch.choice_if true g1
                       (filter (fun k => negb (dict_mem patch k))
                          RENAME_VARIANTS)
                 end
            else Ok (None, g1)) as [[rt g2]|]; cbn [bind]; [|discriminate].
  destruct (MutatePatch.choice_if w g2 WRAPPER_VARIANTS) as [[wk g3]|];
    cbn [bind]; [|discriminate].
  destruct (MutatePatch.choice_if e g3 EXTRA_STRUCT_KEYS) as [[ek g4]|];
    cbn [bind]; [|discriminate].
  destruct r, w; cbn [andb];
    try (intros H; injection H as <-; cbn; discriminate).
  destruct (MutatePatch.arg_order a); cbn [bind].
  - intros H. now injection H as <-.
  - intros H. now injection H as <-.
  - intros _ _ _ H. contradiction.
Qed.

(** X10: whenever the mutator has selected a rename and a wrap in the
    order rename_then_wrap, the wrap goes to whatever
    [current_functions_key] finds after the rename, and that is the first
    rename variant present, not the rename target.  On a patch whose
    canonical key holds a mapping and which already has the key
    "function", the wrap therefore misses the functions container: when
    "function" holds a mapping, that mapping is wrapped and the functions
    container, moved under the rename target, stays unwrapped although
    the log records a wrap; when it holds anything else, the mutator
    raises [TypeError] after the rename.  The modes both and all with the
    order rename_then_wrap select just that whenever a rename variant is
    free. *)
Theorem rename_then_wrap_misses_container (ambient : rng_state)
  (a : MutatePatch.args) (patch fns : jdict) (v : json) :
  dict_find patch CANON_KEY = Some (JDict fns) ->
  dict_find patch "function" = Some v ->
  (forall l,
     MutatePatch.select_parameters a patch
       (match MutatePatch.arg_seed a with
        | Some s => rng_seed s
        | None => ambient
        end) = Ok l ->
     MutatePatch.ml_use_rename l = true ->
     MutatePatch.ml_use_wrap l = true ->
     MutatePatch.ml_order l = "rename_then_wrap" ->
     exists r w,
       MutatePatch.ml_rename_to l = Some r
       /\ MutatePatch.ml_wrapper_key l = Some w
       /\ r <> "function"
       /\ if is_dict v
          then exists mutated,
                 MutatePatch.main ambient a patch = (mutated, Ok l)
                 /\ dict_find mutated r = Some (JDict fns)
                 /\ dict_find mutated "function" = Some (JDict [(w, v)])
          else MutatePatch.main ambient a patch
               = (dict_pop patch CANON_KEY ++ [(r, JDict fns)],
                  Raise (TypeError
                    "Expected patch['function'] to be a dict before wrapping.")))
  /\ ((MutatePatch.arg_mode a = MutatePatch.ModeBoth
       \/ MutatePatch.arg_mode a = MutatePatch.ModeAll) ->
      MutatePatch.arg_order a = MutatePatch.OrderRenameThenWrap ->
      (exists k, In k RENAME_VARIANTS /\ dict_mem patch k = false) ->
      exists l,
        MutatePatch.select_parameters a patch
          (match MutatePatch.arg_seed a with
           | Some s => rng_seed s
           | None => ambient
           end) = Ok l
        /\ MutatePatch.ml_use_rename l = true
        /\ MutatePatch.ml_use_wrap l = true
        /\ MutatePatch.ml_order l = "rename_then_wrap").
Proof.
  intros Hf Hv.
  assert (Hm : dict_mem patch CANON_KEY = true)
    by (rewrite dict_mem_find; now rewrite Hf).
  set (g := match MutatePatch.arg_seed a with
            | Some s => rng_seed s
            | None => ambient
            end).
  split.
  - intros l El Er Ew Hord.
    destruct (select_parameters_inv _ _ _ _ El)
      as ((Hany & Hr & Hw & He & Ho) & _).
    rewrite Er in Hr. rewrite Ew in Hw.
    destruct Hr as (r & Hrt & Hrin & Hrm).
    destruct Hw as (w & Hwk & Hwin).
    destruct (rename_variant_facts r Hrin) as (Hr0 & Hrc & Hcr & _).
    assert (Hrf : (r =? "function") = false).
    { destruct (r =? "function") eqn:E; auto.
      apply String.eqb_eq in E. subst r.
      rewrite dict_mem_find, Hv in Hrm. discriminate. }
    exists r, w. split; [exact Hrt|]. split; [exact Hwk|].
    split; [now apply String.eqb_neq|].
    unfold MutatePatch.main. rewrite Hm. cbn [negb]. fold g.
    rewrite El. rewrite (dict_find_get _ _ _ Hf). cbn [is_dict negb].
    unfold MutatePatch.apply_drifts.
    rewrite Er, Ew, Hord, Hrt, Hwk. cbn [andb].
    change ("rename_then_wrap" =? "rename_then_wrap") with true. cbv iota.
    assert (Hren : MutatePatch.rename_container (Some r) patch
                   = dict_pop patch CANON_KEY ++ [(r, JDict fns)]).
    { unfold MutatePatch.rename_container.
      rewrite Hr0, Hm, Hrm. cbn [negb andb].
      rewrite (dict_find_get _ _ _ Hf).
      apply dict_set_absent.
      rewrite dict_mem_pop, Hrm. now rewrite andb_false_r. }
    rewrite Hren.
    set (M1 := dict_pop patch CANON_KEY ++ [(r, JDict fns)]).
    assert (H1 : dict_find M1 "function" = Some v).
    { unfold M1. rewrite dict_find_app, dict_find_pop.
      change ("function" =? CANON_KEY) with false. cbv iota.
      now rewrite Hv. }
    assert (Hk : find_functions_key M1 = Some "function").
    { unfold find_functions_key.
      replace (dict_mem M1 CANON_KEY) with false.
      - unfold RENAME_VARIANTS, first_present.
        now rewrite dict_mem_find, H1.
      - unfold M1. rewrite dict_mem_app, dict_mem_pop, String.eqb_refl.
        rewrite dict_mem_single, Hcr. reflexivity. }
    unfold MutatePatch.wrap_current, MutatePatch.current_functions_key.
    rewrite Hk, (dict_find_get _ _ _ H1).
    destruct (is_dict v) eqn:Ed; cbn [negb]; cbv iota.
    + set (M2 := MutatePatch.wrap_container (Some w) "function" M1).
      assert (H2r : dict_find M2 r = Some (JDict fns)).
      { unfold M2, MutatePatch.wrap_container. rewrite dict_find_set, Hrf.
        unfold M1. rewrite dict_find_app, dict_find_pop, Hrc.
        rewrite dict_mem_find in Hrm.
        destruct (dict_find patch r); [discriminate|].
        rewrite dict_find_single. now rewrite String.eqb_refl. }
      assert (H2f : dict_find M2 "function" = Some (JDict [(w, v)])).
      { unfold M2, MutatePatch.wrap_container.
        rewrite dict_find_set, String.eqb_refl.
        now rewrite (dict_find_get _ _ _ H1). }
      assert (Hx : forall k, In k RENAME_VARIANTS ->
                forall e, MutatePatch.ml_extra_struct_key l = Some e ->
                          (k =? e) = false).
      { intros k Hkin e Ee.
        destruct (MutatePatch.ml_use_extra_struct l).
        - destruct He as (e' & Ee' & Hin). rewrite Ee in Ee'.
          injection Ee' as <-.
          destruct (rename_variant_facts k Hkin) as (_ & _ & _ & Hd).
          now destruct (Hd e Hin).
        - rewrite He in Ee. discriminate. }
      exists (MutatePatch.add_extra_struct a
                (MutatePatch.ml_extra_struct_key l) M2).
      split; [reflexivity|]. split.
      * rewrite add_extra_struct_find; [exact H2r | now apply Hx].
      * rewrite add_extra_struct_find; [exact H2f|].
        apply Hx. simpl. tauto.
    + reflexivity.
  - intros Hmode Horder (k0 & Hk0 & Hk0m).
    destruct (select_parameters_outcome a patch g)
      as [[l El] | (El & Hc & _)].
    2:{ exfalso.
        assert (Hin : In k0 (filter (fun k => negb (dict_mem patch k))
                               RENAME_VARIANTS)).
        { apply filter_In. split; auto. now rewrite Hk0m. }
        rewrite Hc in Hin. destruct Hin. }
    exists l. split; [exact El|].
    destruct (select_parameters_inv _ _ _ _ El) as (_ & Hflags & _).
    assert (Hrw : MutatePatch.ml_use_rename l = true
                  /\ MutatePatch.ml_use_wrap l = true).
    { destruct Hmode as [Hmode | Hmode]; rewrite Hmode in Hflags;
        cbn in Hflags; injection Hflags as Er Ew Ee; auto. }
    destruct Hrw as [Er Ew]. split; [exact Er|]. split; [exact Ew|].
    pose proof (select_parameters_fixed_order _ _ _ _ El Er Ew) as Hord.
    rewrite Horder in Hord. apply Hord. discriminate.
Qed.
End WrongContainer.

Lemma rename_then_wrap_misses_container_witness :
  exists r w,
    Some "funcs" = Some r
    /\ Some "new_schema" = Some w
    /\ r <> "function"
    /\ @MutatePatch.main counter_rng 0%nat (all_rename_then_wrap_args 1)
         legacy_patch
       = (dict_pop legacy_patch CANON_KEY
          ++ [(r, JDict [("f1", JDict [("co_argcount", JNum 1)])])],
          Raise (TypeError
            "Expected patch['function'] to be a dict before wrapping.")).
Proof.
  apply (proj1 (@rename_then_wrap_misses_container counter_rng 0%nat
                  (all_rename_then_wrap_args 1) legacy_patch
                  [("f1", JDict [("co_argcount", JNum 1)])] (JStr "legacy")
                  eq_refl eq_refl)
           {| MutatePatch.ml_trial_id := Some 1%Z;
              MutatePatch.ml_seed := Some 1%Z;
              MutatePatch.ml_mode := "all";
              MutatePatch.ml_use_rename := true;
              MutatePatch.ml_rename_to := Some "funcs";
              MutatePatch.ml_use_wrap := true;
              MutatePatch.ml_wrapper_key := Some "new_schema";
              MutatePatch.ml_use_extra_struct := true;
              MutatePatch.ml_extra_struct_key := Some "temp_struct";
              MutatePatch.ml_order := "rename_then_wrap" |});
    reflexivity.
Defined.

(** The same selection on a patch whose key "function" holds a mapping:
    the mutator succeeds, the log records a wrap, and the functions
    container sits unwrapped under the rename target. *)
Lemma rename_then_wrap_wraps_bystander :
  @MutatePatch.main counter_rng 0%nat (all_rename_then_wrap_args 1)
    [ ("functions", JDict [("f1", JDict [("co_argcount", JNum 1)])]);
      ("function", JDict [("old", JNum 0)]) ]
  = ([ ("function", JDict [("new_schema", JDict [("old", JNum 0)])]);
       ("funcs", JDict [("f1", JDict [("co_argcount", JNum 1)])]);
       ("temp_struct",
        JDict [ ("note", JStr "extra_struct noise field (ignorable)");
                ("trial_id", JNum 1); ("seed", JNum 1) ]) ],
     Ok {| MutatePatch.ml_trial_id := Some 1%Z;
           MutatePatch.ml_seed := Some 1%Z;
           MutatePatch.ml_mode := "all";
           MutatePatch.ml_use_rename := true;
           MutatePatch.ml_rename_to := Some "funcs";
           MutatePatch.ml_use_wrap := true;
           MutatePatch.ml_wrapper_key := Some "new_schema";
           MutatePatch.ml_use_extra_struct := true;
           MutatePatch.ml_extra_struct_key := Some "temp_struct";
           MutatePatch.ml_order := "rename_then_wrap" |}).
Proof. reflexivity. Qed.

(** * The excerpt of a mutated patch *)

Lemma filter_eqb_nodup (l : list string) (r : string) :
  NoDup l -> In r l -> filter (fun k => k =? r) l = [r].
Proof.
  induction 1 as [|x l Hx Hnd IH]; intros Hin; [destruct Hin|].
  simpl. destruct (x =? r) eqn:E.
  - apply String.eqb_eq in E. subst x. f_equal.
    clear IH Hin. induction l as [|y l IHl]; auto.
    simpl. destruct (y =? r) eqn:Ey.
    + apply String.eqb_eq in Ey. subst. exfalso. apply Hx. now left.
    + apply IHl.
      * intros H. apply Hx. now right.
      * now inversion Hnd.
  - destruct Hin as [-> | Hin]; [now rewrite String.eqb_refl in E|].
    now apply IH.
Qed.

Lemma filter_false {A : Type} (f : A -> bool) (l : list A) :
  (forall x, In x l -> f x = false) -> filter f l = [].
Proof.
  induction l as [|x l IH]; intros H; auto.
  simpl. rewrite (H x (or_introl eq_refl)).
  apply IH. intros y Hy. apply H. now right.
Qed.

Lemma rename_variants_nodup : NoDup RENAME_VARIANTS.
Proof. repeat constructor; simpl; intuition discriminate. Qed.

Lemma first_dict_valued_single (variants : list string) (w : string)
  (v : json) :
  In w variants -> is_dict v = true ->
  first_dict_valued variants [(w, v)] = Some w.
Proof.
  intros Hin Hv.
  induction variants as [|k rest IH]; [destruct Hin|].
  simpl. unfold dict_get, dict_get_default. rewrite dict_find_single.
  destruct (k =? w) eqn:E.
  - apply String.eqb_eq in E. subst k. now rewrite Hv.
  - simpl. destruct Hin as [-> | Hin];
      [now rewrite String.eqb_refl in E | now apply IH].
Qed.

(** Where the drifts leave the functions container, and which of the
    canonical key and the rename variants are keys afterwards. *)
Lemma mutated_lookup (l : MutatePatch.mutation_log) (patch fns N : jdict) :
  log_consistent patch l ->
  dict_find patch CANON_KEY = Some (JDict fns) ->
  no_variant_present patch ->
  (N = []
   \/ exists e rec, MutatePatch.ml_extra_struct_key l = Some e
                    /\ In e EXTRA_STRUCT_KEYS
                    /\ N = [(e, rec)] /\ dict_mem patch e = false) ->
  let M := drift_core l patch ++ N in
  dict_mem M CANON_KEY
  = match MutatePatch.ml_rename_to l with Some _ => false | None => true end
  /\ (forall k, In k RENAME_VARIANTS ->
        dict_mem M k
        = match MutatePatch.ml_rename_to l with
          | Some r => k =? r
          | None => false
          end)
  /\ dict_find M (match MutatePatch.ml_rename_to l with
                  | Some r => r
                  | None => CANON_KEY
                  end)
     = Some (drifted_value l (JDict fns)).
Proof.
  intros (Hany & Hr & Hw & He & Ho) Hf Hno HN M.
  pose proof (dict_find_get _ _ _ Hf) as Hg.
  assert (Hm : dict_mem patch CANON_KEY = true)
    by (rewrite dict_mem_find; now rewrite Hf).
  assert (HNc : dict_mem N CANON_KEY = false).
  { destruct HN as [-> | (e & rec & _ & Hein & -> & _)]; auto.
    destruct (extra_key_facts e Hein) as (_ & _ & Hce).
    now rewrite dict_mem_single. }
  assert (HNk : forall k, In k RENAME_VARIANTS -> dict_mem N k = false).
  { intros k Hk.
    destruct HN as [-> | (e & rec & _ & Hein & -> & _)]; auto.
    destruct (rename_variant_facts k Hk) as (_ & _ & _ & Hke).
    rewrite dict_mem_single. now destruct (Hke e Hein). }
  unfold M, drift_core. rewrite Hg.
  destruct (MutatePatch.ml_use_rename l).
  - destruct Hr as (r & Hrt & Hrin & Hrm). rewrite Hrt.
    destruct (rename_variant_facts r Hrin) as (Hr0 & Hrc & Hcr & _).
    repeat split.
    + rewrite !dict_mem_app, dict_mem_pop, String.eqb_refl, HNc.
      rewrite dict_mem_single, Hcr. reflexivity.
    + intros k Hk.
      rewrite !dict_mem_app, dict_mem_pop, (Hno k Hk), (HNk k Hk).
      rewrite dict_mem_single, andb_false_r, orb_false_r. reflexivity.
    + rewrite !dict_find_app, dict_find_pop, Hrc.
      rewrite dict_mem_find in Hrm.
      destruct (dict_find patch r); [discriminate|].
      rewrite dict_find_single. now rewrite String.eqb_refl.
  - rewrite Hr. repeat split.
    + rewrite dict_mem_app, dict_mem_set, String.eqb_refl. reflexivity.
    + intros k Hk.
      destruct (rename_variant_facts k Hk) as (_ & Hkc & _ & _).
      rewrite dict_mem_app, dict_mem_set, Hkc, (Hno k Hk), (HNk k Hk).
      reflexivity.
    + rewrite dict_find_app, dict_find_set, String.eqb_refl. reflexivity.
Qed.

Section ExcerptOfMutated.
Context {G : PRNG}.

(** X11: on a canonical patch none of whose keys is a rename variant,
    the excerpt of the mutated patch gives away the drift: it names the
    key the functions container went to, says whether the canonical key
    is left, lists the rename target as the one variant present, and,
    when the container was wrapped, names the wrapper key both through the
    vocabulary and through the single-key heuristic; without a wrap the
    sample shows the function names. *)
Theorem excerpt_of_mutated (ambient : rng_state) (a : MutatePatch.args)
  (patch fns : jdict) :
  dict_find patch CANON_KEY = Some (JDict fns) ->
  no_variant_present patch ->
  exists mutated l,
    MutatePatch.main ambient a patch = (mutated, Ok l)
    /\ functions_container_key (extract_excerpt mutated)
       = Some (match MutatePatch.ml_rename_to l with
               | Some r => r
               | None => CANON_KEY
               end)
    /\ has_canonical_functions (extract_excerpt mutated)
       = match MutatePatch.ml_rename_to l with
         | Some _ => false
         | None => true
         end
    /\ possible_renamed_functions_keys_present (extract_excerpt mutated)
       = match MutatePatch.ml_rename_to l with
         | Some r => [r]
         | None => []
         end
    /\ match MutatePatch.ml_wrapper_key l with
       | Some w =>
           functions_container_keys_sample (extract_excerpt mutated)
           = Some [w]
           /\ wrapper_key_detected_by_list (extract_excerpt mutated)
              = Some (Some w)
           /\ single_key_wrapper_heuristic (extract_excerpt mutated)
              = Some (w, firstn 25 (dict_keys fns))
       | None =>
           functions_container_keys_sample (extract_excerpt mutated)
           = Some (firstn 25 (dict_keys fns))
       end.
Proof.
  intros Hf Hno.
  destruct (main_succeeds ambient a patch fns Hf Hno) as (l & Hmain & Hl).
  destruct (repair_shape a l patch fns Hl Hf) as (N & _ & HN & HNc & _).
  destruct (mutated_lookup l patch fns N Hl Hf Hno HNc)
    as (Hcan & Hvar & Hfind).
  exists (drift_core l patch ++ N), l.
  rewrite Hmain, HN. split; [reflexivity|].
  set (M := drift_core l patch ++ N) in *.
  destruct Hl as (Hany & Hr & Hw & He & Ho).
  assert (Hkey : find_functions_key M
                 = Some (match MutatePatch.ml_rename_to l with
                         | Some r => r
                         | None => CANON_KEY
                         end)).
  { unfold find_functions_key. rewrite Hcan.
    destruct (MutatePatch.ml_use_rename l).
    - destruct Hr as (r & Hrt & Hrin & Hrm). rewrite Hrt in *.
      apply first_present_only; auto.
      + rewrite (Hvar r Hrin). apply String.eqb_refl.
      + intros k Hk Hne. rewrite (Hvar k Hk).
        now apply String.eqb_neq.
    - now rewrite Hr. }
  assert (Hne : forall r, MutatePatch.ml_rename_to l = Some r ->
                          (r =? "") = false).
  { intros r Hrt. destruct (MutatePatch.ml_use_rename l).
    - destruct Hr as (r' & Hrt' & Hrin & _).
      rewrite Hrt in Hrt'. injection Hrt' as <-.
      now destruct (rename_variant_facts r Hrin).
    - congruence. }
  assert (Hcont : functions_container_of M = drifted_value l (JDict fns)).
  { unfold functions_container_of. rewrite Hkey.
    destruct (MutatePatch.ml_rename_to l) as [r|] eqn:Ert.
    - rewrite (Hne r eq_refl). cbn [negb].
      now apply dict_find_get.
    - change (negb (CANON_KEY =? "")) with true. cbv iota.
      now apply dict_find_get. }
  unfold extract_excerpt.
  cbn [functions_container_key has_canonical_functions
       possible_renamed_functions_keys_present
       functions_container_keys_sample wrapper_key_detected_by_list
       single_key_wrapper_heuristic].
  rewrite Hcont, Hkey, Hcan.
  split; [reflexivity|]. split; [reflexivity|]. split.
  - rewrite (filter_ext_in _ _ _ Hvar).
    destruct (MutatePatch.ml_use_rename l).
    + destruct Hr as (r & Hrt & Hrin & Hrm). rewrite Hrt.
      apply filter_eqb_nodup; auto. apply rename_variants_nodup.
    + rewrite Hr. now apply filter_false.
  - unfold drifted_value.
    destruct (MutatePatch.ml_wrapper_key l) as [w|] eqn:Ewk.
    + assert (Hwin : In w WRAPPER_VARIANTS).
      { destruct (MutatePatch.ml_use_wrap l).
        - destruct Hw as (w' & Hw' & Hwin). now injection Hw' as <-.
        - discriminate. }
      repeat split.
      * unfold find_wrapper_key.
        now rewrite (first_dict_valued_single _ _ _ Hwin).
      * unfold dict_keys at 1. unfold assoc_keys. cbn [map fst].
        unfold dict_get, dict_get_default.
        rewrite dict_find_single, String.eqb_refl. reflexivity.
    + reflexivity.
Qed.
End ExcerptOfMutated.

Lemma excerpt_of_mutated_witness :
  exists mutated l,
    @MutatePatch.main counter_rng 0%nat
      (trial_args MutatePatch.ModeAll 7) canonical_patch = (mutated, Ok l)
    /\ functions_container_key (extract_excerpt mutated)
       = Some (match MutatePatch.ml_rename_to l with
               | Some r => r
               | None => CANON_KEY
               end)
    /\ has_canonical_functions (extract_excerpt mutated)
       = match MutatePatch.ml_rename_to l with
         | Some _ => false
         | None => true
         end
    /\ possible_renamed_functions_keys_present (extract_excerpt mutated)
       = match MutatePatch.ml_rename_to l with
         | Some r => [r]
         | None => []
         end
    /\ match MutatePatch.ml_wrapper_key l with
       | Some w =>
           functions_container_keys_sample (extract_excerpt mutated)
           = Some [w]
           /\ wrapper_key_detected_by_list (extract_excerpt mutated)
              = Some (Some w)
           /\ single_key_wrapper_heuristic (extract_excerpt mutated)
              = Some (w, firstn 25 (dict_keys
                   [ ("f1", JDict [("co_argcount", JNum 1)]);
                     ("f2", JDict [("co_argcount", JNum 2)]) ]))
       | None =>
           functions_container_keys_sample (extract_excerpt mutated)
           = Some (firstn 25 (dict_keys
                [ ("f1", JDict [("co_argcount", JNum 1)]);
                  ("f2", JDict [("co_argcount", JNum 2)]) ]))
       end.
Proof.
  apply (@excerpt_of_mutated counter_rng 0%nat
           (trial_args MutatePatch.ModeAll 7) canonical_patch
           [ ("f1", JDict [("co_argcount", JNum 1)]);
             ("f2", JDict [("co_argcount", JNum 2)]) ]).
  - reflexivity.
  - exact canonical_patch_no_variant.
Defined.

(** * What the two checks compare *)

Lemma sorted_eq_perm (a b : list string) :
  Compare.sorted a = Compare.sorted b <-> Permutation a b.
Proof.
  split.
  - intros H. rewrite <- (sorted_perm a), H. apply sorted_perm.
  - apply sorted_perm_eq.
Qed.

Lemma summarize_functions_dict (h : string -> string) (p fns : jdict) :
  dict_find p CANON_KEY = Some (JDict fns) ->
  Compare.summarize_functions h p
  = (List.length (Compare.sorted (dict_keys fns)),
     Compare.sorted (dict_keys fns),
     Compare.sha256_of_strings h (Compare.sorted (dict_keys fns))).
Proof.
  intros H. unfold Compare.summarize_functions, dict_get_default.
  now rewrite H.
Qed.

(** X12: the functions-keyset check passes exactly when the two functions
    containers have the same keys up to their order, and then the two
    digests and the two counts reported agree; the top-level check passes
    exactly when the two patches have the same keys outside the noise
    vocabulary, up to their order. *)
Theorem checks_compare_keysets (h : string -> string)
  (orig repaired fo fr : jdict) :
  dict_find orig CANON_KEY = Some (JDict fo) ->
  dict_find repaired CANON_KEY = Some (JDict fr) ->
  (Compare.functions_keyset_pass (Compare.main h orig repaired) = true
   <-> Permutation (dict_keys fo) (dict_keys fr))
  /\ (Compare.functions_keyset_pass (Compare.main h orig repaired) = true ->
      Compare.original_hash (Compare.main h orig repaired)
      = Compare.repaired_hash (Compare.main h orig repaired)
      /\ Compare.original_count (Compare.main h orig repaired)
         = Compare.repaired_count (Compare.main h orig repaired))
  /\ (Compare.top_level_pass (Compare.main h orig repaired) = true
      <-> Permutation
            (filter (fun k => negb (Compare.str_in k EXTRA_STRUCT_KEYS))
               (dict_keys orig))
            (filter (fun k => negb (Compare.str_in k EXTRA_STRUCT_KEYS))
               (dict_keys repaired))).
Proof.
  intros Ho Hr.
  pose proof (summarize_functions_dict h _ _ Ho) as So.
  pose proof (summarize_functions_dict h _ _ Hr) as Sr.
  split; [|split].
  - rewrite main_functions_keyset_pass, So, Sr. cbn [fst snd].
    rewrite keys_eqb_eq. apply sorted_eq_perm.
  - rewrite main_functions_keyset_pass, So, Sr. cbn [fst snd].
    rewrite keys_eqb_eq. intros E.
    unfold Compare.main. rewrite So, Sr. cbn.
    now rewrite E.
  - rewrite main_top_level_pass, keys_eqb_eq.
    unfold Compare.top_level_keys. apply sorted_eq_perm.
Qed.

Lemma checks_compare_keysets_witness :
  Compare.functions_keyset_pass
    (Compare.main stub_digest
       [("functions", JDict [("f1", JNull); ("f2", JNull)])]
       [("functions", JDict [("f2", JNull); ("f1", JNull)])]) = true.
Proof.
  apply (proj1 (checks_compare_keysets stub_digest
                  [("functions", JDict [("f1", JNull); ("f2", JNull)])]
                  [("functions", JDict [("f2", JNull); ("f1", JNull)])]
                  [("f1", JNull); ("f2", JNull)]
                  [("f2", JNull); ("f1", JNull)] eq_refl eq_refl)).
  apply perm_swap.
Defined.

(** * The samples of differing keys *)

Lemma sorted_In (l : list string) (x : string) :
  In x (Compare.sorted l) <-> In x l.
Proof.
  split; apply Permutation_in;
    [apply sorted_perm | symmetry; apply sorted_perm].
Qed.

Lemma firstn_In' {A : Type} (n : nat) (l : list A) (x : A) :
  In x (firstn n l) -> In x l.
Proof.
  revert l. induction n as [|n IH]; intros [|y l] H; simpl in *; auto.
  - destruct H.
  - destruct H as [H | H]; auto.
Qed.

Lemma diff_sample_In (a b : list string) (x : string) :
  In x (Compare.diff_sample a b) -> In x a /\ ~ In x b.
Proof.
  unfold Compare.diff_sample. intros H.
  apply firstn_In' in H. apply (proj1 (sorted_In _ _)) in H.
  apply (proj1 (nodup_In _ _ _)) in H.
  apply filter_In in H. destruct H as [Ha Hb]. split; auto.
  intros Hin. apply str_in_In in Hin. rewrite Hin in Hb. discriminate.
Qed.

Lemma diff_sample_nil (a b : list string) :
  Compare.diff_sample a b = [] -> forall x, In x a -> In x b.
Proof.
  unfold Compare.diff_sample. intros H x Hx.
  destruct (Compare.str_in x b) eqn:E; [now apply str_in_In|].
  exfalso.
  assert (Hin : In x (Compare.sorted
                        (nodup string_dec
                           (filter (fun k => negb (Compare.str_in k b)) a)))).
  { apply (proj2 (sorted_In _ _)). apply (proj2 (nodup_In _ _ _)).
    apply filter_In. split; auto. now rewrite E. }
  destruct (Compare.sorted _) as [|y l]; [destruct Hin|].
  discriminate.
Qed.

Lemma sorted_nodup (l : list string) : NoDup l -> NoDup (Compare.sorted l).
Proof.
  intros H. eapply Permutation_NoDup; [|exact H].
  symmetry. apply sorted_perm.
Qed.

(** X13: when the functions-keyset check fails on two patches whose
    functions containers have distinct keys, the report names at least one
    differing key; each sample has at most 25 keys, every key reported
    missing is a key of the original container and not of the repaired
    one, and every key reported extra is the other way round. *)
Theorem failure_names_a_key (h : string -> string)
  (orig repaired fo fr : jdict) :
  dict_find orig CANON_KEY = Some (JDict fo) ->
  dict_find repaired CANON_KEY = Some (JDict fr) ->
  NoDup (dict_keys fo) -> NoDup (dict_keys fr) ->
  Compare.functions_keyset_pass (Compare.main h orig repaired) = false ->
  (Compare.functions_missing_in_repaired (Compare.main h orig repaired) <> []
   \/ Compare.functions_extra_in_repaired (Compare.main h orig repaired) <> [])
  /\ (List.length (Compare.functions_missing_in_repaired
                     (Compare.main h orig repaired)) <= 25)%nat
  /\ (List.length (Compare.functions_extra_in_repaired
                     (Compare.main h orig repaired)) <= 25)%nat
  /\ (forall k, In k (Compare.functions_missing_in_repaired
                        (Compare.main h orig repaired)) ->
                In k (dict_keys fo) /\ ~ In k (dict_keys fr))
  /\ (forall k, In k (Compare.functions_extra_in_repaired
                        (Compare.main h orig repaired)) ->
                In k (dict_keys fr) /\ ~ In k (dict_keys fo)).
Proof.
  intros Ho Hr Ndo Ndr.
  pose proof (summarize_functions_dict h _ _ Ho) as So.
  pose proof (summarize_functions_dict h _ _ Hr) as Sr.
  rewrite main_functions_keyset_pass, So, Sr. cbn [fst snd].
  intros Hfail.
  unfold Compare.main. rewrite So, Sr.
  cbn [Compare.functions_missing_in_repaired
       Compare.functions_extra_in_repaired].
  rewrite Hfail.
  set (ko := Compare.sorted (dict_keys fo)) in *.
  set (kr := Compare.sorted (dict_keys fr)) in *.
  split; [|split; [|split; [|split]]].
  - destruct (Compare.diff_sample ko kr) eqn:E1; [|left; discriminate].
    destruct (Compare.diff_sample kr ko) eqn:E2; [|right; discriminate].
    exfalso.
    assert (Hp : Permutation ko kr).
    { apply NoDup_Permutation; try (apply sorted_nodup; assumption).
      intros x. split.
      - now apply diff_sample_nil.
      - now apply diff_sample_nil. }
    assert (Heq : ko = kr).
    { apply strongly_sorted_unique; auto; apply sorted_strongly. }
    apply keys_eqb_eq in Heq. congruence.
  - apply firstn_le_length.
  - apply firstn_le_length.
  - intros k Hk. apply diff_sample_In in Hk. destruct Hk as [H1 H2].
    split; [now apply (proj1 (sorted_In _ _)) in H1|].
    intros H3. apply H2. now apply (proj2 (sorted_In _ _)).
  - intros k Hk. apply diff_sample_In in Hk. destruct Hk as [H1 H2].
    split; [now apply (proj1 (sorted_In _ _)) in H1|].
    intros H3. apply H2. now apply (proj2 (sorted_In _ _)).
Qed.

Lemma failure_names_a_key_witness :
  Compare.functions_missing_in_repaired
    (Compare.main stub_digest
       [("functions", JDict [("f1", JNull); ("f2", JNull)])]
       [("functions", JDict [("f1", JNull)])]) <> []
  \/ Compare.functions_extra_in_repaired
       (Compare.main stub_digest
          [("functions", JDict [("f1", JNull); ("f2", JNull)])]
          [("functions", JDict [("f1", JNull)])]) <> [].
Proof.
  apply (proj1 (failure_names_a_key stub_digest
                  [("functions", JDict [("f1", JNull); ("f2", JNull)])]
                  [("functions", JDict [("f1", JNull)])]
                  [("f1", JNull); ("f2", JNull)] [("f1", JNull)]
                  eq_refl eq_refl
                  ltac:(repeat constructor; simpl; intuition discriminate)
                  ltac:(repeat constructor; simpl; intuition discriminate)
                  eq_refl)).
Defined.

(** * Drift and the verifier *)

Section DriftDetected.
Context {G : PRNG}.

(** X14: on a canonical patch none of whose keys is a rename variant, the
    verifier tells the mutated patch from the original whenever the
    container was renamed: the top-level check fails, and so does the
    functions-keyset check unless the container is empty.  A wrap without
    a rename makes the functions-keyset check fail unless the wrapper key
    is the only key the container had. *)
Theorem drift_is_detected (h : string -> string) (ambient : rng_state)
  (a : MutatePatch.args) (patch fns : jdict) :
  dict_find patch CANON_KEY = Some (JDict fns) ->
  no_variant_present patch ->
  exists mutated l,
    MutatePatch.main ambient a patch = (mutated, Ok l)
    /\ match MutatePatch.ml_rename_to l, MutatePatch.ml_wrapper_key l with
       | Some _, _ =>
           Compare.top_level_pass (Compare.main h patch mutated) = false
           /\ (fns <> [] ->
               Compare.functions_keyset_pass (Compare.main h patch mutated)
               = false)
       | None, Some w =>
           dict_keys fns <> [w] ->
           Compare.functions_keyset_pass (Compare.main h patch mutated)
           = false
       | None, None =>
           Compare.functions_keyset_pass (Compare.main h patch mutated) = true
           /\ Compare.top_level_pass (Compare.main h patch mutated) = true
       end.
Proof.
  intros Hf Hno.
  destruct (main_succeeds ambient a patch fns Hf Hno) as (l & Hmain & Hl).
  destruct (repair_shape a l patch fns Hl Hf) as (N & _ & HN & HNc & _).
  destruct (mutated_lookup l patch fns N Hl Hf Hno HNc)
    as (Hcan & Hvar & Hfind).
  exists (drift_core l patch ++ N), l.
  rewrite Hmain, HN. split; [reflexivity|].
  set (M := drift_core l patch ++ N) in *.
  assert (Hm : dict_mem patch CANON_KEY = true)
    by (rewrite dict_mem_find; now rewrite Hf).
  pose proof (summarize_functions_dict h _ _ Hf) as So.
  rewrite main_functions_keyset_pass, main_top_level_pass, So.
  cbn [fst snd].
  destruct (MutatePatch.ml_rename_to l) as [r|] eqn:Ert.
  - split.
    + destruct (Compare.keys_eqb _ _) eqn:E; auto.
      apply keys_eqb_eq in E. exfalso.
      assert (Hin : In CANON_KEY (Compare.top_level_keys M)).
      { rewrite <- E. unfold Compare.top_level_keys.
        apply (proj2 (sorted_In _ _)). apply filter_In.
        split; [now apply dict_mem_In | reflexivity]. }
      unfold Compare.top_level_keys in Hin.
      apply (proj1 (sorted_In _ _)) in Hin. apply filter_In in Hin.
      destruct Hin as [Hin _]. apply dict_mem_In in Hin. congruence.
    + intros Hne.
      assert (Hn : dict_find M CANON_KEY = None).
      { rewrite dict_mem_find in Hcan.
        now destruct (dict_find M CANON_KEY). }
      rewrite (summarize_functions_missing_key h M Hn). cbn [fst snd].
      destruct (Compare.keys_eqb _ _) eqn:E; auto.
      apply keys_eqb_eq in E. apply sorted_nil in E.
      destruct fns; [congruence | discriminate].
  - unfold drifted_value in Hfind.
    destruct (MutatePatch.ml_wrapper_key l) as [w|] eqn:Ewk.
    + intros Hne.
      rewrite (summarize_functions_dict h M _ Hfind). cbn [fst snd].
      destruct (Compare.keys_eqb _ _) eqn:E; auto.
      apply keys_eqb_eq in E. exfalso. apply Hne.
      change (Compare.sorted (dict_keys [(w, JDict fns)])) with [w] in E.
      pose proof (sorted_perm (dict_keys fns)) as Hp.
      rewrite E in Hp. apply Permutation_length_1_inv in Hp. now symmetry.
    + rewrite (summarize_functions_dict h M _ Hfind). cbn [fst snd].
      split; [now apply keys_eqb_eq|].
      apply keys_eqb_eq.
      assert (HM : M = patch ++ N).
      { unfold M, drift_core, drifted_value. rewrite Ert, Ewk.
        rewrite (dict_find_get _ _ _ Hf).
        now rewrite (dict_set_same _ _ _ Hf). }
      rewrite HM. unfold Compare.top_level_keys.
      unfold dict_keys, assoc_keys. rewrite map_app, filter_app.
      replace (filter _ (map fst N)) with (@nil string);
        [now rewrite app_nil_r|].
      destruct HNc as [-> | (e & rec & _ & Hein & -> & _)]; auto.
      cbn [map fst filter].
      apply str_in_In in Hein. now rewrite Hein.
Qed.
End DriftDetected.

Lemma drift_is_detected_witness :
  exists mutated l,
    @MutatePatch.main counter_rng 0%nat
      (trial_args MutatePatch.ModeRename 2) canonical_patch = (mutated, Ok l)
    /\ match MutatePatch.ml_rename_to l, MutatePatch.ml_wrapper_key l with
       | Some _, _ =>
           Compare.top_level_pass
             (Compare.main stub_digest canonical_patch mutated) = false
           /\ ([ ("f1", JDict [("co_argcount", JNum 1)]);
                 ("f2", JDict [("co_argcount", JNum 2)]) ] <> [] ->
               Compare.functions_keyset_pass
                 (Compare.main stub_digest canonical_patch mutated) = false)
       | None, Some w =>
           dict_keys [ ("f1", JDict [("co_argcount", JNum 1)]);
                       ("f2", JDict [("co_argcount", JNum 2)]) ] <> [w] ->
           Compare.functions_keyset_pass
             (Compare.main stub_digest canonical_patch mutated) = false
       | None, None =>
           Compare.functions_keyset_pass
             (Compare.main stub_digest canonical_patch mutated) = true
           /\ Compare.top_level_pass
                (Compare.main stub_digest canonical_patch mutated) = true
       end.
Proof.
  apply (@drift_is_detected counter_rng stub_digest 0%nat
           (trial_args MutatePatch.ModeRename 2) canonical_patch
           [ ("f1", JDict [("co_argcount", JNum 1)]);
             ("f2", JDict [("co_argcount", JNum 2)]) ]).
  - reflexivity.
  - exact canonical_patch_no_variant.
Defined.

(** * Looking up the container and the wrapper *)

Lemma first_present_spec (variants : list string) (patch : jdict) :
  match first_present variants patch with
  | Some k =>
      exists before after,
        variants = before ++ k :: after
        /\ dict_mem patch k = true
        /\ forall x, In x before -> dict_mem patch x = false
  | None => forall x, In x variants -> dict_mem patch x = false
  end.
Proof.
  induction variants as [|k rest IH]; simpl.
  - intros x [].
  - destruct (dict_mem patch k) eqn:E.
    + exists [], rest. repeat split; auto. intros x [].
    + destruct (first_present rest patch) as [k'|].
      * destruct IH as (before & after & -> & Hm & Hb).
        exists (k :: before), after. repeat split; auto.
        intros x [<- | Hx]; auto.
      * intros x [<- | Hx]; auto.
Qed.

(** X15: [find_functions_key] prefers the canonical key; failing that it
    returns the first rename variant, in the order of the vocabulary, that
    is a key of the patch; it returns [None] exactly when neither the
    canonical key nor any variant is a key.  A key it returns is a key of
    the patch. *)
Theorem find_functions_key_spec (patch : jdict) :
  match find_functions_key patch with
  | Some k =>
      dict_mem patch k = true
      /\ (k = CANON_KEY
          \/ (dict_mem patch CANON_KEY = false
              /\ exists before after,
                   RENAME_VARIANTS = before ++ k :: after
                   /\ forall x, In x before -> dict_mem patch x = false))
  | None =>
      dict_mem patch CANON_KEY = false
      /\ forall x, In x RENAME_VARIANTS -> dict_mem patch x = false
  end.
Proof.
  unfold find_functions_key.
  destruct (dict_mem patch CANON_KEY) eqn:E.
  - split; auto.
  - pose proof (first_present_spec RENAME_VARIANTS patch) as H.
    destruct (first_present RENAME_VARIANTS patch) as [k|].
    + destruct H as (before & after & Hv & Hm & Hb).
      split; auto. right. split; auto. eauto.
    + split; auto.
Qed.

Lemma first_dict_valued_spec (variants : list string) (container : jdict) :
  match first_dict_valued variants container with
  | Some k =>
      exists before after,
        variants = before ++ k :: after
        /\ is_dict (dict_get container k) = true
        /\ forall x, In x before -> is_dict (dict_get container x) = false
  | None => forall x, In x variants -> is_dict (dict_get container x) = false
  end.
Proof.
  induction variants as [|k rest IH]; simpl.
  - intros x [].
  - destruct (is_dict (dict_get container k)) eqn:E.
    + exists [], rest. repeat split; auto. intros x [].
    + destruct (first_dict_valued rest container) as [k'|].
      * destruct IH as (before & after & -> & Hm & Hb).
        exists (k :: before), after. repeat split; auto.
        intros x [<- | Hx]; auto.
      * intros x [<- | Hx]; auto.
Qed.

(** X16: [find_wrapper_key] returns the first wrapper variant, in the
    order of the vocabulary, under which the container holds a mapping: a
    variant that is a key with any other value is passed over, and the
    answer is [None] when the container is not a mapping or no variant
    holds a mapping in it. *)
Theorem find_wrapper_key_spec (functions_container : json) :
  match find_wrapper_key functions_container with
  | Some k =>
      exists container before after,
        functions_container = JDict container
        /\ WRAPPER_VARIANTS = before ++ k :: after
        /\ is_dict (dict_get container k) = true
        /\ forall x, In x before -> is_dict (dict_get container x) = false
  | None =>
      match functions_container with
      | JDict container =>
          forall x, In x WRAPPER_VARIANTS ->
                    is_dict (dict_get container x) = false
      | _ => True
      end
  end.
Proof.
  unfold find_wrapper_key.
  destruct functions_container as [| | | | |container]; auto.
  pose proof (first_dict_valued_spec WRAPPER_VARIANTS container) as H.
  destruct (first_dict_valued WRAPPER_VARIANTS container) as [k|]; auto.
  destruct H as (before & after & Hv & Hm & Hb).
  exists container, before, after. auto.
Qed.

(** * The access of a consumer, before and after *)

Lemma mutated_functions_key (l : MutatePatch.mutation_log)
  (patch fns N : jdict) :
  log_consistent patch l ->
  dict_find patch CANON_KEY = Some (JDict fns) ->
  no_variant_present patch ->
  (N = []
   \/ exists e rec, MutatePatch.ml_extra_struct_key l = Some e
                    /\ In e EXTRA_STRUCT_KEYS
                    /\ N = [(e, rec)] /\ dict_mem patch e = false) ->
  find_functions_key (drift_core l patch ++ N)
  = Some (match MutatePatch.ml_rename_to l with
          | Some r => r
          | None => CANON_KEY
          end).
Proof.
  intros Hl Hf Hno HN.
  destruct (mutated_lookup l patch fns N Hl Hf Hno HN) as (Hcan & Hvar & _).
  destruct Hl as (_ & Hr & _).
  unfold find_functions_key. rewrite Hcan.
  destruct (MutatePatch.ml_use_rename l).
  - destruct Hr as (r & Hrt & Hrin & Hrm). rewrite Hrt in *.
    apply first_present_only; auto.
    + rewrite (Hvar r Hrin). apply String.eqb_refl.
    + intros k Hk Hne. rewrite (Hvar k Hk). now apply String.eqb_neq.
  - now rewrite Hr.
Qed.

Section BreakDemoFacts.
Context {G : PRNG}.

(** X17: on a canonical patch with at least one function and none of
    whose keys is a rename variant, the access [patch["functions"][f]],
    for the first function [f] of the original, succeeds on the original
    and on the repaired patch.  On the mutated patch it raises [KeyError]
    when the container was renamed, and also when it was only wrapped,
    unless [f] is the wrapper key itself; the renamed key the script
    reports is the rename target of the log. *)
Theorem access_breaks_and_recovers (ambient : rng_state)
  (a : MutatePatch.args) (patch rest : jdict) (f : string) (rec : json) :
  dict_find patch CANON_KEY = Some (JDict ((f, rec) :: rest)) ->
  no_variant_present patch ->
  exists mutated l repaired logs,
    MutatePatch.main ambient a patch = (mutated, Ok l)
    /\ apply_plan_to_patch (patch_of_json mutated) (inverse_plan l)
       = (patch_of_json repaired, Ok logs)
    /\ BreakDemo.original_probe (BreakDemo.main patch mutated repaired)
       = BreakDemo.ProbeOk
    /\ BreakDemo.repaired_probe (BreakDemo.main patch mutated repaired)
       = BreakDemo.ProbeOk
    /\ BreakDemo.mutated_renamed_key (BreakDemo.main patch mutated repaired)
       = MutatePatch.ml_rename_to l
    /\ BreakDemo.mutated_probe (BreakDemo.main patch mutated repaired)
       = match MutatePatch.ml_rename_to l, MutatePatch.ml_wrapper_key l with
         | Some _, _ => BreakDemo.ProbeFail "KeyError"
         | None, Some w =>
             if f =? w then BreakDemo.ProbeOk
             else BreakDemo.ProbeFail "KeyError"
         | None, None => BreakDemo.ProbeOk
         end.
Proof.
  intros Hf Hno.
  set (fns := (f, rec) :: rest) in *.
  destruct (main_succeeds ambient a patch fns Hf Hno) as (l & Hmain & Hl).
  destruct (repair_shape a l patch fns Hl Hf)
    as (N & logs & HN & HNc & Hr & Ha).
  destruct (mutated_lookup l patch fns N Hl Hf Hno HNc)
    as (Hcan & Hvar & Hfind).
  pose proof (mutated_functions_key l patch fns N Hl Hf Hno HNc) as Hkey.
  pose proof (restored_find l patch N CANON_KEY _ HNc Hf) as Hrf.
  exists (drift_core l patch ++ N), l, (restored l patch N), logs.
  rewrite Hmain, HN. split; [reflexivity|]. split; [exact Hr|].
  set (M := drift_core l patch ++ N) in *.
  assert (Ht : BreakDemo.target_fn patch = Some f).
  { unfold BreakDemo.target_fn. now rewrite Hf. }
  assert (Hmf : dict_mem fns f = true).
  { unfold fns. rewrite dict_mem_find. unfold dict_find. cbn [assoc_find].
    now rewrite String.eqb_refl. }
  unfold BreakDemo.main.
  cbn [BreakDemo.original_probe BreakDemo.repaired_probe
       BreakDemo.mutated_renamed_key BreakDemo.mutated_probe].
  rewrite Ht. unfold BreakDemo.canonical_access.
  rewrite Hf, Hrf, Hmf.
  split; [reflexivity|]. split; [reflexivity|]. split.
  - unfold BreakDemo.renamed_key. rewrite Hkey.
    destruct Hl as (_ & Hrn & _).
    destruct (MutatePatch.ml_use_rename l).
    + destruct Hrn as (r & Hrt & Hrin & _). rewrite Hrt.
      destruct (rename_variant_facts r Hrin) as (Hr0 & Hrc & _).
      now rewrite Hr0, Hrc.
    + rewrite Hrn. reflexivity.
  - destruct (MutatePatch.ml_rename_to l) as [r|] eqn:Ert.
    + rewrite dict_mem_find in Hcan.
      now destruct (dict_find M CANON_KEY).
    + rewrite Hfind. unfold drifted_value.
      destruct (MutatePatch.ml_wrapper_key l) as [w|].
      * now rewrite dict_mem_single.
      * now rewrite Hmf.
Qed.
End BreakDemoFacts.

Lemma access_breaks_and_recovers_witness :
  exists mutated l repaired logs,
    @MutatePatch.main counter_rng 0%nat
      (trial_args MutatePatch.ModeWrapper 4) canonical_patch
    = (mutated, Ok l)
    /\ apply_plan_to_patch (patch_of_json mutated) (inverse_plan l)
       = (patch_of_json repaired, Ok logs)
    /\ BreakDemo.original_probe
         (BreakDemo.main canonical_patch mutated repaired)
       = BreakDemo.ProbeOk
    /\ BreakDemo.repaired_probe
         (BreakDemo.main canonical_patch mutated repaired)
       = BreakDemo.ProbeOk
    /\ BreakDemo.mutated_renamed_key
         (BreakDemo.main canonical_patch mutated repaired)
       = MutatePatch.ml_rename_to l
    /\ BreakDemo.mutated_probe
         (BreakDemo.main canonical_patch mutated repaired)
       = match MutatePatch.ml_rename_to l, MutatePatch.ml_wrapper_key l with
         | Some _, _ => BreakDemo.ProbeFail "KeyError"
         | None, Some w =>
             if "f1" =? w then BreakDemo.ProbeOk
             else BreakDemo.ProbeFail "KeyError"
         | None, None => BreakDemo.ProbeOk
         end.
Proof.
  apply (@access_breaks_and_recovers counter_rng 0%nat
           (trial_args MutatePatch.ModeWrapper 4) canonical_patch
           [("f2", JDict [("co_argcount", JNum 2)])]
           "f1" (JDict [("co_argcount", JNum 1)])).
  - reflexivity.
  - exact canonical_patch_no_variant.
Defined.

(** * Fenced responses *)

Lemma not_boundary_not_cr (c : N) :
  is_line_boundary c = false -> (c =? 13)%N = false.
Proof.
  intros H. destruct (c =? 13)%N eqn:E; auto.
  apply N.eqb_eq in E. subst. discriminate.
Qed.

Lemma splitlines_from_line (l cur rest : text) :
  one_line l ->
  splitlines_from cur (l ++ 10%N :: rest)
  = (cur ++ l) :: splitlines_from [] rest.
Proof.
  intros H. revert cur.
  induction H as [|c l Hc Hl IH]; intros cur.
  - rewrite app_nil_r. reflexivity.
  - cbn [app splitlines_from].
    rewrite (not_boundary_not_cr c Hc), Hc, IH.
    now rewrite <- app_assoc.
Qed.

Lemma splitlines_from_last (l cur : text) :
  one_line l -> cur ++ l <> [] -> splitlines_from cur l = [cur ++ l].
Proof.
  intros H. revert cur.
  induction H as [|c l Hc Hl IH]; intros cur Hne.
  - rewrite app_nil_r in *. simpl. now destruct cur.
  - cbn [splitlines_from].
    rewrite (not_boundary_not_cr c Hc), Hc, IH.
    + now rewrite <- app_assoc.
    + rewrite <- app_assoc. exact Hne.
Qed.

Lemma join_lines_cons (l : text) (lines : list text) :
  lines <> [] -> join_lines (l :: lines) = l ++ 10%N :: join_lines lines.
Proof. destruct lines; [congruence | reflexivity]. Qed.

(** Splitting the lines that were joined gives them back, when none holds
    a line boundary and the last one is not empty. *)
Lemma splitlines_join (init : list text) (last : text) :
  Forall one_line init -> one_line last -> last <> [] ->
  splitlines (join_lines (init ++ [last])) = init ++ [last].
Proof.
  intros Hi Hl Hne. unfold splitlines.
  induction Hi as [|l init Hl1 Hinit IH].
  - simpl. now apply (splitlines_from_last last []).
  - cbn [app]. rewrite join_lines_cons by (now destruct init).
    rewrite splitlines_from_line by assumption.
    now rewrite IH.
Qed.

Lemma startswith_app (a b p : text) :
  startswith a p = true -> startswith (a ++ b) p = true.
Proof.
  revert a. induction p as [|x p IH]; intros a H.
  - now destruct (a ++ b).
  - destruct a as [|y a]; [discriminate H|].
    cbn [app startswith] in *.
    apply andb_true_iff in H. destruct H as [H1 H2].
    rewrite H1. now apply IH.
Qed.

(** X18: a response that, once stripped, is a line starting with a code
    fence, then one or more lines, then a non-empty last line, loses its
    first and its last line, whatever they hold: what is left, stripped,
    is the text examined, and it is returned when it parses. *)
Theorem fenced_response_unwrapped (t first last : text)
  (middle : list text) :
  strip t = join_lines (first :: middle ++ [last]) ->
  startswith first fence = true ->
  middle <> [] -> last <> [] ->
  one_line first -> Forall one_line middle -> one_line last ->
  strip_fences t = strip (join_lines middle)
  /\ forall json_loads v,
       json_loads (strip (join_lines middle)) = Loaded v ->
       _extract_json_object json_loads t = Ok (strip (join_lines middle)).
Proof.
  intros Ht Hf Hm Hl H1 H2 H3.
  assert (E : strip_fences t = strip (join_lines middle)).
  { unfold strip_fences. rewrite Ht.
    assert (Hs : startswith (join_lines (first :: middle ++ [last])) fence
                 = true).
    { rewrite join_lines_cons by (now destruct middle).
      now apply startswith_app. }
    rewrite Hs.
    change (first :: middle ++ [last]) with ((first :: middle) ++ [last]).
    rewrite splitlines_join; auto.
    rewrite length_app. cbn [List.length].
    destruct middle as [|m middle]; [congruence|].
    unfold drop_first_last. cbn [app tl].
    change (m :: middle ++ [last]) with ((m :: middle) ++ [last]).
    destruct (3 <=? _)%nat eqn:E3.
    - now rewrite removelast_last.
    - apply Nat.leb_gt in E3. cbn [List.length] in E3. lia. }
  split; [exact E|].
  intros json_loads v Hv. unfold _extract_json_object.
  now rewrite E, Hv.
Qed.

Lemma fenced_response_unwrapped_witness :
  strip_fences
    (text_of_string " " ++ fence ++ text_of_string "json" ++ [10%N]
     ++ text_of_string "{'actions': []}" ++ [10%N] ++ fence)
  = text_of_string "{'actions': []}".
Proof.
  apply (proj1 (fenced_response_unwrapped
                  (text_of_string " " ++ fence ++ text_of_string "json"
                   ++ [10%N] ++ text_of_string "{'actions': []}"
                   ++ [10%N] ++ fence)
                  (fence ++ text_of_string "json") fence
                  [text_of_string "{'actions': []}"]
                  eq_refl eq_refl
                  ltac:(discriminate) ltac:(discriminate)
                  ltac:(repeat constructor)
                  ltac:(repeat constructor)
                  ltac:(repeat constructor))).
Defined.

(** * The reader of the response *)














(** A fenced response, and a response that is JSON but no plan: the
    extraction accepts the number, the shape check then rejects it. *)
Lemma plan_of_response_examples :
  plan_of_response sample_json_loads
    (Some (fence ++ text_of_string "json" ++ [10%N]
           ++ text_of_string "{'actions': []}" ++ [10%N] ++ fence))
  = Ok (JDict [("actions", JList [])])
  /\ _extract_json_object sample_json_loads (text_of_string " 5 ")
     = Ok (text_of_string "5")
  /\ plan_of_response sample_json_loads (Some (text_of_string " 5 "))
     = Raise (ValueError
         "LLM returned invalid plan shape (expected dict with 'actions': list).")
  /\ plan_of_response sample_json_loads (Some (text_of_string "{} and {}"))
     = Raise (ValueError
         "Extracted JSON is invalid: Extra data: line 1 column 4 (char 3)")
  /\ plan_of_response sample_json_loads None
     = Raise (ValueError "No JSON object found in LLM output.").
Proof. repeat split; reflexivity. Qed.

(** * What the mutator leaves alone, and what it can raise *)

Section MutatorFrame.
Context {G : PRNG}.

(** X19: on a canonical patch none of whose keys is a rename variant, the
    mutator changes nothing but the place and the wrapping of the
    functions container: every other key of the patch holds in the mutated
    patch what it held, and the only keys added are the rename target and
    the noise key of the log. *)
Theorem mutate_frame (ambient : rng_state) (a : MutatePatch.args)
  (patch fns : jdict) :
  dict_find patch CANON_KEY = Some (JDict fns) ->
  no_variant_present patch ->
  exists mutated l,
    MutatePatch.main ambient a patch = (mutated, Ok l)
    /\ (forall k v, k <> CANON_KEY -> dict_find patch k = Some v ->
                    dict_find mutated k = Some v)
    /\ (forall k, dict_mem mutated k = true ->
                  dict_mem patch k = true
                  \/ MutatePatch.ml_rename_to l = Some k
                  \/ MutatePatch.ml_extra_struct_key l = Some k).
Proof.
  intros Hf Hno.
  destruct (main_succeeds ambient a patch fns Hf Hno) as (l & Hmain & Hl).
  destruct (repair_shape a l patch fns Hl Hf) as (N & _ & HN & HNc & _).
  exists (drift_core l patch ++ N), l.
  rewrite Hmain, HN. split; [reflexivity|].
  unfold drift_core.
  destruct (MutatePatch.ml_rename_to l) as [r|] eqn:Ert.
  - split.
    + intros k v Hk Hv.
      rewrite !dict_find_app, dict_find_pop.
      apply String.eqb_neq in Hk. now rewrite Hk, Hv.
    + intros k Hk.
      rewrite !dict_mem_app, dict_mem_pop, dict_mem_single in Hk.
      apply orb_true_iff in Hk. destruct Hk as [Hk | Hk].
      * apply orb_true_iff in Hk. destruct Hk as [Hk | Hk].
        -- apply andb_true_iff in Hk. tauto.
        -- apply String.eqb_eq in Hk. subst. auto.
      * destruct HNc as [-> | (e & rec & Hek & _ & -> & _)];
          [discriminate|].
        rewrite dict_mem_single in Hk.
        apply String.eqb_eq in Hk. subst. auto.
  - split.
    + intros k v Hk Hv.
      rewrite dict_find_app, dict_find_set.
      apply String.eqb_neq in Hk. now rewrite Hk, Hv.
    + intros k Hk.
      rewrite dict_mem_app, dict_mem_set in Hk.
      apply orb_true_iff in Hk. destruct Hk as [Hk | Hk].
      * apply orb_true_iff in Hk. destruct Hk as [Hk | Hk]; auto.
        apply String.eqb_eq in Hk. subst. left.
        rewrite dict_mem_find. now rewrite Hf.
      * destruct HNc as [-> | (e & rec & Hek & _ & -> & _)];
          [discriminate|].
        rewrite dict_mem_single in Hk.
        apply String.eqb_eq in Hk. subst. auto.
Qed.

Lemma wrap_current_raise (w : option string) (patch p' : jdict) (e : exn) :
  find_functions_key patch <> None ->
  MutatePatch.wrap_current w patch = (p', Raise e) ->
  exists k, e = TypeError ("Expected patch['" ++ k
                           ++ "'] to be a dict before wrapping.")%string.
Proof.
  unfold MutatePatch.wrap_current, MutatePatch.current_functions_key.
  destruct (find_functions_key patch) as [k|]; [|congruence].
  intros _.
  destruct (negb (is_dict (dict_get patch k))); [|discriminate].
  intros H. exists k. congruence.
Qed.

(** X20: the mutator raises nothing but [KeyError] for a missing
    canonical key, [RuntimeError] for want of a rename target, and
    [TypeError] for a value that is not a mapping, under the canonical key
    or under the key it is about to wrap.  The errors kept for an
    unexpected order, for no mutation at all and for a functions container
    that cannot be located are never raised. *)
Theorem mutate_raises_only (ambient : rng_state) (a : MutatePatch.args)
  (patch p' : jdict) (e : exn) :
  MutatePatch.main ambient a patch = (p', Raise e) ->
  e = KeyError
        "Expected top-level key 'functions' not found in patch_reference.json."
  \/ e = RuntimeError "No available rename targets"
  \/ e = TypeError "Expected patch['functions'] to be a dict."
  \/ exists k, e = TypeError ("Expected patch['" ++ k
                              ++ "'] to be a dict before wrapping.")%string.
Proof.
  unfold MutatePatch.main.
  destruct (dict_mem patch CANON_KEY) eqn:Hm; cbn [negb].
  2:{ intros H. injection H as _ <-. auto. }
  set (g := match MutatePatch.arg_seed a with
            | Some s => rng_seed s
            | None => ambient
            end).
  destruct (select_parameters_outcome a patch g)
    as [[l El] | (El & _)]; rewrite El.
  2:{ intros H. injection H as _ <-. auto. }
  destruct (is_dict (dict_get patch CANON_KEY)) eqn:Hd; cbn [negb].
  2:{ intros H. injection H as _ <-. auto. }
  destruct (select_parameters_inv _ _ _ _ El)
    as ((Hany & Hr & Hw & He & Ho) & _).
  unfold MutatePatch.apply_drifts.
  destruct (MutatePatch.ml_use_rename l) eqn:Er.
  - destruct (MutatePatch.ml_use_wrap l) eqn:Ew; cbn [andb].
    + destruct Hr as (r & Hrt & Hrin & Hrm).
      destruct (rename_variant_facts r Hrin) as (Hr0 & Hrc & Hcr & _).
      destruct Ho as [Ho | Ho]; rewrite Ho.
      * change ("rename_then_wrap" =? "rename_then_wrap") with true.
        cbv iota.
        destruct (MutatePatch.wrap_current _ _) as [p1 [u|e1]] eqn:Ewc;
          cbv beta iota zeta; [discriminate|].
        intros H. injection H as _ <-.
        do 3 right. eapply wrap_current_raise; [|exact Ewc].
        rewrite Hrt. unfold MutatePatch.rename_container.
        rewrite Hr0, Hm, Hrm. cbn [negb andb].
        unfold find_functions_key.
        destruct (dict_mem (dict_set _ _ _) CANON_KEY); [congruence|].
        pose proof (first_present_spec RENAME_VARIANTS
                      (dict_set (dict_pop patch CANON_KEY) r
                         (dict_get patch CANON_KEY))) as Hfp.
        destruct (first_present RENAME_VARIANTS _); [congruence|].
        specialize (Hfp r Hrin).
        rewrite dict_mem_set, String.eqb_refl in Hfp. discriminate.
      * change ("wrap_then_rename" =? "rename_then_wrap") with false.
        change ("wrap_then_rename" =? "wrap_then_rename") with true.
        cbv iota. discriminate.
    + discriminate.
  - cbn [andb].
    destruct (MutatePatch.ml_use_wrap l) eqn:Ew.
    + destruct (MutatePatch.wrap_current _ _) as [p1 [u|e1]] eqn:Ewc;
        cbv beta iota zeta; [discriminate|].
      intros H. injection H as _ <-.
      do 3 right. eapply wrap_current_raise; [|exact Ewc].
      unfold find_functions_key. rewrite Hm. congruence.
    + cbn [orb] in Hany. rewrite Hany. discriminate.
Qed.
End MutatorFrame.

Lemma mutate_frame_witness :
  exists mutated l,
    @MutatePatch.main counter_rng 0%nat
      (trial_args MutatePatch.ModeAll 7) canonical_patch = (mutated, Ok l)
    /\ (forall k v, k <> CANON_KEY -> dict_find canonical_patch k = Some v ->
                    dict_find mutated k = Some v)
    /\ (forall k, dict_mem mutated k = true ->
                  dict_mem canonical_patch k = true
                  \/ MutatePatch.ml_rename_to l = Some k
                  \/ MutatePatch.ml_extra_struct_key l = Some k).
Proof.
  apply (@mutate_frame counter_rng 0%nat
           (trial_args MutatePatch.ModeAll 7) canonical_patch
           [ ("f1", JDict [("co_argcount", JNum 1)]);
             ("f2", JDict [("co_argcount", JNum 2)]) ]).
  - reflexivity.
  - exact canonical_patch_no_variant.
Defined.

Lemma mutate_raises_only_witness :
  RuntimeError "No available rename targets"
  = KeyError
      "Expected top-level key 'functions' not found in patch_reference.json."
  \/ RuntimeError "No available rename targets"
     = RuntimeError "No available rename targets"
  \/ RuntimeError "No available rename targets"
     = TypeError "Expected patch['functions'] to be a dict."
  \/ exists k,
       RuntimeError "No available rename targets"
       = TypeError ("Expected patch['" ++ k
                    ++ "'] to be a dict before wrapping.")%string.
Proof.
  apply (@mutate_raises_only counter_rng 0%nat
           (trial_args MutatePatch.ModeRename 0) crowded_patch
           crowded_patch (RuntimeError "No available rename targets")).
  reflexivity.
Defined.
